(** * Amana Marketing dashboards: aggregation engine and chart scaling

    A shallow embedding of the four aggregation derivations
    (DemographicView, DeviceView, WeeklyView, RegionView) and of the
    scaling code of LineChart and BubbleMap, with the properties the
    specification states about them.

    Numbers.  A TypeScript [number] is an IEEE double.  The aggregation
    code only adds, multiplies, divides and compares, so it is embedded
    over the canonical rationals [Qc]: exact arithmetic, Leibniz
    equality, decidable order.  Rounding and the infinities are outside
    this model; the NaN of a date that does not parse and of
    [undefined + number] are written out where they arise.  [Math.sqrt]
    has no rational counterpart, so the bubble map is embedded over the
    reals [R].

    Objects.  Every derivation is given twice: once over values (a fold
    over the records) and once over a store of mutable records addressed
    by references, where [{ ...record }] allocates and [existing.f += x]
    writes through a reference.  The two are related by a simulation
    lemma, so value-level facts transfer to the store-level program. *)

From Stdlib Require Import QArith Qcanon ZArith Lia List Permutation Sorted Ascii.
From Stdlib Require Import Reals Lra.
From Stdlib Require Lqa.
From stdpp Require Import base numbers list strings gmap.

Local Open Scope Qc_scope.

(** ** Numbers *)

(** An integer literal of the source, [100] say, as a rational. *)
Definition num (z : Z) : Qc := Qc_of_Z z.

(** [x > 0] of the source. *)
Definition positive (x : Qc) : bool := bool_decide (0 < x).

(** [d > 0 ? n / d : 0] *)
Definition guarded_ratio (n d : Qc) : Qc :=
  if positive d then n / d else 0.

(** [d > 0 ? (n / d) * 100 : 0] *)
Definition guarded_percent (n d : Qc) : Qc :=
  if positive d then (n / d) * num 100 else 0.

(** The ratios as the specification words them: the quotient, and 0
    when the denominator is 0. *)
Definition ratio_or_zero (n d : Qc) : Qc :=
  if decide (d = 0) then 0 else n / d.

Definition percent_or_zero (n d : Qc) : Qc :=
  if decide (d = 0) then 0 else (n / d) * num 100.

(** Sum of a numeric field over a sequence of records. *)
Definition total {A : Type} (f : A -> Qc) (l : list A) : Qc :=
  foldr (fun x acc => f x + acc) 0 l.

(** ** The JavaScript [Map] with string keys

    Iteration order is insertion order and [set] on a present key keeps
    the key's position, so the map is an association list. *)
Module JsMap.
Definition t (V : Type) : Type := list (string * V).

Definition empty {V : Type} : t V := [].

Fixpoint has {V : Type} (m : t V) (k : string) : bool :=
  match m with
  | [] => false
  | (k', _) :: m' => if String.eqb k' k then true else has m' k
  end.

Fixpoint get {V : Type} (m : t V) (k : string) : option V :=
  match m with
  | [] => None
  | (k', v) :: m' => if String.eqb k' k then Some v else get m' k
  end.

Fixpoint set {V : Type} (m : t V) (k : string) (v : V) : t V :=
  match m with
  | [] => [(k, v)]
  | (k', v') :: m' =>
      if String.eqb k' k then (k', v) :: m' else (k', v') :: set m' k v
  end.

Definition keys {V : Type} (m : t V) : list string := map fst m.
Definition values {V : Type} (m : t V) : list V := map snd m.
End JsMap.

(** ** [Array.prototype.sort]

    The sort is stable.  [after a b] says that the comparator is
    positive on [(a, b)], so that [a] has to come after [b].  For a
    comparator that orders by a key every stable sort returns the same
    sequence; it is computed here by insertion. *)
Section ArraySort.
Context {A : Type} (after : A -> A -> bool).

Fixpoint sort_insert (x : A) (l : list A) : list A :=
  match l with
  | [] => [x]
  | y :: l' => if after x y then y :: sort_insert x l' else x :: y :: l'
  end.

Definition array_sort (l : list A) : list A := foldr sort_insert [] l.
End ArraySort.

(** ** Grouping records by a key

    The weekly and the regional rollup run the same loop body: look the
    record's key up in a [Map]; seed the entry with the record when the
    key is new, else merge the record into the entry. *)
Section GroupBy.
Context {T : Type} (key : T -> string) (merge : T -> T -> T).

Definition group_step (m : JsMap.t T) (r : T) : JsMap.t T :=
  if negb (JsMap.has m (key r)) then
    JsMap.set m (key r) r
  else
    match JsMap.get m (key r) with
    | Some existing => JsMap.set m (key r) (merge existing r)
    | None => m
    end.

(** The records with key [k], in their order. *)
Definition keyed (k : string) (recs : list T) : list T :=
  filter (fun r => key r = k) recs.
End GroupBy.

(** The distinct keys of a sequence, each at its first occurrence. *)
Fixpoint first_seen (l : list string) : list string :=
  match l with
  | [] => []
  | k :: l' => k :: filter (fun x => x <> k) (first_seen l')
  end.

(** ** Data model (types/marketing) *)

Module RegionalPerformance.
Record t : Type := mk {
  region : string;
  country : string;
  impressions : Qc;
  clicks : Qc;
  conversions : Qc;
  spend : Qc;
  revenue : Qc;
  ctr : Qc;
  conversion_rate : Qc;
  cpc : Qc;
  cpa : Qc;
  roas : Qc
}.

(** Field assignments [o.f = v]. *)
Definition set_impressions (v : Qc) (o : t) : t :=
  mk (region o) (country o) v (clicks o) (conversions o) (spend o)
     (revenue o) (ctr o) (conversion_rate o) (cpc o) (cpa o) (roas o).
Definition set_clicks (v : Qc) (o : t) : t :=
  mk (region o) (country o) (impressions o) v (conversions o) (spend o)
     (revenue o) (ctr o) (conversion_rate o) (cpc o) (cpa o) (roas o).
Definition set_conversions (v : Qc) (o : t) : t :=
  mk (region o) (country o) (impressions o) (clicks o) v (spend o)
     (revenue o) (ctr o) (conversion_rate o) (cpc o) (cpa o) (roas o).
Definition set_spend (v : Qc) (o : t) : t :=
  mk (region o) (country o) (impressions o) (clicks o) (conversions o) v
     (revenue o) (ctr o) (conversion_rate o) (cpc o) (cpa o) (roas o).
Definition set_revenue (v : Qc) (o : t) : t :=
  mk (region o) (country o) (impressions o) (clicks o) (conversions o)
     (spend o) v (ctr o) (conversion_rate o) (cpc o) (cpa o) (roas o).
Definition set_ctr (v : Qc) (o : t) : t :=
  mk (region o) (country o) (impressions o) (clicks o) (conversions o)
     (spend o) (revenue o) v (conversion_rate o) (cpc o) (cpa o) (roas o).
Definition set_conversion_rate (v : Qc) (o : t) : t :=
  mk (region o) (country o) (impressions o) (clicks o) (conversions o)
     (spend o) (revenue o) (ctr o) v (cpc o) (cpa o) (roas o).
Definition set_cpc (v : Qc) (o : t) : t :=
  mk (region o) (country o) (impressions o) (clicks o) (conversions o)
     (spend o) (revenue o) (ctr o) (conversion_rate o) v (cpa o) (roas o).
Definition set_cpa (v : Qc) (o : t) : t :=
  mk (region o) (country o) (impressions o) (clicks o) (conversions o)
     (spend o) (revenue o) (ctr o) (conversion_rate o) (cpc o) v (roas o).
Definition set_roas (v : Qc) (o : t) : t :=
  mk (region o) (country o) (impressions o) (clicks o) (conversions o)
     (spend o) (revenue o) (ctr o) (conversion_rate o) (cpc o) (cpa o) v.
End RegionalPerformance.

Module WeeklyPerformance.
Record t : Type := mk {
  week_start : string;
  week_end : string;
  impressions : Qc;
  clicks : Qc;
  conversions : Qc;
  spend : Qc;
  revenue : Qc
}.

Definition set_impressions (v : Qc) (o : t) : t :=
  mk (week_start o) (week_end o) v (clicks o) (conversions o) (spend o)
     (revenue o).
Definition set_clicks (v : Qc) (o : t) : t :=
  mk (week_start o) (week_end o) (impressions o) v (conversions o)
     (spend o) (revenue o).
Definition set_conversions (v : Qc) (o : t) : t :=
  mk (week_start o) (week_end o) (impressions o) (clicks o) v (spend o)
     (revenue o).
Definition set_spend (v : Qc) (o : t) : t :=
  mk (week_start o) (week_end o) (impressions o) (clicks o)
     (conversions o) v (revenue o).
Definition set_revenue (v : Qc) (o : t) : t :=
  mk (week_start o) (week_end o) (impressions o) (clicks o)
     (conversions o) (spend o) v.
End WeeklyPerformance.

Module DevicePerformance.
Record t : Type := mk {
  device : string;
  impressions : Qc;
  clicks : Qc;
  conversions : Qc;
  spend : Qc;
  revenue : Qc;
  ctr : Qc;
  conversion_rate : Qc;
  percentage_of_traffic : Qc
}.

Definition set_impressions (v : Qc) (o : t) : t :=
  mk (device o) v (clicks o) (conversions o) (spend o) (revenue o)
     (ctr o) (conversion_rate o) (percentage_of_traffic o).
Definition set_clicks (v : Qc) (o : t) : t :=
  mk (device o) (impressions o) v (conversions o) (spend o) (revenue o)
     (ctr o) (conversion_rate o) (percentage_of_traffic o).
Definition set_conversions (v : Qc) (o : t) : t :=
  mk (device o) (impressions o) (clicks o) v (spend o) (revenue o)
     (ctr o) (conversion_rate o) (percentage_of_traffic o).
Definition set_spend (v : Qc) (o : t) : t :=
  mk (device o) (impressions o) (clicks o) (conversions o) v (revenue o)
     (ctr o) (conversion_rate o) (percentage_of_traffic o).
Definition set_revenue (v : Qc) (o : t) : t :=
  mk (device o) (impressions o) (clicks o) (conversions o) (spend o) v
     (ctr o) (conversion_rate o) (percentage_of_traffic o).
Definition set_ctr (v : Qc) (o : t) : t :=
  mk (device o) (impressions o) (clicks o) (conversions o) (spend o)
     (revenue o) v (conversion_rate o) (percentage_of_traffic o).
Definition set_conversion_rate (v : Qc) (o : t) : t :=
  mk (device o) (impressions o) (clicks o) (conversions o) (spend o)
     (revenue o) (ctr o) v (percentage_of_traffic o).
Definition set_percentage_of_traffic (v : Qc) (o : t) : t :=
  mk (device o) (impressions o) (clicks o) (conversions o) (spend o)
     (revenue o) (ctr o) (conversion_rate o) v.
End DevicePerformance.

Module DemographicBreakdown.
(** The nested [performance] record of a slice. *)
Record perf : Type := mk_perf {
  impressions : Qc;
  clicks : Qc;
  conversions : Qc;
  ctr : Qc;
  conversion_rate : Qc
}.

Record t : Type := mk {
  gender : string;
  age_group : string;
  percentage_of_audience : Qc;
  performance : perf
}.
End DemographicBreakdown.

(** A campaign.  A breakdown that is absent ([undefined]) is [None].
    The record is parameterised by what a breakdown array holds: the
    records themselves at value level, references at store level. *)
Module Campaign.
Record t (D V W G : Type) : Type := mk {
  name : string;
  spend : Qc;
  revenue : Qc;
  demographic_breakdown : option (list D);
  device_performance : option (list V);
  weekly_performance : option (list W);
  regional_performance : option (list G)
}.
Arguments mk {D V W G}.
Arguments name {D V W G}.
Arguments spend {D V W G}.
Arguments revenue {D V W G}.
Arguments demographic_breakdown {D V W G}.
Arguments device_performance {D V W G}.
Arguments weekly_performance {D V W G}.
Arguments regional_performance {D V W G}.
End Campaign.

(** The fetched snapshot.  The views hold [MarketingData | null]; the
    [null] state is [None] of an option at the use sites. *)
Module MarketingData.
Record t (D V W G : Type) : Type := mk {
  campaigns : list (Campaign.t D V W G)
}.
Arguments mk {D V W G}.
Arguments campaigns {D V W G}.
End MarketingData.

(** A snapshot whose breakdown arrays hold the records themselves. *)
Abbreviation Data :=
  (MarketingData.t DemographicBreakdown.t DevicePerformance.t
                   WeeklyPerformance.t RegionalPerformance.t).
Abbreviation CampaignData :=
  (Campaign.t DemographicBreakdown.t DevicePerformance.t
              WeeklyPerformance.t RegionalPerformance.t).

(** ** RegionView: the regional rollup *)
Module RegionView.
Import RegionalPerformance.

(** The [else] branch of the loop body: the statements that update
    [existing] from [region], in source order. *)
Definition merge (existing region : t) : t :=
  let existing := set_impressions (impressions existing + impressions region) existing in
  let existing := set_clicks (clicks existing + clicks region) existing in
  let existing := set_conversions (conversions existing + conversions region) existing in
  let existing := set_spend (spend existing + spend region) existing in
  let existing := set_revenue (revenue existing + revenue region) existing in
  let existing := set_ctr (guarded_percent (clicks existing) (impressions existing)) existing in
  let existing := set_conversion_rate (guarded_percent (conversions existing) (clicks existing)) existing in
  let existing := set_cpc (guarded_ratio (spend existing) (clicks existing)) existing in
  let existing := set_cpa (guarded_ratio (spend existing) (conversions existing)) existing in
  let existing := set_roas (guarded_ratio (revenue existing) (spend existing)) existing in
  existing.

(** The body of [campaign.regional_performance.forEach]. *)
Definition step (regionMap : JsMap.t t) (region : t) : JsMap.t t :=
  let key := RegionalPerformance.region region in
  if negb (JsMap.has regionMap key) then
    JsMap.set regionMap key region
  else
    match JsMap.get regionMap key with
    | Some existing => JsMap.set regionMap key (merge existing region)
    | None => regionMap
    end.

(** The body of [marketingData.campaigns.forEach]. *)
Definition campaign_step {D V W : Type}
    (regionMap : JsMap.t t) (campaign : Campaign.t D V W t) : JsMap.t t :=
  match Campaign.regional_performance campaign with
  | None => regionMap
  | Some regions => foldl step regionMap regions
  end.

Definition regionMap {D V W : Type}
    (md : MarketingData.t D V W t) : JsMap.t t :=
  foldl campaign_step JsMap.empty (MarketingData.campaigns md).

(** [(a, b) => b.revenue - a.revenue] is positive. *)
Definition by_revenue_desc (a b : t) : bool :=
  positive (revenue b - revenue a).

Definition regionalData {D V W : Type}
    (marketingData : option (MarketingData.t D V W t)) : list t :=
  match marketingData with
  | None => []
  | Some md => array_sort by_revenue_desc (JsMap.values (regionMap md))
  end.

(** What the statements about the rollup are phrased with. *)

(** All regional records of the snapshot, in the order the two nested
    loops visit them. *)
Definition records {D V W : Type} (md : MarketingData.t D V W t) : list t :=
  flat_map (fun c => default [] (Campaign.regional_performance c))
           (MarketingData.campaigns md).

(** The five stored rates of [e] are the given ratios of [e]'s own raw
    fields. *)
Definition recomputed (percent ratio : Qc -> Qc -> Qc) (e : t) : Prop :=
  ctr e = percent (clicks e) (impressions e) /\
  conversion_rate e = percent (conversions e) (clicks e) /\
  cpc e = ratio (spend e) (clicks e) /\
  cpa e = ratio (spend e) (conversions e) /\
  roas e = ratio (revenue e) (spend e).

(** The raw fields of [e] are the sums over the records [rs]. *)
Definition sums_of (rs : list t) (e : t) : Prop :=
  impressions e = total impressions rs /\
  clicks e = total clicks rs /\
  conversions e = total conversions rs /\
  spend e = total spend rs /\
  revenue e = total revenue rs.

(** A record whose denominators are not negative. *)
Definition nonneg (r : t) : Prop :=
  0 ≤ impressions r /\ 0 ≤ clicks r /\ 0 ≤ conversions r /\ 0 ≤ spend r.
End RegionView.

(** ** WeeklyView: the weekly rollup *)
Module WeeklyView.
Import WeeklyPerformance.

Definition merge (existing week : t) : t :=
  let existing := set_impressions (impressions existing + impressions week) existing in
  let existing := set_clicks (clicks existing + clicks week) existing in
  let existing := set_conversions (conversions existing + conversions week) existing in
  let existing := set_spend (spend existing + spend week) existing in
  let existing := set_revenue (revenue existing + revenue week) existing in
  existing.

Definition step (weekMap : JsMap.t t) (week : t) : JsMap.t t :=
  let key := week_start week in
  if negb (JsMap.has weekMap key) then
    JsMap.set weekMap key week
  else
    match JsMap.get weekMap key with
    | Some existing => JsMap.set weekMap key (merge existing week)
    | None => weekMap
    end.

Definition campaign_step {D V G : Type}
    (weekMap : JsMap.t t) (campaign : Campaign.t D V t G) : JsMap.t t :=
  match Campaign.weekly_performance campaign with
  | None => weekMap
  | Some weeks => foldl step weekMap weeks
  end.

Definition weekMap {D V G : Type}
    (md : MarketingData.t D V t G) : JsMap.t t :=
  foldl campaign_step JsMap.empty (MarketingData.campaigns md).

(** What the statements about the rollup are phrased with. *)

(** All weekly records of the snapshot, in the order the two nested
    loops visit them. *)
Definition records {D V G : Type} (md : MarketingData.t D V t G) : list t :=
  flat_map (fun c => default [] (Campaign.weekly_performance c))
           (MarketingData.campaigns md).

(** The raw fields of [e] are the sums over the records [rs]. *)
Definition sums_of (rs : list t) (e : t) : Prop :=
  impressions e = total impressions rs /\
  clicks e = total clicks rs /\
  conversions e = total conversions rs /\
  spend e = total spend rs /\
  revenue e = total revenue rs.

Section Chronology.
(** [new Date(s).getTime()]: the chronological value of a date
    string, in milliseconds, and NaN ([None]) for a string that does
    not parse as a date.  The parser belongs to the runtime. *)
Variable getTime : string -> option Z.

(** [(a, b) => new Date(a.week_start).getTime() -
               new Date(b.week_start).getTime()] is positive.  With a
    NaN on either side the difference is NaN, which the sort takes as
    +0: not positive.  The comparator is then not a consistent order
    any more and the resulting order is the engine's; [array_sort]
    follows the insertion order, which is also what the run detection
    of a merge sort leaves. *)
Definition by_week_start (a b : t) : bool :=
  match getTime (week_start a), getTime (week_start b) with
  | Some ta, Some tb => (0 <? ta - tb)%Z
  | _, _ => false
  end.

Definition weeklyData {D V G : Type}
    (marketingData : option (MarketingData.t D V t G)) : list t :=
  match marketingData with
  | None => []
  | Some md => array_sort by_week_start (JsMap.values (weekMap md))
  end.
End Chronology.
End WeeklyView.

(** ** DeviceView: the device rollup *)
Module CampaignDeviceBreakdown.
Record t : Type := mk {
  campaign : string;
  device : string;
  impressions : Qc;
  clicks : Qc;
  conversions : Qc;
  spend : Qc;
  revenue : Qc;
  ctr : Qc;
  conversion_rate : Qc;
  roas : Qc
}.
End CampaignDeviceBreakdown.

Module AggregatedDeviceData.
Record t : Type := mk {
  mobileData : DevicePerformance.t;
  desktopData : DevicePerformance.t;
  campaignDeviceBreakdown : list CampaignDeviceBreakdown.t
}.
End AggregatedDeviceData.

Module DeviceView.
Import DevicePerformance.

(** The object literal both accumulators start from. *)
Definition zero (name : string) : t := mk name 0 0 0 0 0 0 0 0.

(** The five [agg.f += device.f] statements of a branch. *)
Definition accumulate (agg device : t) : t :=
  let agg := set_impressions (impressions agg + impressions device) agg in
  let agg := set_clicks (clicks agg + clicks device) agg in
  let agg := set_conversions (conversions agg + conversions device) agg in
  let agg := set_spend (spend agg + spend device) agg in
  let agg := set_revenue (revenue agg + revenue device) agg in
  agg.

(** The row pushed on [campaignBreakdown]. *)
Definition breakdown_row (name : string) (device : t)
    : CampaignDeviceBreakdown.t :=
  CampaignDeviceBreakdown.mk name (DevicePerformance.device device)
    (impressions device) (clicks device) (conversions device)
    (spend device) (revenue device) (ctr device) (conversion_rate device)
    (guarded_ratio (revenue device) (spend device)).

(** Loop state: [mobileAgg], [desktopAgg], [campaignBreakdown]. *)
Record acc : Type := mk_acc {
  mobileAgg : t;
  desktopAgg : t;
  campaignBreakdown : list CampaignDeviceBreakdown.t
}.

(** The body of [campaign.device_performance.forEach]. *)
Definition step (name : string) (s : acc) (device : t) : acc :=
  let s :=
    if String.eqb (DevicePerformance.device device) "Mobile" then
      mk_acc (accumulate (mobileAgg s) device) (desktopAgg s)
             (campaignBreakdown s)
    else if String.eqb (DevicePerformance.device device) "Desktop" then
      mk_acc (mobileAgg s) (accumulate (desktopAgg s) device)
             (campaignBreakdown s)
    else s in
  mk_acc (mobileAgg s) (desktopAgg s)
         (campaignBreakdown s ++ [breakdown_row name device]).

Definition campaign_step {D W G : Type}
    (s : acc) (campaign : Campaign.t D t W G) : acc :=
  match Campaign.device_performance campaign with
  | None => s
  | Some devices => foldl (step (Campaign.name campaign)) s devices
  end.

Definition accumulated {D W G : Type} (md : MarketingData.t D t W G) : acc :=
  foldl campaign_step (mk_acc (zero "Mobile") (zero "Desktop") [])
        (MarketingData.campaigns md).

(** The statements after the loop: derived metrics, then the traffic
    percentages. *)
Definition finish (s : acc) : AggregatedDeviceData.t :=
  let mobileAgg := mobileAgg s in
  let desktopAgg := desktopAgg s in
  let mobileAgg := set_ctr (guarded_percent (clicks mobileAgg) (impressions mobileAgg)) mobileAgg in
  let mobileAgg := set_conversion_rate (guarded_percent (conversions mobileAgg) (clicks mobileAgg)) mobileAgg in
  let desktopAgg := set_ctr (guarded_percent (clicks desktopAgg) (impressions desktopAgg)) desktopAgg in
  let desktopAgg := set_conversion_rate (guarded_percent (conversions desktopAgg) (clicks desktopAgg)) desktopAgg in
  let totalImpressions := impressions mobileAgg + impressions desktopAgg in
  let mobileAgg := set_percentage_of_traffic (guarded_percent (impressions mobileAgg) totalImpressions) mobileAgg in
  let desktopAgg := set_percentage_of_traffic (guarded_percent (impressions desktopAgg) totalImpressions) desktopAgg in
  AggregatedDeviceData.mk mobileAgg desktopAgg (campaignBreakdown s).

Definition deviceData {D W G : Type}
    (marketingData : option (MarketingData.t D t W G))
    : AggregatedDeviceData.t :=
  match marketingData with
  | None => AggregatedDeviceData.mk (zero "Mobile") (zero "Desktop") []
  | Some md => finish (accumulated md)
  end.

(** What the statements about the rollup are phrased with. *)

(** All device records of the snapshot, in the order the two nested
    loops visit them. *)
Definition records {D W G : Type} (md : MarketingData.t D t W G) : list t :=
  flat_map (fun c => default [] (Campaign.device_performance c))
           (MarketingData.campaigns md).

(** The records of one device. *)
Definition of_device (name : string) (recs : list t) : list t :=
  filter (fun d => device d = name) recs.

(** The raw fields of [agg] are the sums over the records [rs]. *)
Definition sums_of (rs : list t) (agg : t) : Prop :=
  impressions agg = total impressions rs /\
  clicks agg = total clicks rs /\
  conversions agg = total conversions rs /\
  spend agg = total spend rs /\
  revenue agg = total revenue rs.

(** A record whose impressions and clicks are not negative. *)
Definition nonneg (d : t) : Prop := 0 ≤ impressions d /\ 0 ≤ clicks d.

(** The bucket [agg] holds the sums over [rs], and its two rates are
    the given percentages of those sums. *)
Definition rates_from_sums (percent : Qc -> Qc -> Qc) (rs : list t) (agg : t)
    : Prop :=
  sums_of rs agg /\
  ctr agg = percent (total clicks rs) (total impressions rs) /\
  conversion_rate agg = percent (total conversions rs) (total clicks rs).

(** The arithmetic mean of the [ctr] values the records carry. *)
Definition mean_ctr (rs : list t) : Qc :=
  total ctr rs / num (Z.of_nat (length rs)).
End DeviceView.

(** ** DemographicView: the gender and age-group rollup *)
Module CampaignAgePerformance.
Record t : Type := mk {
  campaign : string;
  age_group : string;
  impressions : Qc;
  clicks : Qc;
  conversions : Qc;
  ctr : Qc;
  conversion_rate : Qc
}.
End CampaignAgePerformance.

(** ** Plain objects used as dictionaries of numbers

    [const ageGroupSpend: { [key: string]: number } = {}] is an ordinary
    object.  Reading a key that is not an own property goes on to
    [Object.prototype], which has the properties named below: their
    values are functions (for [__proto__] the prototype itself), not
    [undefined].  Adding a number to such a value, or to a string,
    concatenates text. *)
Module JsObject.
Inductive value : Type :=
| Num (q : Qc)
  (** a number *)
| NaN
  (** [undefined + number] *)
| Text (k : string) (appended : list Qc).
  (** the text of the inherited property [k] followed by the digits of
      the numbers appended to it, one after the other *)

(** The own properties. *)
Definition t : Type := gmap string value.

(** The property names of [Object.prototype]. *)
Definition prototype_names : list string :=
  [ "constructor"; "__defineGetter__"; "__defineSetter__"; "hasOwnProperty";
    "__lookupGetter__"; "__lookupSetter__"; "isPrototypeOf";
    "propertyIsEnumerable"; "toString"; "valueOf"; "__proto__";
    "toLocaleString" ]%string.

Definition inherited (k : string) : bool :=
  existsb (String.eqb k) prototype_names.

(** What [o[k]] evaluates to. *)
Inductive found : Type :=
| Own (v : value)
| Proto (k : string)
| Undefined.

Definition read (own : option value) (k : string) : found :=
  match own with
  | Some v => Own v
  | None => if inherited k then Proto k else Undefined
  end.

Definition get (o : t) (k : string) : found := read (o !! k) k.

(** Truthiness: 0, NaN and [undefined] are falsy; functions, objects and
    the strings that arise here, none of them empty, are truthy. *)
Definition truthy (f : found) : bool :=
  match f with
  | Own (Num q) => negb (bool_decide (q = 0))
  | Own NaN => false
  | Own (Text _ _) => true
  | Proto _ => true
  | Undefined => false
  end.

(** [!o[k]] *)
Definition falsy (o : t) (k : string) : bool := negb (truthy (get o k)).

(** [o[k] = v] for a number or a string [v]: an own property is written,
    except under the name [__proto__], whose setter ignores a value that
    is neither an object nor [null]. *)
Definition set (o : t) (k : string) (v : value) : t :=
  if String.eqb k "__proto__" then o else <[k := v]> o.

(** [x + v] for a number [v]. *)
Definition plus (x : found) (v : Qc) : value :=
  match x with
  | Own (Num q) => Num (q + v)
  | Own NaN => NaN
  | Own (Text k l) => Text k (l ++ [v])
  | Proto k => Text k [v]
  | Undefined => NaN
  end.

(** [o[k] += v] *)
Definition add (o : t) (k : string) (v : Qc) : t :=
  set o k (plus (get o k) v).

(** The number an entry holds, 0 when it holds none. *)
Definition number (own : option value) : Qc :=
  match own with
  | Some (Num q) => q
  | _ => 0
  end.
End JsObject.

Module AggregatedDemographicData.
Record t : Type := mk {
  maleClicks : Qc;
  maleSpend : Qc;
  maleRevenue : Qc;
  femaleClicks : Qc;
  femaleSpend : Qc;
  femaleRevenue : Qc;
  ageGroupSpend : JsObject.t;
  ageGroupRevenue : JsObject.t;
  maleAgeGroupPerformance : list CampaignAgePerformance.t;
  femaleAgeGroupPerformance : list CampaignAgePerformance.t
}.
End AggregatedDemographicData.

Module DemographicView.
Import DemographicBreakdown AggregatedDemographicData.

(** The empty aggregate, also the initial value of the loop
    variables. *)
Definition initial : AggregatedDemographicData.t :=
  AggregatedDemographicData.mk 0 0 0 0 0 0 ∅ ∅ [] [].

(** [demo.percentage_of_audience / 100] *)
Definition percentageMultiplier (demo : DemographicBreakdown.t) : Qc :=
  percentage_of_audience demo / num 100.

(** [campaign.spend * percentageMultiplier] *)
Definition demoSpend {D V W G : Type}
    (campaign : Campaign.t D V W G) (demo : DemographicBreakdown.t) : Qc :=
  Campaign.spend campaign * percentageMultiplier demo.

(** [campaign.revenue * percentageMultiplier] *)
Definition demoRevenue {D V W G : Type}
    (campaign : Campaign.t D V W G) (demo : DemographicBreakdown.t) : Qc :=
  Campaign.revenue campaign * percentageMultiplier demo.

(** The row pushed on the male or female performance sequence. *)
Definition performance_row (name : string) (demo : DemographicBreakdown.t)
    : CampaignAgePerformance.t :=
  CampaignAgePerformance.mk name (age_group demo)
    (impressions (performance demo)) (clicks (performance demo))
    (conversions (performance demo)) (ctr (performance demo))
    (conversion_rate (performance demo)).

(** "Aggregate by gender": the [if / else if] of the loop body, with
    the values of the local constants [demoSpend] and [demoRevenue]. *)
Definition gender_step (name : string) (demoSpend demoRevenue : Qc)
    (s : AggregatedDemographicData.t) (demo : DemographicBreakdown.t)
    : AggregatedDemographicData.t :=
  let demoClicks := clicks (performance demo) in
  if String.eqb (gender demo) "Male" then
    AggregatedDemographicData.mk
      (maleClicks s + demoClicks) (maleSpend s + demoSpend)
      (maleRevenue s + demoRevenue)
      (femaleClicks s) (femaleSpend s) (femaleRevenue s)
      (ageGroupSpend s) (ageGroupRevenue s)
      (maleAgeGroupPerformance s ++ [performance_row name demo])
      (femaleAgeGroupPerformance s)
  else if String.eqb (gender demo) "Female" then
    AggregatedDemographicData.mk
      (maleClicks s) (maleSpend s) (maleRevenue s)
      (femaleClicks s + demoClicks) (femaleSpend s + demoSpend)
      (femaleRevenue s + demoRevenue)
      (ageGroupSpend s) (ageGroupRevenue s)
      (maleAgeGroupPerformance s)
      (femaleAgeGroupPerformance s ++ [performance_row name demo])
  else s.

(** "Aggregate by age group": the rest of the loop body. *)
Definition age_group_step (demoSpend demoRevenue : Qc)
    (s : AggregatedDemographicData.t) (demo : DemographicBreakdown.t)
    : AggregatedDemographicData.t :=
  let key := age_group demo in
  let '(spendMap, revenueMap) :=
    if JsObject.falsy (ageGroupSpend s) key
    then (JsObject.set (ageGroupSpend s) key (JsObject.Num 0),
          JsObject.set (ageGroupRevenue s) key (JsObject.Num 0))
    else (ageGroupSpend s, ageGroupRevenue s) in
  AggregatedDemographicData.mk
    (maleClicks s) (maleSpend s) (maleRevenue s)
    (femaleClicks s) (femaleSpend s) (femaleRevenue s)
    (JsObject.add spendMap key demoSpend)
    (JsObject.add revenueMap key demoRevenue)
    (maleAgeGroupPerformance s) (femaleAgeGroupPerformance s).

(** The body of [campaign.demographic_breakdown.forEach]. *)
Definition step {D V W G : Type} (campaign : Campaign.t D V W G)
    (s : AggregatedDemographicData.t) (demo : DemographicBreakdown.t)
    : AggregatedDemographicData.t :=
  let demoSpend := demoSpend campaign demo in
  let demoRevenue := demoRevenue campaign demo in
  age_group_step demoSpend demoRevenue
    (gender_step (Campaign.name campaign) demoSpend demoRevenue s demo) demo.

Definition campaign_step {V W G : Type}
    (s : AggregatedDemographicData.t)
    (campaign : Campaign.t DemographicBreakdown.t V W G)
    : AggregatedDemographicData.t :=
  match Campaign.demographic_breakdown campaign with
  | None => s
  | Some demos => foldl (step campaign) s demos
  end.

Definition demographicData {V W G : Type}
    (marketingData : option (MarketingData.t DemographicBreakdown.t V W G))
    : AggregatedDemographicData.t :=
  match marketingData with
  | None => initial
  | Some md => foldl campaign_step initial (MarketingData.campaigns md)
  end.

(** What the statements about the rollup are phrased with. *)

(** Every slice of the snapshot with its campaign, in the order the two
    nested loops visit them. *)
Definition slices {V W G : Type}
    (md : MarketingData.t DemographicBreakdown.t V W G)
    : list (Campaign.t DemographicBreakdown.t V W G * DemographicBreakdown.t) :=
  flat_map (fun c => map (pair c) (default [] (Campaign.demographic_breakdown c)))
           (MarketingData.campaigns md).

(** The slices of one gender. *)
Definition of_gender {C : Type} (g : string)
    (sl : list (C * DemographicBreakdown.t))
    : list (C * DemographicBreakdown.t) :=
  filter (fun p => gender (snd p) = g) sl.

End DemographicView.

(** ** LineChart: the shared value domain and the coordinate maps *)
Module LineChart.
Record LineChartDataPoint : Type := mk_point {
  label : string;
  value : Qc
}.

Record LineChartSeries : Type := mk_series {
  name : string;
  data : list LineChartDataPoint;
  color : string
}.

(** [Math.max(a, b)] and [Math.min(a, b)] *)
Definition max2 (a b : Qc) : Qc := if bool_decide (a < b) then b else a.
Definition min2 (a b : Qc) : Qc := if bool_decide (b < a) then b else a.

(** [Math.max(...values)] and [Math.min(...values)] on a sequence with
    at least one element (on the empty one the source gets an
    infinity; the "No data" return comes first). *)
Definition maximum (v : Qc) (vs : list Qc) : Qc := foldl max2 v vs.
Definition minimum (v : Qc) (vs : list Qc) : Qc := foldl min2 v vs.

(** [series.flatMap((s) => s.data.map((d) => d.value))] *)
Definition allValues (series : list LineChartSeries) : list Qc :=
  flat_map (fun s => map value (data s)) series.

(** The constants computed before rendering. *)
Record frame : Type := mk_frame {
  maxValue : Qc;
  minValue : Qc;
  valueRange : Qc;
  padding : Qc;
  chartMin : Qc;
  chartMax : Qc;
  chartRange : Qc;
  labels : list string;
  chartHeight : Qc;
  chartWidth : Qc
}.

(** [series.length === 0 || series.every((s) => s.data.length === 0)] *)
Definition no_data (series : list LineChartSeries) : bool :=
  match series with
  | [] => true
  | _ => forallb (fun s => Nat.eqb (length (data s)) 0) series
  end.

(** The body of the component up to the coordinate maps; [None] is
    the "No data available" placeholder. *)
Definition layout (series : list LineChartSeries) (height : Qc)
    : option frame :=
  if no_data series then None
  else
    match allValues series with
    | [] => None
    | v :: vs =>
        let maxValue := maximum v vs in
        let minValue := minimum v vs in
        let valueRange := maxValue - minValue in
        let padding := valueRange * (num 1 / num 10) in
        let chartMin := max2 0 (minValue - padding) in
        let chartMax := maxValue + padding in
        let chartRange := chartMax - chartMin in
        let labels :=
          match series with
          | s :: _ => map label (data s)
          | [] => []
          end in
        let chartHeight := height - num 80 in
        let chartWidth := num 100 in
        Some (mk_frame maxValue minValue valueRange padding chartMin
                       chartMax chartRange labels chartHeight chartWidth)
    end.

Definition getYPosition (f : frame) (value : Qc) : Qc :=
  if decide (chartRange f = 0) then chartHeight f / num 2
  else chartHeight f - ((value - chartMin f) / chartRange f) * chartHeight f.

Definition getXPosition (f : frame) (index : nat) : Qc :=
  if bool_decide (length (labels f) <= 1)%nat then num 50
  else (num (Z.of_nat index) / num (Z.of_nat (length (labels f) - 1)))
       * chartWidth f.
End LineChart.

(** ** BubbleMap: placement and bubble sizes *)
Module BubbleMap.
Local Open Scope R_scope.

Record BubbleMapDataPoint : Type := mk_point {
  region : string;
  country : string;
  value : R;
  secondaryValue : option R
}.

(** A point with its coordinates, size and opacity. *)
Record bubble : Type := mk_bubble {
  point : BubbleMapDataPoint;
  x : R;
  y : R;
  size : R;
  opacity : R
}.

Definition UAE_COORDINATES : list (string * (R * R)) :=
  [ ("Dubai", (62, 58)); ("Abu Dhabi", (45, 65)); ("Sharjah", (65, 56));
    ("Ajman", (67, 54)); ("Ras Al Khaimah", (70, 42));
    ("Fujairah", (75, 52)); ("Umm Al Quwain", (68, 50));
    ("Al Ain", (52, 68)) ]%string.

(** [UAE_COORDINATES[d.region] || UAE_COORDINATES["Dubai"]] *)
Definition coords (region : string) : R * R :=
  match JsMap.get UAE_COORDINATES region with
  | Some c => c
  | None => (62, 58)
  end.

(** [Math.max(...values)] and [Math.min(...values)] on a non-empty
    sequence. *)
Definition maximum (v : R) (vs : list R) : R := foldl Rmax v vs.
Definition minimum (v : R) (vs : list R) : R := foldl Rmin v vs.

Definition normalizedValue (minValue maxValue v : R) : R :=
  if Req_dec_T maxValue minValue then 1 / 2
  else sqrt ((v - minValue) / (maxValue - minValue)).

(** The callback of [data.map]. *)
Definition enrich (minValue maxValue : R) (d : BubbleMapDataPoint)
    : bubble :=
  let c := coords (region d) in
  let n := normalizedValue minValue maxValue (value d) in
  mk_bubble d (fst c) (snd c) (8 + n * 24) (7 / 10 + n * (3 / 10)).

(** [(a, b) => b.size - a.size] is positive. *)
Definition by_size_desc (a b : bubble) : bool :=
  if Rlt_dec 0 (size b - size a) then true else false.

Definition enrichedData (data : list BubbleMapDataPoint) : list bubble :=
  match map value data with
  | [] => []
  | v :: vs =>
      let maxValue := maximum v vs in
      let minValue := minimum v vs in
      array_sort by_size_desc (map (enrich minValue maxValue) data)
  end.
End BubbleMap.

(** ** The object store

    Records are objects: a breakdown array holds references, a [Map]
    holds references, [{ ...record }] and an object literal allocate a
    fresh object, and [o.f = v] writes through a reference.  A program
    is a function from the store to a result and a new store; it has no
    result when it reads through a dangling reference ([undefined]) or
    divides by 0, whose quotient (an infinity or NaN) is no number of
    this model. *)
Module Store.
Definition loc := nat.

Section Monad.
Context {T : Type}.

Definition M (A : Type) : Type := list T -> option (A * list T).

Definition ret {A : Type} (a : A) : M A := fun h => Some (a, h).

Definition bind {A B : Type} (m : M A) (k : A -> M B) : M B :=
  fun h => match m h with Some (a, h') => k a h' | None => None end.

Definition fail {A : Type} : M A := fun _ => None.

(** An object literal or a spread copy: a fresh reference. *)
Definition alloc (v : T) : M loc := fun h => Some (length h, h ++ [v]).

(** Reading an object through a reference. *)
Definition load (l : loc) : M T :=
  fun h => match h !! l with Some v => Some (v, h) | None => None end.

(** Writing an object through a reference. *)
Definition store (l : loc) (v : T) : M unit :=
  fun h => match h !! l with Some _ => Some (tt, <[l := v]> h) | None => None end.

(** [n / d] *)
Definition divide (n d : Qc) : M Qc :=
  fun h => if decide (d = 0) then None else Some (n / d, h).

(** A [forEach] whose body updates local variables [S]. *)
Fixpoint foldM {A S : Type} (f : S -> A -> M S) (s : S) (l : list A) : M S :=
  match l with
  | [] => ret s
  | x :: l' => bind (f s x) (fun s' => foldM f s' l')
  end.

(** [d > 0 ? n / d : 0] *)
Definition guarded_ratio (n d : Qc) : M Qc :=
  if positive d then divide n d else ret 0.

(** [d > 0 ? (n / d) * 100 : 0] *)
Definition guarded_percent (n d : Qc) : M Qc :=
  if positive d then bind (divide n d) (fun q => ret (q * num 100)) else ret 0.

(** [target.f += source.f] *)
Definition add_assign (get : T -> Qc) (set : Qc -> T -> T)
    (target source : loc) : M unit :=
  bind (load target) (fun t =>
  bind (load source) (fun s =>
  store target (set (get t + get s) t))).

(** [target.f = rhs], where [rhs] reads fields of [target]. *)
Definition assign (set : Qc -> T -> T) (target : loc) (rhs : T -> M Qc)
    : M unit :=
  bind (load target) (fun t =>
  bind (rhs t) (fun v =>
  store target (set v t))).

(** [Array.from(refs).sort(comparator)]: the comparator reads the
    objects behind the references. *)
Definition sort_refs (after : T -> T -> bool) (refs : list loc)
    : M (list loc) :=
  bind (foldM (fun acc l => bind (load l) (fun o => ret (acc ++ [(l, o)])))
              [] refs)
       (fun objs =>
          ret (map fst (array_sort (fun a b => after (snd a) (snd b)) objs))).

(** The loop body of the weekly and the regional rollup, on
    references: [merge] is the [else] branch. *)
Definition group_step (key : T -> string) (merge : loc -> loc -> M unit)
    (m : JsMap.t loc) (record : loc) : M (JsMap.t loc) :=
  bind (load record) (fun r =>
  if negb (JsMap.has m (key r)) then
    bind (load record) (fun r' =>
    bind (alloc r') (fun copy =>
    ret (JsMap.set m (key r) copy)))
  else
    match JsMap.get m (key r) with
    | Some existing => bind (merge existing record) (fun _ => ret m)
    | None => fail
    end).

(** The references [ls] point to the values [vs], one by one. *)
Definition points_to (h : list T) (ls : list loc) (vs : list T) : Prop :=
  Forall2 (fun l v => h !! l = Some v) ls vs.

(** The same for a breakdown array that may be absent. *)
Definition breakdown_points_to (h : list T)
    (ls : option (list loc)) (vs : option (list T)) : Prop :=
  match ls, vs with
  | None, None => True
  | Some ls, Some vs => points_to h ls vs
  | _, _ => False
  end.

(** Every object of [h] is still in [h'], unchanged. *)
Definition unchanged (h h' : list T) : Prop :=
  forall l o, h !! l = Some o -> h' !! l = Some o.
End Monad.

Arguments M : clear implicits.
End Store.

Declare Scope store_scope.
Delimit Scope store_scope with store.
Notation "x <- m ;; k" := (Store.bind m (fun x => k))
  (at level 100, m at level 99, right associativity) : store_scope.
Notation "m ;; k" := (Store.bind m (fun _ => k))
  (at level 100, right associativity) : store_scope.

(** ** RegionView on the store *)
Module RegionStore.
Import RegionalPerformance Store.
Local Open Scope store_scope.

Definition merge (existing region : loc) : M t unit :=
  add_assign impressions set_impressions existing region ;;
  add_assign clicks set_clicks existing region ;;
  add_assign conversions set_conversions existing region ;;
  add_assign spend set_spend existing region ;;
  add_assign revenue set_revenue existing region ;;
  assign set_ctr existing
    (fun e => guarded_percent (clicks e) (impressions e)) ;;
  assign set_conversion_rate existing
    (fun e => guarded_percent (conversions e) (clicks e)) ;;
  assign set_cpc existing (fun e => guarded_ratio (spend e) (clicks e)) ;;
  assign set_cpa existing (fun e => guarded_ratio (spend e) (conversions e)) ;;
  assign set_roas existing (fun e => guarded_ratio (revenue e) (spend e)).

Definition step : JsMap.t loc -> loc -> M t (JsMap.t loc) :=
  group_step region merge.

Definition campaign_step {D V W : Type}
    (regionMap : JsMap.t loc) (campaign : Campaign.t D V W loc)
    : M t (JsMap.t loc) :=
  match Campaign.regional_performance campaign with
  | None => ret regionMap
  | Some regions => foldM step regionMap regions
  end.

Definition regionalData {D V W : Type}
    (marketingData : option (MarketingData.t D V W loc)) : M t (list loc) :=
  match marketingData with
  | None => ret []
  | Some md =>
      regionMap <- foldM campaign_step JsMap.empty (MarketingData.campaigns md) ;;
      sort_refs RegionView.by_revenue_desc (JsMap.values regionMap)
  end.

(** The snapshot [mdr] of references stands for the snapshot [md] of
    values in the store [h]. *)
Definition represents {D V W : Type} (h : list t)
    (mdr : MarketingData.t D V W loc) (md : MarketingData.t D V W t) : Prop :=
  Forall2 (fun cr c =>
             breakdown_points_to h (Campaign.regional_performance cr)
                                   (Campaign.regional_performance c))
          (MarketingData.campaigns mdr) (MarketingData.campaigns md).
End RegionStore.

(** ** WeeklyView on the store *)
Module WeeklyStore.
Import WeeklyPerformance Store.
Local Open Scope store_scope.

Definition merge (existing week : loc) : M t unit :=
  add_assign impressions set_impressions existing week ;;
  add_assign clicks set_clicks existing week ;;
  add_assign conversions set_conversions existing week ;;
  add_assign spend set_spend existing week ;;
  add_assign revenue set_revenue existing week.

Definition step : JsMap.t loc -> loc -> M t (JsMap.t loc) :=
  group_step week_start merge.

Definition campaign_step {D V G : Type}
    (weekMap : JsMap.t loc) (campaign : Campaign.t D V loc G)
    : M t (JsMap.t loc) :=
  match Campaign.weekly_performance campaign with
  | None => ret weekMap
  | Some weeks => foldM step weekMap weeks
  end.

Definition weeklyData {D V G : Type} (getTime : string -> option Z)
    (marketingData : option (MarketingData.t D V loc G)) : M t (list loc) :=
  match marketingData with
  | None => ret []
  | Some md =>
      weekMap <- foldM campaign_step JsMap.empty (MarketingData.campaigns md) ;;
      sort_refs (WeeklyView.by_week_start getTime) (JsMap.values weekMap)
  end.

Definition represents {D V G : Type} (h : list t)
    (mdr : MarketingData.t D V loc G) (md : MarketingData.t D V t G) : Prop :=
  Forall2 (fun cr c =>
             breakdown_points_to h (Campaign.weekly_performance cr)
                                   (Campaign.weekly_performance c))
          (MarketingData.campaigns mdr) (MarketingData.campaigns md).
End WeeklyStore.

(** ** DeviceView on the store *)
Module DeviceStore.
Import DevicePerformance Store.
Local Open Scope store_scope.

(** The five [agg.f += device.f] statements of a branch. *)
Definition accumulate (agg device : loc) : M t unit :=
  add_assign impressions set_impressions agg device ;;
  add_assign clicks set_clicks agg device ;;
  add_assign conversions set_conversions agg device ;;
  add_assign spend set_spend agg device ;;
  add_assign revenue set_revenue agg device.

(** The row pushed on [campaignBreakdown]. *)
Definition breakdown_row (name : string) (device : loc)
    : M t CampaignDeviceBreakdown.t :=
  d <- load device ;;
  roas <- guarded_ratio (revenue d) (spend d) ;;
  ret (CampaignDeviceBreakdown.mk name (DevicePerformance.device d)
         (impressions d) (clicks d) (conversions d) (spend d) (revenue d)
         (ctr d) (conversion_rate d) roas).

(** The body of [campaign.device_performance.forEach]; [mobileAgg] and
    [desktopAgg] are constants that hold references. *)
Definition step (mobileAgg desktopAgg : loc) (name : string)
    (campaignBreakdown : list CampaignDeviceBreakdown.t) (device : loc)
    : M t (list CampaignDeviceBreakdown.t) :=
  d <- load device ;;
  (if String.eqb (DevicePerformance.device d) "Mobile" then
     accumulate mobileAgg device
   else if String.eqb (DevicePerformance.device d) "Desktop" then
     accumulate desktopAgg device
   else ret tt) ;;
  row <- breakdown_row name device ;;
  ret (campaignBreakdown ++ [row]).

Definition campaign_step {D W G : Type} (mobileAgg desktopAgg : loc)
    (campaignBreakdown : list CampaignDeviceBreakdown.t)
    (campaign : Campaign.t D loc W G)
    : M t (list CampaignDeviceBreakdown.t) :=
  match Campaign.device_performance campaign with
  | None => ret campaignBreakdown
  | Some devices =>
      foldM (step mobileAgg desktopAgg (Campaign.name campaign))
            campaignBreakdown devices
  end.

(** The statements after the loop. *)
Definition finish (mobileAgg desktopAgg : loc) : M t unit :=
  assign set_ctr mobileAgg
    (fun a => guarded_percent (clicks a) (impressions a)) ;;
  assign set_conversion_rate mobileAgg
    (fun a => guarded_percent (conversions a) (clicks a)) ;;
  assign set_ctr desktopAgg
    (fun a => guarded_percent (clicks a) (impressions a)) ;;
  assign set_conversion_rate desktopAgg
    (fun a => guarded_percent (conversions a) (clicks a)) ;;
  m <- load mobileAgg ;;
  d <- load desktopAgg ;;
  let totalImpressions := impressions m + impressions d in
  assign set_percentage_of_traffic mobileAgg
    (fun a => guarded_percent (impressions a) totalImpressions) ;;
  assign set_percentage_of_traffic desktopAgg
    (fun a => guarded_percent (impressions a) totalImpressions).

(** The result: references to the two buckets, and the detail rows. *)
Definition deviceData {D W G : Type}
    (marketingData : option (MarketingData.t D loc W G))
    : M t (loc * loc * list CampaignDeviceBreakdown.t) :=
  match marketingData with
  | None =>
      mobileData <- alloc (DeviceView.zero "Mobile") ;;
      desktopData <- alloc (DeviceView.zero "Desktop") ;;
      ret (mobileData, desktopData, [])
  | Some md =>
      mobileAgg <- alloc (DeviceView.zero "Mobile") ;;
      desktopAgg <- alloc (DeviceView.zero "Desktop") ;;
      campaignBreakdown <-
        foldM (campaign_step mobileAgg desktopAgg) []
              (MarketingData.campaigns md) ;;
      finish mobileAgg desktopAgg ;;
      ret (mobileAgg, desktopAgg, campaignBreakdown)
  end.

Definition represents {D W G : Type} (h : list t)
    (mdr : MarketingData.t D loc W G) (md : MarketingData.t D t W G) : Prop :=
  Forall2 (fun cr c =>
             Campaign.name cr = Campaign.name c /\
             breakdown_points_to h (Campaign.device_performance cr)
                                   (Campaign.device_performance c))
          (MarketingData.campaigns mdr) (MarketingData.campaigns md).
End DeviceStore.

(** ** DemographicView on the store *)
Module DemographicStore.
Import DemographicBreakdown Store.
Local Open Scope store_scope.

(** The body of [campaign.demographic_breakdown.forEach].  The loop
    variables are numbers and fresh containers, so they are values; the
    slice is read through its reference. *)
Definition step {V W G : Type} (campaign : Campaign.t loc V W G)
    (s : AggregatedDemographicData.t) (demo : loc)
    : M DemographicBreakdown.t AggregatedDemographicData.t :=
  d <- load demo ;;
  percentageMultiplier <- divide (percentage_of_audience d) (num 100) ;;
  let demoSpend := Campaign.spend campaign * percentageMultiplier in
  let demoRevenue := Campaign.revenue campaign * percentageMultiplier in
  ret (DemographicView.age_group_step demoSpend demoRevenue
         (DemographicView.gender_step (Campaign.name campaign)
            demoSpend demoRevenue s d) d).

Definition campaign_step {V W G : Type}
    (s : AggregatedDemographicData.t) (campaign : Campaign.t loc V W G)
    : M DemographicBreakdown.t AggregatedDemographicData.t :=
  match Campaign.demographic_breakdown campaign with
  | None => ret s
  | Some demos => foldM (step campaign) s demos
  end.

Definition demographicData {V W G : Type}
    (marketingData : option (MarketingData.t loc V W G))
    : M DemographicBreakdown.t AggregatedDemographicData.t :=
  match marketingData with
  | None => ret DemographicView.initial
  | Some md =>
      foldM campaign_step DemographicView.initial (MarketingData.campaigns md)
  end.

Definition represents {V W G : Type} (h : list DemographicBreakdown.t)
    (mdr : MarketingData.t loc V W G)
    (md : MarketingData.t DemographicBreakdown.t V W G) : Prop :=
  Forall2 (fun cr c =>
             Campaign.name cr = Campaign.name c /\
             Campaign.spend cr = Campaign.spend c /\
             Campaign.revenue cr = Campaign.revenue c /\
             breakdown_points_to h (Campaign.demographic_breakdown cr)
                                   (Campaign.demographic_breakdown c))
          (MarketingData.campaigns mdr) (MarketingData.campaigns md).
End DemographicStore.

(** ** Loop invariants of the programs on the store *)

(** The [Map] of references stands for the [Map] of values: the same
    keys in the same order, and each reference points to the value. *)
Definition map_points_to {T : Type} (h : list T) (rm : JsMap.t Store.loc)
    (pm : JsMap.t T) : Prop :=
  Forall2 (fun a b => fst a = fst b /\ h !! snd a = Some (snd b)) rm pm.

(** The loop invariant: the objects of the initial store [h0] are
    unchanged, and the entries of the [Map] are distinct objects
    allocated after [h0]. *)
Definition group_inv {T : Type} (h0 h : list T) (rm : JsMap.t Store.loc)
    (pm : JsMap.t T) : Prop :=
  Store.unchanged h0 h /\
  map_points_to h rm pm /\
  Forall (fun l => (length h0 <= l)%nat) (JsMap.values rm) /\
  NoDup (JsMap.values rm).

(** The loop invariant: the two buckets are distinct objects allocated
    after the initial store [h0], and hold the accumulators of the loop
    on values. *)
Definition device_inv (h0 h : list DevicePerformance.t) (mobileAgg desktopAgg : Store.loc)
    (s : DeviceView.acc) : Prop :=
  Store.unchanged h0 h /\
  (length h0 <= mobileAgg)%nat /\ (length h0 <= desktopAgg)%nat /\
  mobileAgg <> desktopAgg /\
  h !! mobileAgg = Some (DeviceView.mobileAgg s) /\
  h !! desktopAgg = Some (DeviceView.desktopAgg s).

(** ** What the views derive from the rollups *)

(** [array.reduce((sum, x) => sum + f(x), 0)] *)
Definition reduce_sum {A : Type} (f : A -> Qc) (l : list A) : Qc :=
  foldl (fun sum x => sum + f x) 0 l.

(** The data point a bar chart is given. *)
Module BarChartDataPoint.
Record t : Type := mk {
  label : string;
  value : Qc;
  color : string
}.
End BarChartDataPoint.

(** [summaryMetrics] and the chart inputs of RegionView. *)
Module RegionSummary.
Import RegionalPerformance.

Record t : Type := mk {
  totalRegions : nat;
  totalRevenue : Qc;
  totalSpend : Qc;
  topRegion : string
}.

Definition summaryMetrics (regionalData : list RegionalPerformance.t) : t :=
  if Nat.eqb (length regionalData) 0 then mk 0 0 0 "N/A"
  else
    let totalRevenue := reduce_sum revenue regionalData in
    let totalSpend := reduce_sum spend regionalData in
    let topRegion :=
      match regionalData with
      | first :: _ => if String.eqb (region first) "" then "N/A" else region first
      | [] => "N/A"
      end in
    mk (length regionalData) totalRevenue totalSpend topRegion.

(** [(a, b) => b.f - a.f] is positive. *)
Definition by_field_desc (f : RegionalPerformance.t -> Qc)
    (a b : RegionalPerformance.t) : bool :=
  positive (f b - f a).

(** [regionalData.slice(0, 8).map(...)]: "Revenue by Region". *)
Definition revenueChart (regionalData : list RegionalPerformance.t)
    : list BarChartDataPoint.t :=
  map (fun r => BarChartDataPoint.mk (region r) (revenue r) "#10B981")
      (take 8 regionalData).

(** [regionalData.slice(0, 8).sort((a, b) => b.f - a.f).map(...)]: the
    charts "ROAS", "Conversions" and "CTR by Region". *)
Definition sortedChart (f : RegionalPerformance.t -> Qc) (color : string)
    (regionalData : list RegionalPerformance.t) : list BarChartDataPoint.t :=
  map (fun r => BarChartDataPoint.mk (region r) (f r) color)
      (array_sort (by_field_desc f) (take 8 regionalData)).

Definition roasChart := sortedChart roas "#8B5CF6".
Definition conversionsChart := sortedChart conversions "#3B82F6".
Definition ctrChart := sortedChart ctr "#F59E0B".
End RegionSummary.

(** [summaryMetrics] of WeeklyView. *)
Module WeeklySummary.
Import WeeklyPerformance.

Record t : Type := mk {
  totalRevenue : Qc;
  totalSpend : Qc;
  totalConversions : Qc;
  totalClicks : Qc;
  averageWeeklyRevenue : Qc;
  averageWeeklySpend : Qc
}.

Definition summaryMetrics (weeklyData : list WeeklyPerformance.t) : t :=
  if Nat.eqb (length weeklyData) 0 then mk 0 0 0 0 0 0
  else
    let totalRevenue := reduce_sum revenue weeklyData in
    let totalSpend := reduce_sum spend weeklyData in
    let totalConversions := reduce_sum conversions weeklyData in
    let totalClicks := reduce_sum clicks weeklyData in
    mk totalRevenue totalSpend totalConversions totalClicks
       (totalRevenue / num (Z.of_nat (length weeklyData)))
       (totalSpend / num (Z.of_nat (length weeklyData))).
End WeeklySummary.

(** [mobileROAS] and [desktopROAS] of DeviceView. *)
Module DeviceSummary.
Import DevicePerformance.

Definition mobileROAS (deviceData : AggregatedDeviceData.t) : Qc :=
  let mobileData := AggregatedDeviceData.mobileData deviceData in
  guarded_ratio (revenue mobileData) (spend mobileData).

Definition desktopROAS (deviceData : AggregatedDeviceData.t) : Qc :=
  let desktopData := AggregatedDeviceData.desktopData deviceData in
  guarded_ratio (revenue desktopData) (spend desktopData).

(** The device records with the name of their campaign, in the order
    the two nested loops visit them. *)
Definition named_records {D W G : Type}
    (md : MarketingData.t D DevicePerformance.t W G)
    : list (string * DevicePerformance.t) :=
  flat_map (fun c => map (pair (Campaign.name c))
                         (default [] (Campaign.device_performance c)))
           (MarketingData.campaigns md).
End DeviceSummary.

(** The table below the bubble map:
    [enrichedData.sort((a, b) => b.value - a.value)].  The sort is in
    place, so the array the bubbles are drawn from is in this order from
    then on. *)
Module BubbleMapTable.
Import BubbleMap.
Local Open Scope R_scope.

Definition by_value_desc (a b : bubble) : bool :=
  if Rlt_dec 0 (value (point b) - value (point a)) then true else false.

Definition tableRows (enrichedData : list bubble) : list bubble :=
  array_sort by_value_desc enrichedData.
End BubbleMapTable.

(** The slices of one age group. *)
Module DemographicSummary.
Definition of_age_group {C : Type} (k : string)
    (sl : list (C * DemographicBreakdown.t))
    : list (C * DemographicBreakdown.t) :=
  filter (fun p => DemographicBreakdown.age_group (snd p) = k) sl.
End DemographicSummary.

(** The circles of a series of the line chart:
    [s.data.map((d, i) => ...)] with [cx = getXPosition(i)] and
    [cy = getYPosition(d.value)]. *)
Module LineChartPoints.
Import LineChart.

Definition centres (f : frame) (s : LineChartSeries) : list (Qc * Qc) :=
  imap (fun i d => (getXPosition f i, getYPosition f (value d))) (data s).
End LineChartPoints.

(** The four line charts of the weekly view, all of height 350.
    [formatDate] is [toLocaleDateString] of the runtime. *)
Module WeeklyCharts.
Import WeeklyPerformance.
Section Charts.
Variable formatDate : string -> string.

Definition weekSeries (name color : string) (field : WeeklyPerformance.t -> Qc)
    (weeklyData : list WeeklyPerformance.t) : LineChart.LineChartSeries :=
  LineChart.mk_series name
    (map (fun week => LineChart.mk_point (formatDate (week_start week))
                                         (field week)) weeklyData)
    color.

Definition revenueByWeek (weeklyData : list WeeklyPerformance.t)
    : list LineChart.LineChartSeries :=
  [weekSeries "Revenue" "#10B981" revenue weeklyData].

Definition spendByWeek (weeklyData : list WeeklyPerformance.t)
    : list LineChart.LineChartSeries :=
  [weekSeries "Spend" "#3B82F6" spend weeklyData].

Definition revenueVsSpend (weeklyData : list WeeklyPerformance.t)
    : list LineChart.LineChartSeries :=
  [weekSeries "Revenue" "#10B981" revenue weeklyData;
   weekSeries "Spend" "#EF4444" spend weeklyData].

Definition conversionsAndClicks (weeklyData : list WeeklyPerformance.t)
    : list LineChart.LineChartSeries :=
  [weekSeries "Conversions" "#8B5CF6" conversions weeklyData;
   weekSeries "Clicks" "#F59E0B" clicks weeklyData].

Definition charts (weeklyData : list WeeklyPerformance.t)
    : list (list LineChart.LineChartSeries) :=
  [revenueByWeek weeklyData; spendByWeek weeklyData;
   revenueVsSpend weeklyData; conversionsAndClicks weeklyData].
End Charts.

Definition height : Qc := num 350.
End WeeklyCharts.

(** ** Sample snapshots *)

(** Two campaigns that both report the region Dubai: (spend 100,
    revenue 200), then (spend 50, revenue 50). *)
Definition dubai_first : RegionalPerformance.t :=
  RegionalPerformance.mk "Dubai" "UAE" (num 1000) (num 100) (num 10)
    (num 100) (num 200) (num 10) (num 10) (num 1) (num 10) (num 2).

Definition dubai_second : RegionalPerformance.t :=
  RegionalPerformance.mk "Dubai" "UAE" (num 3000) (num 60) (num 3)
    (num 50) (num 50) (num 2) (num 5) (num 5 / num 6) (num 50 / num 3)
    (num 1).

Definition two_dubai_campaigns : Data :=
  MarketingData.mk
    [ Campaign.mk "Summer" (num 100) (num 200) None None None
        (Some [dubai_first]);
      Campaign.mk "Winter" (num 50) (num 50) None None None
        (Some [dubai_second]) ].

(** Two campaigns of unequal size on Mobile: 100 clicks on 1000
    impressions, and 1 click on 100 impressions. *)
Definition unequal_campaigns : Data :=
  MarketingData.mk
    [ Campaign.mk "Large" (num 500) (num 900) None
        (Some [DevicePerformance.mk "Mobile" (num 1000) (num 100) (num 10)
                 (num 500) (num 900) (num 10) (num 10) 0])
        None None;
      Campaign.mk "Small" (num 20) (num 10) None
        (Some [DevicePerformance.mk "Mobile" (num 100) (num 1) (num 1)
                 (num 20) (num 10) (num 1) (num 100) 0])
        None None ].

(** A campaign with three slices that cover its whole audience, one of
    them of a gender the rollup has no bucket for. *)
Definition slice (g a : string) (share : Z) (clicks : Z)
    : DemographicBreakdown.t :=
  DemographicBreakdown.mk g a (num share)
    (DemographicBreakdown.mk_perf (num 1000) (num clicks) (num 5)
       (num clicks / num 10) (num 1)).

Definition three_slices : list DemographicBreakdown.t :=
  [ slice "Male" "18-24" 50 40; slice "Female" "18-24" 30 30;
    slice "Other" "25-34" 20 10 ].

Definition sliced_campaign : CampaignData :=
  Campaign.mk "Launch" (num 1000) (num 3000) (Some three_slices)
    None None None.

(** A date parser for the examples: the decimal digits of the string
    read as one number, so that an ISO day ["2024-01-08"] becomes
    20240108 and the order of days is the order of numbers. *)
Definition digit_of (c : ascii) : option Z :=
  let n := Z.of_nat (nat_of_ascii c) in
  if ((48 <=? n) && (n <=? 57))%Z then Some (n - 48)%Z else None.

Fixpoint digits_value (acc : Z) (s : string) : Z :=
  match s with
  | EmptyString => acc
  | String c s' =>
      match digit_of c with
      | Some d => digits_value (10 * acc + d) s'
      | None => digits_value acc s'
      end
  end.

Definition iso_day_number (s : string) : Z := digits_value 0 s.

(** Digits and hyphens only, and not the empty string. *)
Fixpoint iso_day_chars (s : string) : bool :=
  match s with
  | EmptyString => true
  | String c s' =>
      (match digit_of c with
       | Some _ => true
       | None => Ascii.eqb c "-"
       end) && iso_day_chars s'
  end.

(** The parser of the examples: the number of an ISO day, and NaN for
    any other string, ["not a date"] say. *)
Definition iso_day (s : string) : option Z :=
  if iso_day_chars s && negb (String.eqb s "")
  then Some (iso_day_number s) else None.

(** Two campaigns that both report the week of 2024-01-01, with 10 and
    with 20 clicks; the second also reports the week before. *)
Definition week_one_a : WeeklyPerformance.t :=
  WeeklyPerformance.mk "2024-01-01" "2024-01-07" (num 500) (num 10) (num 1)
    (num 40) (num 90).

Definition week_one_b : WeeklyPerformance.t :=
  WeeklyPerformance.mk "2024-01-01" "2024-01-07" (num 700) (num 20) (num 2)
    (num 60) (num 80).

Definition week_zero : WeeklyPerformance.t :=
  WeeklyPerformance.mk "2023-12-25" "2023-12-31" (num 100) (num 5) (num 0)
    (num 10) (num 0).

Definition two_week_campaigns : Data :=
  MarketingData.mk
    [ Campaign.mk "Summer" (num 100) (num 200) None None
        (Some [week_one_a]) None;
      Campaign.mk "Winter" (num 50) (num 50) None None
        (Some [week_one_b; week_zero]) None ].

(** Three weeks in the order 2024-01-08, ["not a date"], 2024-01-01. *)
Definition week_of (week_start : string) : WeeklyPerformance.t :=
  WeeklyPerformance.mk week_start "" (num 100) (num 10) (num 1)
    (num 10) (num 20).

Definition unparsable_week_campaigns : Data :=
  MarketingData.mk
    [ Campaign.mk "Summer" (num 100) (num 200) None None
        (Some [week_of "2024-01-08"; week_of "not a date";
               week_of "2024-01-01"]) None ].

(** One series from 0 to 10, and one that stays at -5. *)
Definition zero_to_ten : list LineChart.LineChartSeries :=
  [ LineChart.mk_series "Revenue"
      [LineChart.mk_point "W1" 0; LineChart.mk_point "W2" (num 10)]
      "#10B981" ].

Definition flat_negative : list LineChart.LineChartSeries :=
  [ LineChart.mk_series "Margin"
      [LineChart.mk_point "W1" (num (-5)); LineChart.mk_point "W2" (num (-5))]
      "#EF4444" ].

(** The batch with the values 10, 40 and 90. *)
Definition ten_forty_ninety : list BubbleMap.BubbleMapDataPoint :=
  [ BubbleMap.mk_point "Dubai" "UAE" 10 None;
    BubbleMap.mk_point "Sharjah" "UAE" 40 None;
    BubbleMap.mk_point "Ajman" "UAE" 90 None ].

(** The sample snapshots as objects: the store holds the records and
    the breakdown arrays hold their references. *)
Definition dubai_store : list RegionalPerformance.t :=
  [dubai_first; dubai_second].

Definition two_dubai_refs
    : MarketingData.t DemographicBreakdown.t DevicePerformance.t
                      WeeklyPerformance.t Store.loc :=
  MarketingData.mk
    [ Campaign.mk "Summer" (num 100) (num 200) None None None (Some [0%nat]);
      Campaign.mk "Winter" (num 50) (num 50) None None None (Some [1%nat]) ].

Definition week_store : list WeeklyPerformance.t :=
  [week_one_a; week_one_b; week_zero].

Definition two_week_refs
    : MarketingData.t DemographicBreakdown.t DevicePerformance.t
                      Store.loc RegionalPerformance.t :=
  MarketingData.mk
    [ Campaign.mk "Summer" (num 100) (num 200) None None
        (Some [0%nat]) None;
      Campaign.mk "Winter" (num 50) (num 50) None None
        (Some [1%nat; 2%nat]) None ].

Definition device_store : list DevicePerformance.t :=
  [ DevicePerformance.mk "Mobile" (num 1000) (num 100) (num 10)
      (num 500) (num 900) (num 10) (num 10) 0;
    DevicePerformance.mk "Mobile" (num 100) (num 1) (num 1)
      (num 20) (num 10) (num 1) (num 100) 0 ].

Definition unequal_refs
    : MarketingData.t DemographicBreakdown.t Store.loc
                      WeeklyPerformance.t RegionalPerformance.t :=
  MarketingData.mk
    [ Campaign.mk "Large" (num 500) (num 900) None (Some [0%nat]) None None;
      Campaign.mk "Small" (num 20) (num 10) None (Some [1%nat]) None None ].

Definition sliced_refs
    : MarketingData.t Store.loc DevicePerformance.t
                      WeeklyPerformance.t RegionalPerformance.t :=
  MarketingData.mk
    [ Campaign.mk "Launch" (num 1000) (num 3000)
        (Some [0%nat; 1%nat; 2%nat]) None None None ].

(** A campaign without spend whose only slice is in the age group
    18-24, followed by the campaign with three slices. *)
Definition unpaid_campaign : CampaignData :=
  Campaign.mk "Organic" 0 (num 500) (Some [slice "Male" "18-24" 100 20])
    None None None.

Definition unpaid_then_sliced : Data :=
  MarketingData.mk [unpaid_campaign; sliced_campaign].


(** A campaign whose only slice lies in the age group 35-44. *)
Definition older_campaign : CampaignData :=
  Campaign.mk "Spring" (num 400) (num 900)
    (Some [slice "Female" "35-44" 100 25]) None None None.

(** * Properties *)

(** ** Numbers *)

(** Closed equalities between rationals: compare the canonical forms. *)
Ltac qc_eq := apply Qc_is_canon; vm_compute; reflexivity.

Lemma positive_true (x : Qc) : positive x = true <-> 0 < x.
Proof. unfold positive. apply bool_decide_eq_true. Qed.

Lemma positive_false (x : Qc) : positive x = false <-> x ≤ 0.
Proof.
  unfold positive. rewrite bool_decide_eq_false. symmetry. apply Qcle_ngt.
Qed.

Lemma positive_zero : positive 0 = false.
Proof. apply positive_false. apply Qcle_refl. Qed.

Lemma guarded_ratio_zero (n : Qc) : guarded_ratio n 0 = 0.
Proof. unfold guarded_ratio. now rewrite positive_zero. Qed.

Lemma guarded_percent_zero (n : Qc) : guarded_percent n 0 = 0.
Proof. unfold guarded_percent. now rewrite positive_zero. Qed.

(** On a denominator that is not negative the guard [d > 0] is the
    guard "d is not 0". *)
Lemma guarded_ratio_spec (n d : Qc) :
  0 ≤ d -> guarded_ratio n d = ratio_or_zero n d.
Proof.
  intros Hd. unfold guarded_ratio, ratio_or_zero.
  destruct (decide (d = 0)) as [->|Hne].
  - now rewrite positive_zero.
  - assert (Hp : positive d = true).
    { apply positive_true. apply Qcle_lt_or_eq in Hd as [H|H]; [exact H|].
      now destruct Hne. }
    now rewrite Hp.
Qed.

Lemma guarded_percent_spec (n d : Qc) :
  0 ≤ d -> guarded_percent n d = percent_or_zero n d.
Proof.
  intros Hd. unfold guarded_percent, percent_or_zero.
  destruct (decide (d = 0)) as [->|Hne].
  - now rewrite positive_zero.
  - assert (Hp : positive d = true).
    { apply positive_true. apply Qcle_lt_or_eq in Hd as [H|H]; [exact H|].
      now destruct Hne. }
    now rewrite Hp.
Qed.

Lemma total_nonneg {A : Type} (f : A -> Qc) (l : list A) :
  Forall (fun x => 0 ≤ f x) l -> 0 ≤ total f l.
Proof.
  induction 1 as [|x l Hx _ IH]; simpl.
  - apply Qcle_refl.
  - now apply Qcplus_nonneg_nonneg.
Qed.

(** ** [Map] *)
Section JsMapFacts.
Context {V : Type}.
Implicit Types (m : JsMap.t V) (k : string) (v : V).

Lemma has_get m k : JsMap.has m k = true <-> is_Some (JsMap.get m k).
Proof.
  induction m as [|[k' v'] m IH]; simpl.
  - split; [discriminate | intros [? ?]; discriminate].
  - destruct (String.eqb k' k); [|exact IH].
    split; eauto.
Qed.

Lemma has_false_get m k : JsMap.has m k = false <-> JsMap.get m k = None.
Proof.
  induction m as [|[k' v'] m IH]; simpl; [tauto|].
  destruct (String.eqb k' k); [|exact IH].
  split; discriminate.
Qed.

Lemma has_keys m k : JsMap.has m k = true <-> k ∈ JsMap.keys m.
Proof.
  induction m as [|[k' v'] m IH]; simpl.
  - split; [discriminate | intros H; inversion H].
  - rewrite elem_of_cons. destruct (String.eqb_spec k' k) as [->|Hne].
    + split; auto.
    + rewrite IH. split; [auto | intros [H|H]; congruence].
Qed.

(** [set] on an absent key appends the entry. *)
Lemma set_absent m k v :
  JsMap.has m k = false -> JsMap.set m k v = m ++ [(k, v)].
Proof.
  induction m as [|[k' v'] m IH]; simpl; [reflexivity|].
  destruct (String.eqb k' k); [discriminate|].
  intros H. now rewrite IH.
Qed.

(** [set] on a present key keeps the keys and their order. *)
Lemma set_present_keys m k v :
  JsMap.has m k = true -> JsMap.keys (JsMap.set m k v) = JsMap.keys m.
Proof.
  induction m as [|[k' v'] m IH]; simpl; [discriminate|].
  destruct (String.eqb k' k); simpl; [reflexivity|].
  intros H. f_equal. now apply IH.
Qed.

Lemma get_set_same m k v : JsMap.get (JsMap.set m k v) k = Some v.
Proof.
  induction m as [|[k' v'] m IH]; simpl.
  - now rewrite String.eqb_refl.
  - destruct (String.eqb k' k) eqn:E; simpl; rewrite E; auto.
Qed.

Lemma get_set_other m k k' v :
  k <> k' -> JsMap.get (JsMap.set m k v) k' = JsMap.get m k'.
Proof.
  intros Hne. induction m as [|[k0 v0] m IH]; simpl.
  - apply String.eqb_neq in Hne. now rewrite Hne.
  - destruct (String.eqb_spec k0 k) as [->|Hk]; simpl.
    + apply String.eqb_neq in Hne. now rewrite Hne.
    + now rewrite IH.
Qed.

(** With distinct keys, the entries are what [get] returns. *)
Lemma get_elem_of m k v :
  NoDup (JsMap.keys m) -> (k, v) ∈ m <-> JsMap.get m k = Some v.
Proof.
  induction m as [|[k' v'] m IH]; simpl; intros Hnd.
  - split; [intros H; inversion H | discriminate].
  - apply NoDup_cons in Hnd as [Hk' Hnd].
    rewrite elem_of_cons, (IH Hnd).
    destruct (String.eqb_spec k' k) as [->|Hne].
    + split.
      * intros [H|H]; [congruence|].
        exfalso. apply Hk'. apply has_keys, has_get. eauto.
      * intros [= ->]. now left.
    + split; [intros [H|H]; congruence | auto].
Qed.
End JsMapFacts.

(** ** [Array.prototype.sort] *)
Section ArraySortFacts.
Context {A : Type} (after : A -> A -> bool).

Lemma sort_insert_perm (x : A) (l : list A) :
  Permutation (sort_insert after x l) (x :: l).
Proof.
  induction l as [|y l IH]; simpl; [reflexivity|].
  destruct (after x y); [|reflexivity].
  rewrite IH. apply perm_swap.
Qed.

Lemma array_sort_perm (l : list A) : Permutation (array_sort after l) l.
Proof.
  induction l as [|x l IH]; simpl; [reflexivity|].
  rewrite sort_insert_perm. now rewrite IH.
Qed.

Lemma array_sort_elem_of (l : list A) (x : A) :
  x ∈ array_sort after l <-> x ∈ l.
Proof. now rewrite (array_sort_perm l). Qed.

(** Sorting commutes with a projection the comparator factors
    through. *)
Lemma array_sort_map {B : Type} (f : B -> A) (l : list B) :
  map f (array_sort (fun a b => after (f a) (f b)) l)
  = array_sort after (map f l).
Proof.
  induction l as [|x l IH]; simpl; [reflexivity|].
  rewrite <- IH. clear IH.
  induction (array_sort (fun a b => after (f a) (f b)) l) as [|y s IHs];
    simpl; [reflexivity|].
  destruct (after (f x) (f y)); simpl; [|reflexivity].
  now rewrite IHs.
Qed.
End ArraySortFacts.

(** A comparator that orders by an integer key, ascending. *)
Section SortByKey.
Context {A : Type} (key : A -> option Z).
Let after (a b : A) : bool :=
  match key a, key b with
  | Some ta, Some tb => (0 <? ta - tb)%Z
  | _, _ => false
  end.

(** [a] is not later than [b], both having a key. *)
Let ordered (a b : A) : Prop :=
  exists ta tb, key a = Some ta /\ key b = Some tb /\ (ta <= tb)%Z.

Lemma sort_insert_sorted (x : A) (l : list A) :
  is_Some (key x) -> Forall (fun a => is_Some (key a)) l ->
  StronglySorted ordered l ->
  StronglySorted ordered (sort_insert after x l).
Proof.
  intros [tx Hx] Hall Hs. induction Hs as [|y l Hs IH Hy]; simpl.
  - repeat constructor.
  - apply Forall_cons in Hall as [[ty Hty] Hall].
    unfold after at 1. rewrite Hx, Hty.
    destruct (Z.ltb_spec 0 (tx - ty)) as [Hlt|Hge].
    + constructor; [now apply IH|].
      rewrite (sort_insert_perm after x l). constructor; [|exact Hy].
      exists ty, tx. repeat split; try assumption. lia.
    + constructor; [now constructor|].
      constructor; [exists tx, ty; repeat split; try assumption; lia|].
      eapply Forall_impl; [exact Hy|]. simpl.
      intros z (ty' & tz & Hty' & Hz & Hle).
      exists tx, tz. repeat split; try assumption.
      rewrite Hty in Hty'. injection Hty' as <-. lia.
Qed.

Lemma array_sort_sorted (l : list A) :
  Forall (fun a => is_Some (key a)) l ->
  StronglySorted ordered (array_sort after l).
Proof.
  induction 1 as [|x l Hx Hl IH]; simpl; [constructor|].
  apply sort_insert_sorted; [exact Hx| |exact IH].
  apply Forall_forall. intros a Ha. apply array_sort_elem_of in Ha.
  rewrite Forall_forall in Hl. now apply Hl.
Qed.

(** Stability: the entries with one and the same key value keep their
    order. *)
Lemma sort_insert_stable (t : Z) (x : A) (l : list A) :
  List.filter (fun a => bool_decide (key a = Some t)) (sort_insert after x l)
  = List.filter (fun a => bool_decide (key a = Some t)) (x :: l).
Proof.
  induction l as [|y l IH]; [reflexivity|].
  cbn [sort_insert]. destruct (after x y) eqn:E; [|reflexivity].
  cbn [List.filter] in *. rewrite IH.
  destruct (bool_decide (key x = Some t)) eqn:Ex; [|reflexivity].
  apply bool_decide_eq_true in Ex.
  rewrite (bool_decide_eq_false_2 (key y = Some t)); [reflexivity|].
  intros Ey. unfold after in E. rewrite Ex, Ey in E.
  apply Z.ltb_lt in E. lia.
Qed.

Lemma array_sort_stable (t : Z) (l : list A) :
  List.filter (fun a => bool_decide (key a = Some t)) (array_sort after l)
  = List.filter (fun a => bool_decide (key a = Some t)) l.
Proof.
  induction l as [|x l IH]; [reflexivity|].
  change (array_sort after (x :: l)) with (sort_insert after x (array_sort after l)).
  rewrite sort_insert_stable. cbn [List.filter]. now rewrite IH.
Qed.
End SortByKey.

(** ** Grouping by a key *)
Section GroupByFacts.
Context {T : Type} (key : T -> string) (merge : T -> T -> T).
Hypothesis merge_key : forall e r, key (merge e r) = key e.

Local Abbreviation step := (group_step key merge).

Lemma group_step_get (m : JsMap.t T) (r : T) (k : string) :
  JsMap.get (step m r) k =
    if decide (key r = k)
    then match JsMap.get m k with
         | Some e => Some (merge e r)
         | None => Some r
         end
    else JsMap.get m k.
Proof.
  unfold group_step. destruct (JsMap.has m (key r)) eqn:Hhas; simpl.
  - apply has_get in Hhas as [e He]. rewrite He.
    destruct (decide (key r = k)) as [<-|Hne].
    + now rewrite get_set_same, He.
    + now rewrite get_set_other.
  - destruct (decide (key r = k)) as [<-|Hne].
    + rewrite get_set_same. apply has_false_get in Hhas. now rewrite Hhas.
    + now rewrite get_set_other.
Qed.

Lemma group_step_keys (m : JsMap.t T) (r : T) :
  JsMap.keys (step m r)
  = if JsMap.has m (key r) then JsMap.keys m else JsMap.keys m ++ [key r].
Proof.
  unfold group_step. destruct (JsMap.has m (key r)) eqn:Hhas; simpl.
  - pose proof Hhas as Hh. apply has_get in Hh as [e He]. rewrite He.
    now apply set_present_keys.
  - rewrite set_absent by exact Hhas. unfold JsMap.keys.
    now rewrite map_app.
Qed.

Lemma group_step_NoDup (m : JsMap.t T) (r : T) :
  NoDup (JsMap.keys m) -> NoDup (JsMap.keys (step m r)).
Proof.
  intros Hnd. rewrite group_step_keys.
  destruct (JsMap.has m (key r)) eqn:Hhas; [exact Hnd|].
  apply NoDup_app. split; [exact Hnd|]. split.
  - intros k Hk [->|Hin]%elem_of_cons; [|inversion Hin].
    apply has_keys in Hk. congruence.
  - apply NoDup_singleton.
Qed.

Lemma group_fold_NoDup (recs : list T) (m : JsMap.t T) :
  NoDup (JsMap.keys m) -> NoDup (JsMap.keys (foldl step m recs)).
Proof.
  revert m. induction recs as [|r recs IH]; intros m Hnd; simpl; [exact Hnd|].
  apply IH. now apply group_step_NoDup.
Qed.

(** The entry under a key is the first record of the key's group with
    the later ones merged into it, one after the other. *)
Lemma group_fold_get (recs : list T) (m : JsMap.t T) (k : string) :
  JsMap.get (foldl step m recs) k =
    match JsMap.get m k with
    | Some e => Some (foldl merge e (keyed key k recs))
    | None =>
        match keyed key k recs with
        | [] => None
        | r :: rs => Some (foldl merge r rs)
        end
    end.
Proof.
  revert m. induction recs as [|r recs IH]; intros m; simpl.
  - now destruct (JsMap.get m k).
  - rewrite IH, group_step_get. unfold keyed. rewrite filter_cons.
    destruct (decide (key r = k)) as [Heq|Hne]; [|reflexivity].
    now destruct (JsMap.get m k).
Qed.

Lemma group_fold_merge_key (rs : list T) (e : T) :
  key (foldl merge e rs) = key e.
Proof.
  revert e. induction rs as [|r rs IH]; intros e; simpl; [reflexivity|].
  now rewrite IH, merge_key.
Qed.

Lemma keyed_head (k : string) (recs : list T) (r : T) (rs : list T) :
  keyed key k recs = r :: rs -> r ∈ recs /\ key r = k.
Proof.
  intros Hg. assert (Hin : r ∈ keyed key k recs) by (rewrite Hg; left).
  unfold keyed in Hin. now apply list_elem_of_filter in Hin.
Qed.

Lemma keyed_elem_of (recs : list T) (r : T) :
  r ∈ recs -> exists r0 rs, keyed key (key r) recs = r0 :: rs.
Proof.
  intros Hin. destruct (keyed key (key r) recs) as [|r0 rs] eqn:Hg; [|eauto].
  assert (Hr : r ∈ keyed key (key r) recs).
  { apply list_elem_of_filter. tauto. }
  rewrite Hg in Hr. inversion Hr.
Qed.

(** The values of the map, characterised. *)
Lemma group_fold_values (recs : list T) (e : T) :
  e ∈ JsMap.values (foldl step JsMap.empty recs) <->
  exists r rs, keyed key (key e) recs = r :: rs /\ e = foldl merge r rs.
Proof.
  unfold JsMap.values. rewrite list_elem_of_fmap.
  assert (Hnd : NoDup (JsMap.keys (foldl step JsMap.empty recs))).
  { apply group_fold_NoDup. constructor. }
  assert (Hget : forall k, JsMap.get (foldl step JsMap.empty recs) k =
            match keyed key k recs with
            | [] => None | r :: rs => Some (foldl merge r rs) end).
  { intros k. rewrite group_fold_get. reflexivity. }
  split.
  - intros [[k e'] [-> Hin]]. simpl.
    apply (get_elem_of _ _ _ Hnd) in Hin. rewrite Hget in Hin.
    destruct (keyed key k recs) as [|r rs] eqn:Hg; [discriminate|].
    injection Hin as <-. apply keyed_head in Hg as Hk.
    rewrite group_fold_merge_key, (proj2 Hk). eauto.
  - intros (r & rs & Hg & ->).
    exists (key (foldl merge r rs), foldl merge r rs). split; [reflexivity|].
    apply (get_elem_of _ _ _ Hnd). rewrite Hget, Hg. reflexivity.
Qed.

(** Every entry is stored under its own key. *)
Lemma group_fold_entry_key (recs : list T) (m : JsMap.t T) :
  Forall (fun p => key (snd p) = fst p) m ->
  Forall (fun p => key (snd p) = fst p) (foldl step m recs).
Proof.
  revert m. induction recs as [|r recs IH]; intros m Hm; simpl; [exact Hm|].
  apply IH. unfold group_step.
  destruct (JsMap.has m (key r)) eqn:Hhas; simpl.
  - destruct (JsMap.get m (key r)) as [e|] eqn:He; [|exact Hm].
    clear Hhas. induction m as [|[k v] m IHm]; simpl in *.
    + discriminate.
    + apply Forall_cons in Hm as [Hkv Hm]. simpl in Hkv.
      destruct (String.eqb_spec k (key r)) as [Hk|Hk].
      * injection He as ->. constructor; [|exact Hm]. simpl.
        now rewrite merge_key.
      * constructor; [exact Hkv|]. now apply IHm.
  - rewrite set_absent by exact Hhas. apply Forall_app. split; [exact Hm|].
    repeat constructor.
Qed.

Lemma group_fold_values_keys (recs : list T) :
  map key (JsMap.values (foldl step JsMap.empty recs))
  = JsMap.keys (foldl step JsMap.empty recs).
Proof.
  pose proof (group_fold_entry_key recs JsMap.empty (List.Forall_nil _)) as H.
  unfold JsMap.values, JsMap.keys.
  induction H as [|[k v] m Hkv _ IH]; simpl; [reflexivity|].
  simpl in Hkv. now rewrite Hkv, IH.
Qed.

(** The keys are in the map in the order of their first occurrence. *)
Lemma group_fold_keys_order (recs : list T) (m : JsMap.t T) :
  JsMap.keys (foldl step m recs)
  = JsMap.keys m
    ++ filter (fun k => k ∉ JsMap.keys m) (first_seen (map key recs)).
Proof.
  revert m. induction recs as [|r recs IH]; intros m; simpl.
  - now rewrite app_nil_r.
  - rewrite IH, group_step_keys, filter_cons.
    destruct (JsMap.has m (key r)) eqn:Hhas.
    + apply has_keys in Hhas. rewrite decide_False by tauto.
      f_equal. rewrite list_filter_filter. apply list_filter_iff.
      intros k. split; [|tauto]. intros Hk. split; [exact Hk|].
      intros ->. contradiction.
    + assert (Hk : key r ∉ JsMap.keys m).
      { intros Hk. apply has_keys in Hk. congruence. }
      rewrite decide_True by exact Hk.
      rewrite <- app_assoc. simpl. do 2 f_equal.
      rewrite list_filter_filter. apply list_filter_iff.
      intros k. rewrite elem_of_app, list_elem_of_singleton. tauto.
Qed.

Lemma group_fold_first_seen (recs : list T) :
  JsMap.keys (foldl step JsMap.empty recs) = first_seen (map key recs).
Proof.
  rewrite group_fold_keys_order. simpl.
  induction (first_seen (map key recs)) as [|k l IH]; [reflexivity|].
  rewrite filter_cons, decide_True by (intros H; inversion H).
  now rewrite IH.
Qed.
End GroupByFacts.

(** ** RegionView *)
Section RegionFacts.
Import RegionalPerformance RegionView.

Lemma region_campaigns_flat {D V W : Type}
    (cs : list (Campaign.t D V W t)) (m : JsMap.t t) :
  foldl campaign_step m cs
  = foldl step m (flat_map (fun c => default [] (Campaign.regional_performance c)) cs).
Proof.
  revert m. induction cs as [|c cs IH]; intros m; simpl; [reflexivity|].
  rewrite foldl_app, IH. unfold campaign_step.
  now destruct (Campaign.regional_performance c).
Qed.

Lemma regionMap_records {D V W : Type} (md : MarketingData.t D V W t) :
  regionMap md = foldl step JsMap.empty (records md).
Proof. apply region_campaigns_flat. Qed.

Lemma region_step_eq : step = group_step region merge.
Proof. reflexivity. Qed.

Lemma region_merge_key (e r : t) : region (merge e r) = region e.
Proof. reflexivity. Qed.

(** Every merge leaves the rates recomputed from the running sums. *)
Lemma region_merge_recomputed (e r : t) :
  recomputed guarded_percent guarded_ratio (merge e r).
Proof. repeat split. Qed.

Lemma region_fold_merge_sums (rs : list t) (e : t) :
  region (foldl merge e rs) = region e /\
  country (foldl merge e rs) = country e /\
  sums_of (e :: rs) (foldl merge e rs).
Proof.
  revert e. induction rs as [|r rs IH]; intros e; simpl.
  - unfold sums_of, total; simpl. rewrite !Qcplus_0_r. tauto.
  - destruct (IH (merge e r)) as (Hr & Hc & Hi & Hcl & Hcv & Hs & Hv).
    unfold sums_of, total in *. simpl in *.
    rewrite Hr, Hc, Hi, Hcl, Hcv, Hs, Hv.
    repeat split; ring.
Qed.

Lemma region_fold_merge_recomputed (rs : list t) (e : t) :
  rs <> [] -> recomputed guarded_percent guarded_ratio (foldl merge e rs).
Proof.
  revert e. induction rs as [|r rs IH]; intros e Hne; [congruence|]. simpl.
  destruct rs as [|r' rs]; [apply region_merge_recomputed|].
  now apply IH.
Qed.

Lemma region_sums_nonneg (rs : list t) (e : t) :
  Forall nonneg rs -> sums_of rs e -> nonneg e.
Proof.
  intros Hall (Hi & Hc & Hv & Hs & _). unfold nonneg.
  rewrite Hi, Hc, Hv, Hs.
  repeat split; apply total_nonneg; eapply Forall_impl; try exact Hall;
    unfold nonneg; simpl; tauto.
Qed.

Lemma region_recomputed_spec (e : t) :
  nonneg e -> recomputed guarded_percent guarded_ratio e ->
  recomputed percent_or_zero ratio_or_zero e.
Proof.
  intros (Hi & Hc & Hv & Hs) (H1 & H2 & H3 & H4 & H5). unfold recomputed.
  rewrite <- !guarded_percent_spec, <- !guarded_ratio_spec by assumption.
  tauto.
Qed.

(** The entries of the rollup, characterised. *)
Lemma region_entry {D V W : Type} (md : MarketingData.t D V W t) (e : t) :
  e ∈ regionalData (Some md) <->
  exists r rs, keyed region (region e) (records md) = r :: rs /\
               e = foldl merge r rs.
Proof.
  simpl. rewrite array_sort_elem_of, regionMap_records, region_step_eq.
  apply group_fold_values, region_merge_key.
Qed.

Lemma region_keys {D V W : Type} (md : MarketingData.t D V W t) :
  map region (JsMap.values (regionMap md)) = JsMap.keys (regionMap md).
Proof.
  rewrite regionMap_records, region_step_eq.
  apply group_fold_values_keys, region_merge_key.
Qed.
End RegionFacts.

(** C1.  The regional rollup has exactly one entry per region key that
    occurs in a record; the raw fields of an entry are the sums over the
    records of its key; after every merge step, and so in every entry
    that more than one record went into, the five stored rates are the
    guarded ratios of the running sums, which on data whose denominators
    are not negative are the quotients, and 0 on a denominator 0; and
    merging (spend 100, revenue 200) with (spend 50, revenue 50) under
    one key gives roas 250/150, not the mean 3/2 of the two rates. *)
Theorem regional_rollup_recomputes_from_sums (md : Data) :
  let recs := RegionView.records md in
  let out := RegionView.regionalData (Some md) in
  NoDup (map RegionalPerformance.region out) /\
  (forall k, k ∈ map RegionalPerformance.region out <->
             exists r, r ∈ recs /\ RegionalPerformance.region r = k) /\
  (forall e, e ∈ out ->
     let rs := keyed RegionalPerformance.region (RegionalPerformance.region e) recs in
     RegionView.sums_of rs e /\
     ((1 < length rs)%nat ->
      RegionView.recomputed guarded_percent guarded_ratio e) /\
     ((1 < length rs)%nat -> Forall RegionView.nonneg rs ->
      RegionView.recomputed percent_or_zero ratio_or_zero e)) /\
  (forall existing r,
     let merged := RegionView.merge existing r in
     RegionView.sums_of [existing; r] merged /\
     RegionView.recomputed guarded_percent guarded_ratio merged /\
     (RegionView.nonneg existing -> RegionView.nonneg r ->
      RegionView.recomputed percent_or_zero ratio_or_zero merged)) /\
  (forall a b,
     RegionalPerformance.region a = RegionalPerformance.region b ->
     RegionalPerformance.spend a = num 100 ->
     RegionalPerformance.revenue a = num 200 ->
     RegionalPerformance.spend b = num 50 ->
     RegionalPerformance.revenue b = num 50 ->
     recs = [a; b] ->
     exists e, out = [e] /\
       RegionalPerformance.roas e = num 250 / num 150 /\
       RegionalPerformance.roas e <> (num 2 + num 1) / num 2).
Proof.
  intros recs out. subst recs out.
  split; [|split; [|split; [|split]]].
  - rewrite (array_sort_perm _ _ : Permutation (RegionView.regionalData (Some md)) _).
    rewrite region_keys, regionMap_records, region_step_eq.
    apply group_fold_NoDup. constructor.
  - intros k. rewrite list_elem_of_fmap. split.
    + intros (e & -> & He). apply region_entry in He as (r & rs & Hg & ->).
      exists r. split.
      * assert (Hin : r ∈ keyed RegionalPerformance.region
                  (RegionalPerformance.region (foldl RegionView.merge r rs))
                  (RegionView.records md)) by (rewrite Hg; left).
        apply list_elem_of_filter in Hin. tauto.
      * symmetry. apply region_fold_merge_sums.
    + intros (r & Hin & <-).
      destruct (keyed RegionalPerformance.region (RegionalPerformance.region r)
                  (RegionView.records md)) as [|r0 rs] eqn:Hg.
      * assert (Hr : r ∈ keyed RegionalPerformance.region (RegionalPerformance.region r)
                         (RegionView.records md)).
        { apply list_elem_of_filter. tauto. }
        rewrite Hg in Hr. inversion Hr.
      * assert (Hk : RegionalPerformance.region r0 = RegionalPerformance.region r).
        { assert (Hr0 : r0 ∈ keyed RegionalPerformance.region (RegionalPerformance.region r)
                            (RegionView.records md)) by (rewrite Hg; left).
          apply list_elem_of_filter in Hr0. tauto. }
        exists (foldl RegionView.merge r0 rs).
        destruct (region_fold_merge_sums rs r0) as (Hreg & _).
        split; [congruence|].
        apply region_entry. exists r0, rs. split; [|reflexivity].
        rewrite Hreg, Hk. exact Hg.
  - intros e He. apply region_entry in He as (r & rs & Hg & ->).
    simpl. rewrite Hg.
    destruct (region_fold_merge_sums rs r) as (_ & _ & Hsum).
    assert (Hrec : (1 < length (r :: rs))%nat ->
             RegionView.recomputed guarded_percent guarded_ratio
               (foldl RegionView.merge r rs)).
    { intros Hlen. apply region_fold_merge_recomputed.
      destruct rs; simpl in Hlen; [lia|discriminate]. }
    split; [exact Hsum|]. split; [exact Hrec|].
    intros Hlen Hnn. apply region_recomputed_spec; [|now apply Hrec].
    eapply region_sums_nonneg; eassumption.
  - intros existing r. simpl.
    assert (Hsum : RegionView.sums_of [existing; r] (RegionView.merge existing r)).
    { unfold RegionView.sums_of, total. simpl. rewrite !Qcplus_0_r. tauto. }
    split; [exact Hsum|]. split; [apply region_merge_recomputed|].
    intros He Hr. apply region_recomputed_spec; [|apply region_merge_recomputed].
    eapply region_sums_nonneg; [|exact Hsum].
    apply List.Forall_cons; [exact He|].
    apply List.Forall_cons; [exact Hr|]. apply List.Forall_nil.
  - intros a b Hab Hsa Hra Hsb Hrb Hrecs.
    exists (RegionView.merge a b).
    assert (Hroas : RegionalPerformance.roas (RegionView.merge a b)
                    = num 250 / num 150).
    { simpl. rewrite Hsa, Hra, Hsb, Hrb. qc_eq. }
    split; [|split; [exact Hroas|]].
    + simpl. rewrite regionMap_records, Hrecs. simpl.
      unfold RegionView.step. simpl.
      rewrite <- Hab, String.eqb_refl. simpl.
      reflexivity.
    + rewrite Hroas. intros H. apply (f_equal this) in H.
      vm_compute in H. discriminate.
Qed.

Lemma regional_rollup_witness :
  RegionView.regionalData (Some two_dubai_campaigns)
    = [RegionView.merge dubai_first dubai_second] /\
  RegionView.recomputed percent_or_zero ratio_or_zero
    (RegionView.merge dubai_first dubai_second) /\
  RegionalPerformance.roas (RegionView.merge dubai_first dubai_second)
    = num 250 / num 150.
Proof.
  assert (Hout : RegionView.regionalData (Some two_dubai_campaigns)
                 = [RegionView.merge dubai_first dubai_second])
    by reflexivity.
  destruct (regional_rollup_recomputes_from_sums two_dubai_campaigns)
    as (_ & _ & Hentry & _ & Hex).
  split; [exact Hout|]. split.
  - refine (proj2 (proj2 (Hentry (RegionView.merge dubai_first dubai_second) _)) _ _).
    + rewrite Hout. left.
    + vm_compute. lia.
    + repeat constructor; vm_compute; discriminate.
  - destruct (Hex dubai_first dubai_second) as (e & He & Hroas & _);
      [reflexivity..|].
    rewrite Hout in He. injection He as <-. exact Hroas.
Defined.

(** ** WeeklyView *)
Section WeeklyFacts.
Import WeeklyPerformance WeeklyView.

Lemma week_campaigns_flat {D V G : Type}
    (cs : list (Campaign.t D V t G)) (m : JsMap.t t) :
  foldl campaign_step m cs
  = foldl step m (flat_map (fun c => default [] (Campaign.weekly_performance c)) cs).
Proof.
  revert m. induction cs as [|c cs IH]; intros m; simpl; [reflexivity|].
  rewrite foldl_app, IH. unfold campaign_step.
  now destruct (Campaign.weekly_performance c).
Qed.

Lemma weekMap_records {D V G : Type} (md : MarketingData.t D V t G) :
  weekMap md = foldl step JsMap.empty (records md).
Proof. apply week_campaigns_flat. Qed.

Lemma week_step_eq : step = group_step week_start merge.
Proof. reflexivity. Qed.

Lemma week_merge_key (e r : t) : week_start (merge e r) = week_start e.
Proof. reflexivity. Qed.

Lemma week_fold_merge_sums (rs : list t) (e : t) :
  week_start (foldl merge e rs) = week_start e /\
  week_end (foldl merge e rs) = week_end e /\
  sums_of (e :: rs) (foldl merge e rs).
Proof.
  revert e. induction rs as [|r rs IH]; intros e; simpl.
  - unfold sums_of, total; simpl. rewrite !Qcplus_0_r. tauto.
  - destruct (IH (merge e r)) as (Hr & Hc & Hi & Hcl & Hcv & Hs & Hv).
    unfold sums_of, total in *. simpl in *.
    rewrite Hr, Hc, Hi, Hcl, Hcv, Hs, Hv.
    repeat split; ring.
Qed.

Lemma week_entry {D V G : Type} (getTime : string -> option Z)
    (md : MarketingData.t D V t G) (e : t) :
  e ∈ weeklyData getTime (Some md) <->
  exists r rs, keyed week_start (week_start e) (records md) = r :: rs /\
               e = foldl merge r rs.
Proof.
  simpl. rewrite array_sort_elem_of, weekMap_records, week_step_eq.
  apply group_fold_values, week_merge_key.
Qed.

Lemma week_keys {D V G : Type} (md : MarketingData.t D V t G) :
  map week_start (JsMap.values (weekMap md)) = first_seen (map week_start (records md)).
Proof.
  rewrite weekMap_records, week_step_eq.
  rewrite group_fold_values_keys by apply week_merge_key.
  apply group_fold_first_seen.
Qed.

Lemma first_seen_NoDup (l : list string) : NoDup (first_seen l).
Proof.
  induction l as [|k l IH]; simpl; constructor.
  - rewrite list_elem_of_filter. tauto.
  - now apply NoDup_filter.
Qed.
End WeeklyFacts.

(** C2.  The weekly rollup has exactly one entry per distinct
    [week_start]; an entry is the first record of its key (a copy:
    [week_start], [week_end] and, when nothing else has the key, every
    field) with the raw fields of every later record of the key added;
    the result is a reordering of the entries in the order in which
    their keys were first met.  When every [week_start] parses as a
    date, the result is ascending in the chronological value of
    [week_start], and entries of equal chronological value stand in the
    order in which their keys were first met.  Two records of week
    2024-01-01 with 10 and 20 clicks give one entry with 30 clicks. *)
Theorem weekly_rollup_one_entry_per_week
    (getTime : string -> option Z) (md : Data) :
  let recs := WeeklyView.records md in
  let out := WeeklyView.weeklyData getTime (Some md) in
  let time := fun e => getTime (WeeklyPerformance.week_start e) in
  let parsed := Forall (fun r => is_Some (time r)) recs in
  NoDup (map WeeklyPerformance.week_start out) /\
  (forall k, k ∈ map WeeklyPerformance.week_start out <->
             exists r, r ∈ recs /\ WeeklyPerformance.week_start r = k) /\
  (forall e, e ∈ out ->
     exists r rs,
       keyed WeeklyPerformance.week_start (WeeklyPerformance.week_start e) recs
         = r :: rs /\
       e = foldl WeeklyView.merge r rs /\
       (rs = [] -> e = r) /\
       WeeklyPerformance.week_start e = WeeklyPerformance.week_start r /\
       WeeklyPerformance.week_end e = WeeklyPerformance.week_end r /\
       WeeklyView.sums_of (r :: rs) e) /\
  (parsed ->
   StronglySorted
     (fun a b => exists ta tb,
        time a = Some ta /\ time b = Some tb /\ (ta <= tb)%Z) out) /\
  (exists met,
     map WeeklyPerformance.week_start met
       = first_seen (map WeeklyPerformance.week_start recs) /\
     Permutation out met /\
     (parsed ->
      forall t, List.filter (fun e => bool_decide (time e = Some t)) out
                = List.filter (fun e => bool_decide (time e = Some t)) met)) /\
  (forall a b,
     WeeklyPerformance.week_start a = "2024-01-01"%string ->
     WeeklyPerformance.week_start b = "2024-01-01"%string ->
     WeeklyPerformance.clicks a = num 10 ->
     WeeklyPerformance.clicks b = num 20 ->
     recs = [a; b] ->
     exists e, out = [e] /\ WeeklyPerformance.clicks e = num 30).
Proof.
  intros recs out time parsed. subst recs out time parsed.
  split; [|split; [|split; [|split; [|split]]]].
  - rewrite (array_sort_perm _ _ : Permutation (WeeklyView.weeklyData getTime (Some md)) _).
    rewrite week_keys. apply first_seen_NoDup.
  - intros k. rewrite list_elem_of_fmap. split.
    + intros (e & -> & He). apply week_entry in He as (r & rs & Hg & ->).
      exists r. apply keyed_head in Hg. split; [tauto|].
      symmetry. apply week_fold_merge_sums.
    + intros (r & Hin & <-).
      destruct (keyed_elem_of WeeklyPerformance.week_start _ _ Hin)
        as (r0 & rs & Hg).
      pose proof (keyed_head _ _ _ _ _ Hg) as [_ Hk].
      exists (foldl WeeklyView.merge r0 rs).
      destruct (week_fold_merge_sums rs r0) as (Hws & _).
      split; [congruence|].
      apply week_entry. exists r0, rs. split; [|reflexivity].
      rewrite Hws, Hk. exact Hg.
  - intros e He. apply week_entry in He as (r & rs & Hg & ->).
    exists r, rs. destruct (week_fold_merge_sums rs r) as (Hws & Hwe & Hsum).
    split; [exact Hg|]. split; [reflexivity|].
    split; [intros ->; reflexivity|]. tauto.
  - intros Hparsed.
    apply (array_sort_sorted (fun e => getTime (WeeklyPerformance.week_start e))).
    apply Forall_forall. intros e He.
    apply (array_sort_elem_of (WeeklyView.by_week_start getTime)) in He.
    apply (week_entry getTime md) in He as (r & rs & Hg & ->).
    destruct (week_fold_merge_sums rs r) as (Hws & _). rewrite Hws.
    apply keyed_head in Hg as [Hin _].
    rewrite Forall_forall in Hparsed. now apply Hparsed.
  - exists (JsMap.values (WeeklyView.weekMap md)).
    split; [apply week_keys|]. split; [apply array_sort_perm|].
    intros _ t.
    apply (array_sort_stable (fun e => getTime (WeeklyPerformance.week_start e))).
  - intros a b Ha Hb Hca Hcb Hrecs.
    exists (WeeklyView.merge a b). split.
    + simpl. rewrite weekMap_records, Hrecs. simpl.
      unfold WeeklyView.step. simpl.
      rewrite Ha, Hb. reflexivity.
    + simpl. rewrite Hca, Hcb. qc_eq.
Qed.

(** With a [week_start] that does not parse the result need not be in
    chronological order: the week of 2024-01-08 stays before the week
    of 2024-01-01 when ["not a date"] stands between them. *)
Lemma weekly_rollup_unsorted_on_unparsable_date :
  map WeeklyPerformance.week_start
      (WeeklyView.weeklyData iso_day (Some unparsable_week_campaigns))
    = ["2024-01-08"; "not a date"; "2024-01-01"]%string /\
  iso_day "2024-01-08" = Some 20240108%Z /\
  iso_day "not a date" = None /\
  iso_day "2024-01-01" = Some 20240101%Z /\
  ~ StronglySorted
      (fun a b => forall ta tb,
         iso_day (WeeklyPerformance.week_start a) = Some ta ->
         iso_day (WeeklyPerformance.week_start b) = Some tb -> (ta <= tb)%Z)
      (WeeklyView.weeklyData iso_day (Some unparsable_week_campaigns)).
Proof.
  split; [reflexivity|]. split; [reflexivity|]. split; [reflexivity|].
  split; [reflexivity|].
  change (WeeklyView.weeklyData iso_day (Some unparsable_week_campaigns))
    with [week_of "2024-01-08"; week_of "not a date"; week_of "2024-01-01"].
  intros Hs. apply StronglySorted_inv in Hs as [_ Hall].
  apply Forall_inv_tail, Forall_inv in Hall.
  specialize (Hall 20240108%Z 20240101%Z eq_refl eq_refl). lia.
Qed.

(** ** DeviceView *)
Section DeviceFacts.
Import DevicePerformance DeviceView.

Lemma device_accumulate_fold (rs : list t) (agg : t) :
  device (foldl accumulate agg rs) = device agg /\
  impressions (foldl accumulate agg rs) = impressions agg + total impressions rs /\
  clicks (foldl accumulate agg rs) = clicks agg + total clicks rs /\
  conversions (foldl accumulate agg rs) = conversions agg + total conversions rs /\
  spend (foldl accumulate agg rs) = spend agg + total spend rs /\
  revenue (foldl accumulate agg rs) = revenue agg + total revenue rs.
Proof.
  revert agg. induction rs as [|r rs IH]; intros agg; simpl.
  - unfold total; simpl. rewrite !Qcplus_0_r. tauto.
  - destruct (IH (accumulate agg r)) as (Hd & Hi & Hc & Hv & Hs & Hr).
    unfold total in *. simpl in *. rewrite Hd, Hi, Hc, Hv, Hs, Hr.
    repeat split; ring.
Qed.

(** The two accumulators after the inner loop over [devices]. *)
Lemma device_steps (name : string) (devices : list t) (s : acc) :
  mobileAgg (foldl (step name) s devices)
    = foldl accumulate (mobileAgg s) (of_device "Mobile" devices) /\
  desktopAgg (foldl (step name) s devices)
    = foldl accumulate (desktopAgg s) (of_device "Desktop" devices).
Proof.
  revert s. induction devices as [|d ds IH]; intros s; simpl; [tauto|].
  destruct (IH (step name s d)) as [Hm Hd]. rewrite Hm, Hd.
  unfold of_device. rewrite !filter_cons. unfold step.
  destruct (String.eqb_spec (device d) "Mobile") as [E|E]; simpl.
  - rewrite decide_True by exact E.
    rewrite decide_False by (rewrite E; discriminate). tauto.
  - rewrite decide_False by exact E.
    destruct (String.eqb_spec (device d) "Desktop") as [E'|E']; simpl.
    + rewrite decide_True by exact E'. tauto.
    + rewrite decide_False by exact E'. tauto.
Qed.

Lemma device_campaigns {D W G : Type}
    (cs : list (Campaign.t D t W G)) (s : acc) :
  let recs := flat_map (fun c => default [] (Campaign.device_performance c)) cs in
  mobileAgg (foldl campaign_step s cs)
    = foldl accumulate (mobileAgg s) (of_device "Mobile" recs) /\
  desktopAgg (foldl campaign_step s cs)
    = foldl accumulate (desktopAgg s) (of_device "Desktop" recs).
Proof.
  revert s. induction cs as [|c cs IH]; intros s; simpl; [tauto|].
  destruct (IH (campaign_step s c)) as [Hm Hd]. simpl in Hm, Hd.
  rewrite Hm, Hd. unfold of_device. rewrite !filter_app, !foldl_app.
  unfold campaign_step.
  destruct (Campaign.device_performance c) as [devices|]; simpl; [|tauto].
  destruct (device_steps (Campaign.name c) devices s) as [Hm' Hd'].
  now rewrite Hm', Hd'.
Qed.

(** The accumulated buckets hold the sums over their device's records. *)
Lemma device_accumulated {D W G : Type} (md : MarketingData.t D t W G) :
  sums_of (of_device "Mobile" (records md)) (mobileAgg (accumulated md)) /\
  sums_of (of_device "Desktop" (records md)) (desktopAgg (accumulated md)).
Proof.
  destruct (device_campaigns (MarketingData.campaigns md)
              (mk_acc (zero "Mobile") (zero "Desktop") [])) as [Hm Hd].
  unfold accumulated, records. simpl in Hm, Hd. rewrite Hm, Hd.
  split.
  - destruct (device_accumulate_fold
                (of_device "Mobile" (flat_map (fun c => default [] (Campaign.device_performance c)) (MarketingData.campaigns md)))
                (zero "Mobile")) as (_ & Hi & Hc & Hv & Hs & Hr).
    unfold sums_of. rewrite Hi, Hc, Hv, Hs, Hr. simpl.
    rewrite !Qcplus_0_l. tauto.
  - destruct (device_accumulate_fold
                (of_device "Desktop" (flat_map (fun c => default [] (Campaign.device_performance c)) (MarketingData.campaigns md)))
                (zero "Desktop")) as (_ & Hi & Hc & Hv & Hs & Hr).
    unfold sums_of. rewrite Hi, Hc, Hv, Hs, Hr. simpl.
    rewrite !Qcplus_0_l. tauto.
Qed.

Lemma device_of_device_nonneg (name : string) (recs : list t) :
  Forall nonneg recs ->
  0 ≤ total impressions (of_device name recs) /\
  0 ≤ total clicks (of_device name recs).
Proof.
  intros Hall.
  assert (H : Forall nonneg (of_device name recs)).
  { unfold of_device. apply Forall_forall. intros d Hd.
    apply list_elem_of_filter in Hd as [_ Hd].
    rewrite Forall_forall in Hall. now apply Hall. }
  split; apply total_nonneg; eapply Forall_impl; try exact H;
    unfold nonneg; simpl; tauto.
Qed.
End DeviceFacts.

(** C5.  Each device bucket holds the sums over the records of its
    device, and its ctr and conversion_rate are the guarded percentages
    of those sums: summed clicks over summed impressions times 100, and
    summed conversions over summed clicks times 100, which on data that
    is not negative are those quotients, and 0 on a denominator 0.  The
    rates the records carry are not read.  On two campaigns of unequal
    size the recomputed ctr differs from the mean of the campaigns' own
    ctr values. *)
Theorem device_rollup_rates_from_sums (md : Data) :
  let out := DeviceView.deviceData (Some md) in
  let mobile := DeviceView.of_device "Mobile" (DeviceView.records md) in
  let desktop := DeviceView.of_device "Desktop" (DeviceView.records md) in
  DeviceView.rates_from_sums guarded_percent mobile
    (AggregatedDeviceData.mobileData out) /\
  DeviceView.rates_from_sums guarded_percent desktop
    (AggregatedDeviceData.desktopData out) /\
  (Forall DeviceView.nonneg (DeviceView.records md) ->
   DeviceView.rates_from_sums percent_or_zero mobile
     (AggregatedDeviceData.mobileData out) /\
   DeviceView.rates_from_sums percent_or_zero desktop
     (AggregatedDeviceData.desktopData out)) /\
  (exists md' : Data,
     let rs := DeviceView.of_device "Mobile" (DeviceView.records md') in
     Forall (fun d => DevicePerformance.ctr d
                      = percent_or_zero (DevicePerformance.clicks d)
                                        (DevicePerformance.impressions d)) rs /\
     DevicePerformance.ctr
       (AggregatedDeviceData.mobileData (DeviceView.deviceData (Some md')))
     <> DeviceView.mean_ctr rs).
Proof.
  intros out mobile desktop. subst out mobile desktop.
  destruct (device_accumulated md) as [Hm Hd].
  assert (Hgm : DeviceView.rates_from_sums guarded_percent
                  (DeviceView.of_device "Mobile" (DeviceView.records md))
                  (AggregatedDeviceData.mobileData (DeviceView.deviceData (Some md)))).
  { destruct Hm as (Hi & Hc & Hv & Hs & Hr).
    split; [exact (conj Hi (conj Hc (conj Hv (conj Hs Hr))))|].
    simpl. rewrite Hi, Hc, Hv. tauto. }
  assert (Hgd : DeviceView.rates_from_sums guarded_percent
                  (DeviceView.of_device "Desktop" (DeviceView.records md))
                  (AggregatedDeviceData.desktopData (DeviceView.deviceData (Some md)))).
  { destruct Hd as (Hi & Hc & Hv & Hs & Hr).
    split; [exact (conj Hi (conj Hc (conj Hv (conj Hs Hr))))|].
    simpl. rewrite Hi, Hc, Hv. tauto. }
  split; [exact Hgm|]. split; [exact Hgd|]. split.
  - intros Hnn.
    destruct (device_of_device_nonneg "Mobile" _ Hnn) as [Him Hcm].
    destruct (device_of_device_nonneg "Desktop" _ Hnn) as [Hid Hcd].
    destruct Hgm as (Hsm & Hctrm & Hcrm). destruct Hgd as (Hsd & Hctrd & Hcrd).
    unfold DeviceView.rates_from_sums.
    rewrite <- !guarded_percent_spec by assumption. tauto.
  - exists unequal_campaigns. simpl. split.
    + repeat constructor; qc_eq.
    + intros H. apply (f_equal this) in H. vm_compute in H. discriminate.
Qed.

Lemma device_rollup_rates_witness :
  DeviceView.rates_from_sums percent_or_zero
    (DeviceView.of_device "Mobile" (DeviceView.records unequal_campaigns))
    (AggregatedDeviceData.mobileData
       (DeviceView.deviceData (Some unequal_campaigns))).
Proof.
  refine (proj1 (proj1 (proj2 (proj2
            (device_rollup_rates_from_sums unequal_campaigns))) _)).
  repeat constructor; vm_compute; discriminate.
Defined.

(** C10.  The two traffic percentages of the device rollup add up to
    100 when the mobile and desktop impressions together are positive,
    and both are 0 when that total is 0. *)
Theorem device_traffic_partition (md : Data) :
  let out := DeviceView.deviceData (Some md) in
  let mobile := AggregatedDeviceData.mobileData out in
  let desktop := AggregatedDeviceData.desktopData out in
  let totalImpressions :=
    DevicePerformance.impressions mobile + DevicePerformance.impressions desktop in
  (0 < totalImpressions ->
   DevicePerformance.percentage_of_traffic mobile
   + DevicePerformance.percentage_of_traffic desktop = num 100) /\
  (totalImpressions = 0 ->
   DevicePerformance.percentage_of_traffic mobile = 0 /\
   DevicePerformance.percentage_of_traffic desktop = 0).
Proof.
  simpl.
  set (m := DevicePerformance.impressions (DeviceView.mobileAgg (DeviceView.accumulated md))).
  set (d := DevicePerformance.impressions (DeviceView.desktopAgg (DeviceView.accumulated md))).
  unfold guarded_percent. split.
  - intros Hpos. apply positive_true in Hpos as Hp. rewrite Hp.
    assert (Hne : m + d <> 0).
    { intros E. rewrite E in Hpos. now apply Qclt_not_eq in Hpos. }
    field. exact Hne.
  - intros ->. now rewrite positive_zero.
Qed.

Lemma device_traffic_partition_witness :
  let out := DeviceView.deviceData (Some unequal_campaigns) in
  DevicePerformance.percentage_of_traffic (AggregatedDeviceData.mobileData out)
  + DevicePerformance.percentage_of_traffic (AggregatedDeviceData.desktopData out)
  = num 100.
Proof.
  refine (proj1 (device_traffic_partition unequal_campaigns) _).
  vm_compute. reflexivity.
Defined.

(** ** DemographicView *)
Section DemographicFacts.
Import DemographicBreakdown AggregatedDemographicData DemographicView.
Context {V W G : Type}.
Local Abbreviation campaign_t := (Campaign.t DemographicBreakdown.t V W G).

Lemma demographic_campaigns_flat (cs : list campaign_t)
    (s : AggregatedDemographicData.t) :
  foldl campaign_step s cs
  = foldl (fun s p => step (fst p) s (snd p)) s
      (flat_map (fun c => map (pair c) (default [] (Campaign.demographic_breakdown c))) cs).
Proof.
  revert s. induction cs as [|c cs IH]; intros s; simpl; [reflexivity|].
  rewrite foldl_app, IH. f_equal. unfold campaign_step.
  destruct (Campaign.demographic_breakdown c) as [demos|]; simpl; [|reflexivity].
  revert s. induction demos as [|d demos IHd]; intros s; simpl; auto.
Qed.

(** The gender buckets after any number of slices. *)
Lemma demographic_gender_totals
    (pairs : list (campaign_t * DemographicBreakdown.t))
    (s : AggregatedDemographicData.t) :
  let s' := foldl (fun s p => step (fst p) s (snd p)) s pairs in
  let spent := fun p : campaign_t * DemographicBreakdown.t =>
                 demoSpend (fst p) (snd p) in
  let earned := fun p : campaign_t * DemographicBreakdown.t =>
                  demoRevenue (fst p) (snd p) in
  maleSpend s' = maleSpend s + total spent (of_gender "Male" pairs) /\
  maleRevenue s' = maleRevenue s + total earned (of_gender "Male" pairs) /\
  femaleSpend s' = femaleSpend s + total spent (of_gender "Female" pairs) /\
  femaleRevenue s' = femaleRevenue s + total earned (of_gender "Female" pairs).
Proof.
  revert s. induction pairs as [|[c d] pairs IH]; intros s; simpl.
  - unfold total; simpl. rewrite !Qcplus_0_r. tauto.
  - destruct (IH (step c s d)) as (H1 & H2 & H3 & H4).
    simpl in H1, H2, H3, H4. rewrite H1, H2, H3, H4.
    unfold of_gender. rewrite !filter_cons. simpl.
    unfold step, gender_step, age_group_step.
    destruct (String.eqb_spec (gender d) "Male") as [E|E].
    + rewrite decide_True by exact E.
      rewrite decide_False by (rewrite E; discriminate).
      destruct (JsObject.falsy _ _); unfold total; simpl; repeat split; ring.
    + rewrite decide_False by exact E.
      destruct (String.eqb_spec (gender d) "Female") as [E'|E'].
      * rewrite decide_True by exact E'.
        destruct (JsObject.falsy _ _); unfold total; simpl; repeat split; ring.
      * rewrite decide_False by exact E'.
        destruct (JsObject.falsy _ _); simpl; tauto.
Qed.

End DemographicFacts.

Lemma num_100_nonzero : num 100 <> 0.
Proof. intros H. apply (f_equal this) in H. vm_compute in H. discriminate. Qed.

Lemma demographic_allocation_sum {V W G : Type}
    (campaign : Campaign.t DemographicBreakdown.t V W G)
    (demos : list DemographicBreakdown.t) :
  total (DemographicView.demoSpend campaign) demos
  = Campaign.spend campaign
    * total DemographicBreakdown.percentage_of_audience demos / num 100 /\
  total (DemographicView.demoRevenue campaign) demos
  = Campaign.revenue campaign
    * total DemographicBreakdown.percentage_of_audience demos / num 100.
Proof.
  induction demos as [|d demos [IHs IHr]]; unfold total in *; simpl.
  - split; field; apply num_100_nonzero.
  - rewrite IHs, IHr.
    unfold DemographicView.demoSpend, DemographicView.demoRevenue,
      DemographicView.percentageMultiplier.
    split; field; apply num_100_nonzero.
Qed.

(** C3.  The amount allocated to a slice is the campaign's spend (or
    revenue) times the slice's percentage of the audience over 100, and
    these are the amounts the rollup adds to the gender buckets.  So the
    allocations of one campaign sum to its spend times the sum of the
    percentages over 100, which is the campaign's spend when the
    percentages sum to 100 (and, for a spend that is not 0, only then). *)
Theorem demographic_allocation_proportional (campaign : CampaignData) :
  let demos := default [] (Campaign.demographic_breakdown campaign) in
  let share := DemographicBreakdown.percentage_of_audience in
  (forall demo,
     DemographicView.demoSpend campaign demo
       = Campaign.spend campaign * (share demo / num 100) /\
     DemographicView.demoRevenue campaign demo
       = Campaign.revenue campaign * (share demo / num 100)) /\
  total (DemographicView.demoSpend campaign) demos
    = Campaign.spend campaign * total share demos / num 100 /\
  (total share demos = num 100 ->
   total (DemographicView.demoSpend campaign) demos = Campaign.spend campaign) /\
  (Campaign.spend campaign <> 0 ->
   total (DemographicView.demoSpend campaign) demos = Campaign.spend campaign ->
   total share demos = num 100) /\
  (forall md : Data,
     let out := DemographicView.demographicData (Some md) in
     let spent := fun p : CampaignData * DemographicBreakdown.t =>
                    DemographicView.demoSpend (fst p) (snd p) in
     let earned := fun p : CampaignData * DemographicBreakdown.t =>
                     DemographicView.demoRevenue (fst p) (snd p) in
     let male := DemographicView.of_gender "Male" (DemographicView.slices md) in
     let female := DemographicView.of_gender "Female" (DemographicView.slices md) in
     AggregatedDemographicData.maleSpend out = total spent male /\
     AggregatedDemographicData.maleRevenue out = total earned male /\
     AggregatedDemographicData.femaleSpend out = total spent female /\
     AggregatedDemographicData.femaleRevenue out = total earned female).
Proof.
  intros demos share. subst share.
  destruct (demographic_allocation_sum campaign demos) as [Hsum _].
  split; [intros demo; split; reflexivity|].
  split; [exact Hsum|]. split; [|split].
  - intros H100. rewrite Hsum, H100. field. apply num_100_nonzero.
  - intros Hne Heq. rewrite Hsum in Heq.
    assert (H : Campaign.spend campaign
                * (total DemographicBreakdown.percentage_of_audience demos - num 100) = 0).
    { transitivity (num 100 * (Campaign.spend campaign
        * total DemographicBreakdown.percentage_of_audience demos / num 100
        - Campaign.spend campaign)).
      - field. apply num_100_nonzero.
      - rewrite Heq. ring. }
    apply Qcmult_integral in H as [H|H]; [contradiction|].
    rewrite <- (Qcplus_0_l (num 100)), <- H. ring.
  - intros md. simpl.
    rewrite demographic_campaigns_flat.
    destruct (demographic_gender_totals (DemographicView.slices md)
                DemographicView.initial) as (H1 & H2 & H3 & H4).
    simpl in H1, H2, H3, H4. unfold DemographicView.slices in *.
    rewrite H1, H2, H3, H4, !Qcplus_0_l. tauto.
Qed.

Lemma demographic_allocation_witness :
  total (DemographicView.demoSpend sliced_campaign) three_slices
  = Campaign.spend sliced_campaign.
Proof.
  refine (proj1 (proj2 (proj2
            (demographic_allocation_proportional sliced_campaign))) _).
  qc_eq.
Defined.

Lemma weekly_rollup_witness :
  (exists e,
     WeeklyView.weeklyData iso_day
       (Some (MarketingData.mk
                [ Campaign.mk "Summer" (num 100) (num 200) None None
                    (Some [week_one_a]) None;
                  Campaign.mk "Winter" (num 50) (num 50) None None
                    (Some [week_one_b]) None ] : Data)) = [e] /\
     WeeklyPerformance.clicks e = num 30) /\
  StronglySorted
    (fun a b => exists ta tb,
       iso_day (WeeklyPerformance.week_start a) = Some ta /\
       iso_day (WeeklyPerformance.week_start b) = Some tb /\ (ta <= tb)%Z)
    (WeeklyView.weeklyData iso_day (Some two_week_campaigns)).
Proof.
  split.
  - refine (proj2 (proj2 (proj2 (proj2 (proj2
              (weekly_rollup_one_entry_per_week iso_day _)))))
              week_one_a week_one_b _ _ _ _ _); reflexivity.
  - refine (proj1 (proj2 (proj2 (proj2
              (weekly_rollup_one_entry_per_week iso_day two_week_campaigns))))
              _).
    repeat (apply List.Forall_cons; [eexists; reflexivity|]).
    apply List.Forall_nil.
Defined.

(** With a second week in the data the merged week comes after the
    earlier one although it was met first. *)
Example weekly_rollup_sorted_example :
  map WeeklyPerformance.week_start
      (WeeklyView.weeklyData iso_day (Some two_week_campaigns))
    = ["2023-12-25"; "2024-01-01"]%string /\
  map WeeklyPerformance.clicks
      (WeeklyView.weeklyData iso_day (Some two_week_campaigns))
    = [num 5; num 10 + num 20].
Proof. split; reflexivity. Qed.

(** ** LineChart *)
Section LineChartFacts.
Import LineChart.

Lemma max2_cases (a b : Qc) :
  (max2 a b = a /\ b ≤ a) \/ (max2 a b = b /\ a ≤ b).
Proof.
  unfold max2. destruct (bool_decide (a < b)) eqn:E.
  - apply bool_decide_eq_true in E. right. split; [reflexivity|].
    now apply Qclt_le_weak.
  - apply bool_decide_eq_false in E. left. split; [reflexivity|].
    now apply Qcle_ngt.
Qed.

Lemma min2_cases (a b : Qc) :
  (min2 a b = a /\ a ≤ b) \/ (min2 a b = b /\ b ≤ a).
Proof.
  unfold min2. destruct (bool_decide (b < a)) eqn:E.
  - apply bool_decide_eq_true in E. right. split; [reflexivity|].
    now apply Qclt_le_weak.
  - apply bool_decide_eq_false in E. left. split; [reflexivity|].
    now apply Qcle_ngt.
Qed.

(** [maximum] is an element of the sequence and bounds it from above. *)
Lemma maximum_spec (vs : list Qc) (v : Qc) :
  maximum v vs ∈ v :: vs /\ forall x, x ∈ v :: vs -> x ≤ maximum v vs.
Proof.
  unfold maximum. revert v. induction vs as [|w vs IH]; intros v; simpl.
  - split; [left|]. intros x ->%list_elem_of_singleton. apply Qcle_refl.
  - destruct (IH (max2 v w)) as [Hin Hub].
    destruct (max2_cases v w) as [[E Hle]|[E Hle]]; rewrite E in *.
    + split.
      * apply elem_of_cons in Hin as [->|Hin]; [left|]. right. now right.
      * intros x [->|[->|Hx]%elem_of_cons]%elem_of_cons.
        -- apply Hub. left.
        -- eapply Qcle_trans; [exact Hle|]. apply Hub. left.
        -- apply Hub. now right.
    + split.
      * now right.
      * intros x [->|Hx]%elem_of_cons.
        -- eapply Qcle_trans; [exact Hle|]. apply Hub. left.
        -- now apply Hub.
Qed.

(** [minimum] is an element of the sequence and bounds it from below. *)
Lemma minimum_spec (vs : list Qc) (v : Qc) :
  minimum v vs ∈ v :: vs /\ forall x, x ∈ v :: vs -> minimum v vs ≤ x.
Proof.
  unfold minimum. revert v. induction vs as [|w vs IH]; intros v; simpl.
  - split; [left|]. intros x ->%list_elem_of_singleton. apply Qcle_refl.
  - destruct (IH (min2 v w)) as [Hin Hlb].
    destruct (min2_cases v w) as [[E Hle]|[E Hle]]; rewrite E in *.
    + split.
      * apply elem_of_cons in Hin as [->|Hin]; [left|]. right. now right.
      * intros x [->|[->|Hx]%elem_of_cons]%elem_of_cons.
        -- apply Hlb. left.
        -- eapply Qcle_trans; [|exact Hle]. apply Hlb. left.
        -- apply Hlb. now right.
    + split.
      * now right.
      * intros x [->|Hx]%elem_of_cons.
        -- eapply Qcle_trans; [|exact Hle]. apply Hlb. left.
        -- now apply Hlb.
Qed.

(** A chart with data has a value to take the maximum of. *)
Lemma allValues_nonempty (series : list LineChartSeries) :
  no_data series = false -> allValues series <> [].
Proof.
  unfold no_data. destruct series as [|s0 series0]; [discriminate|].
  generalize (s0 :: series0). clear. intros series.
  induction series as [|s series IH]; simpl; [discriminate|].
  destruct (data s) as [|p ps]; simpl; [exact IH|]. discriminate.
Qed.
End LineChartFacts.

(** C6, as the claim states it, fails: the lower bound of the plot
    domain is clamped at 0.  For the values 0 and 10 the claimed bound
    is -1 and the chart uses 0; and a series that is flat at -5 is drawn
    at the top of the chart (y = 0), not at the vertical midpoint. *)
Lemma line_chart_lower_bound_is_clamped :
  (exists f,
     LineChart.layout zero_to_ten (num 300) = Some f /\
     LineChart.minValue f = 0 /\ LineChart.maxValue f = num 10 /\
     LineChart.chartMin f = 0 /\
     LineChart.minValue f
       - num 1 / num 10 * (LineChart.maxValue f - LineChart.minValue f)
       = num (-1) /\
     LineChart.chartMin f
       <> LineChart.minValue f
          - num 1 / num 10 * (LineChart.maxValue f - LineChart.minValue f)) /\
  (exists f,
     LineChart.layout flat_negative (num 300) = Some f /\
     LineChart.minValue f = num (-5) /\ LineChart.maxValue f = num (-5) /\
     LineChart.getYPosition f (num (-5)) = 0 /\
     LineChart.chartHeight f / num 2 = num 110 /\
     LineChart.getYPosition f (num (-5)) <> LineChart.chartHeight f / num 2).
Proof.
  assert (Hne : forall x y : Qc, this x <> this y -> x <> y)
    by (intros x y H ->; now apply H).
  split.
  - eexists. split; [reflexivity|]. simpl.
    repeat split; try qc_eq. apply Hne. vm_compute. discriminate.
  - eexists. split; [reflexivity|].
    repeat split; try qc_eq. apply Hne. vm_compute. discriminate.
Qed.

(** C6, amended.  For a chart with data, the value domain is the least
    and the greatest of all values of all series; the upper bound of the
    plot domain is max + 0.1 (max - min) and the lower bound is
    min - 0.1 (max - min) clamped at 0, so it is that difference
    whenever the difference is not negative; when the plot domain is
    degenerate, as it is when all values are equal and not negative,
    every point maps to the vertical midpoint and nothing is divided. *)
Theorem line_chart_domain_padded_and_clamped
    (series : list LineChart.LineChartSeries) (height : Qc) :
  LineChart.no_data series = false ->
  exists f,
    LineChart.layout series height = Some f /\
    (LineChart.minValue f ∈ LineChart.allValues series /\
     forall v, v ∈ LineChart.allValues series -> LineChart.minValue f ≤ v) /\
    (LineChart.maxValue f ∈ LineChart.allValues series /\
     forall v, v ∈ LineChart.allValues series -> v ≤ LineChart.maxValue f) /\
    (let pad := (LineChart.maxValue f - LineChart.minValue f) * (num 1 / num 10) in
     LineChart.chartMax f = LineChart.maxValue f + pad /\
     LineChart.chartMin f = LineChart.max2 0 (LineChart.minValue f - pad) /\
     (0 ≤ LineChart.minValue f - pad ->
      LineChart.chartMin f = LineChart.minValue f - pad)) /\
    (forall v, LineChart.chartRange f = 0 ->
       LineChart.getYPosition f v = LineChart.chartHeight f / num 2) /\
    (LineChart.maxValue f = LineChart.minValue f -> 0 ≤ LineChart.minValue f ->
     forall v, LineChart.getYPosition f v = LineChart.chartHeight f / num 2).
Proof.
  intros Hdata. unfold LineChart.layout. rewrite Hdata.
  pose proof (allValues_nonempty series Hdata) as Hne.
  destruct (LineChart.allValues series) as [|v vs]; [congruence|].
  eexists. split; [reflexivity|]. simpl.
  destruct (minimum_spec vs v) as [Hmin_in Hmin_lb].
  destruct (maximum_spec vs v) as [Hmax_in Hmax_ub].
  set (lo := LineChart.minimum v vs) in *.
  set (hi := LineChart.maximum v vs) in *.
  assert (Hclamp : 0 ≤ lo - (hi - lo) * (num 1 / num 10) ->
            LineChart.max2 0 (lo - (hi - lo) * (num 1 / num 10))
            = lo - (hi - lo) * (num 1 / num 10)).
  { intros Hpos. destruct (max2_cases 0 (lo - (hi - lo) * (num 1 / num 10)))
      as [[E Hle]|[E Hle]]; rewrite E; [|reflexivity].
    now apply Qcle_antisym. }
  assert (Hmid : forall f x, LineChart.chartRange f = 0 ->
            LineChart.getYPosition f x = LineChart.chartHeight f / num 2).
  { intros f x Hz. unfold LineChart.getYPosition.
    now rewrite decide_True by exact Hz. }
  split; [split; assumption|]. split; [split; assumption|].
  split; [repeat split; [exact Hclamp]|].
  split; [intros x Hz; apply Hmid; exact Hz|].
  intros Heq Hpos x. apply Hmid. simpl. rewrite Heq in *.
  rewrite Hclamp.
  - ring.
  - replace (lo - (lo - lo) * (num 1 / num 10)) with lo by ring. exact Hpos.
Qed.

Lemma line_chart_domain_witness :
  exists f,
    LineChart.layout zero_to_ten (num 300) = Some f /\
    LineChart.chartMax f = num 11 /\ LineChart.chartMin f = 0.
Proof.
  destruct (line_chart_domain_padded_and_clamped zero_to_ten (num 300))
    as (f & Hlay & _ & _ & (Hmax & Hmin & _) & _); [reflexivity|].
  exists f. split; [exact Hlay|].
  injection Hlay as <-. split; qc_eq.
Defined.

(** ** BubbleMap *)
Section BubbleMapFacts.
Import BubbleMap.
Local Open Scope R_scope.

(** [maximum] is an element of the batch and bounds it from above. *)
Lemma bubble_maximum_spec (vs : list R) (v : R) :
  maximum v vs ∈ v :: vs /\ forall x, x ∈ v :: vs -> x <= maximum v vs.
Proof.
  unfold maximum. revert v. induction vs as [|w vs IH]; intros v; simpl.
  - split; [left|]. intros x ->%list_elem_of_singleton. lra.
  - destruct (IH (Rmax v w)) as [Hin Hub]. split.
    + apply elem_of_cons in Hin as [Hin|Hin]; [|right; now right].
      rewrite Hin. unfold Rmax. destruct (Rle_dec v w); [right|]; left.
    + intros x [->|[->|Hx]%elem_of_cons]%elem_of_cons.
      * eapply Rle_trans; [apply (Rmax_l _ w)|]. apply Hub. left.
      * eapply Rle_trans; [apply (Rmax_r v)|]. apply Hub. left.
      * apply Hub. now right.
Qed.

(** [minimum] is an element of the batch and bounds it from below. *)
Lemma bubble_minimum_spec (vs : list R) (v : R) :
  minimum v vs ∈ v :: vs /\ forall x, x ∈ v :: vs -> minimum v vs <= x.
Proof.
  unfold minimum. revert v. induction vs as [|w vs IH]; intros v; simpl.
  - split; [left|]. intros x ->%list_elem_of_singleton. lra.
  - destruct (IH (Rmin v w)) as [Hin Hlb]. split.
    + apply elem_of_cons in Hin as [Hin|Hin]; [|right; now right].
      rewrite Hin. unfold Rmin. destruct (Rle_dec v w); [|right]; left.
    + intros x [->|[->|Hx]%elem_of_cons]%elem_of_cons.
      * eapply Rle_trans; [|apply (Rmin_l _ w)]. apply Hlb. left.
      * eapply Rle_trans; [|apply (Rmin_r v)]. apply Hlb. left.
      * apply Hlb. now right.
Qed.

Lemma normalizedValue_degenerate (m v : R) : normalizedValue m m v = 1 / 2.
Proof.
  unfold normalizedValue. destruct (Req_dec_T m m); [reflexivity|congruence].
Qed.

Lemma normalizedValue_sqrt (lo hi v : R) :
  hi <> lo -> normalizedValue lo hi v = sqrt ((v - lo) / (hi - lo)).
Proof.
  intros Hne. unfold normalizedValue.
  destruct (Req_dec_T hi lo); [contradiction|reflexivity].
Qed.

(** The position of a value of the batch within [lo, hi]. *)
Lemma fraction_bounds (lo hi v : R) :
  lo < hi -> lo <= v <= hi -> 0 <= (v - lo) / (hi - lo) <= 1.
Proof.
  intros Hlt [Hlo Hhi]. split.
  - apply Rmult_le_pos; [lra|]. left. apply Rinv_0_lt_compat. lra.
  - apply (Rmult_le_reg_r (hi - lo)); [lra|]. field_simplify; lra.
Qed.

(** On [0, 1] the square root lies above the identity. *)
Lemma sqrt_above_identity (x : R) : 0 <= x <= 1 -> x <= sqrt x.
Proof.
  intros [H0 H1]. rewrite <- (sqrt_square x) at 1 by exact H0.
  apply sqrt_le_1_alt. rewrite <- (Rmult_1_r x) at 3.
  apply Rmult_le_compat_l; assumption.
Qed.
End BubbleMapFacts.

(** C7.  For a batch with at least one point, with [lo] and [hi] the
    least and the greatest value of the batch, every point gets one
    bubble; when [hi] and [lo] differ its radius is
    8 + sqrt ((value - lo) / (hi - lo)) * 24, so the square of the
    radius above the minimum is linear in the value and the radius lies
    on or above the linear interpolation; when [hi = lo], and so for a
    single point, the radius is the midpoint 20.  In the batch 10, 40,
    90 the radius of 40 is 8 + sqrt ((40 - 10) / (90 - 10)) * 24. *)
Theorem bubble_radius_square_root_scaled
    (d0 : BubbleMap.BubbleMapDataPoint)
    (rest : list BubbleMap.BubbleMapDataPoint) :
  let data := d0 :: rest in
  let lo := BubbleMap.minimum (BubbleMap.value d0) (map BubbleMap.value rest) in
  let hi := BubbleMap.maximum (BubbleMap.value d0) (map BubbleMap.value rest) in
  ((lo ∈ map BubbleMap.value data /\
    forall v, v ∈ map BubbleMap.value data -> (lo <= v)%R) /\
   (hi ∈ map BubbleMap.value data /\
    forall v, v ∈ map BubbleMap.value data -> (v <= hi)%R)) /\
  Permutation (BubbleMap.enrichedData data)
              (map (BubbleMap.enrich lo hi) data) /\
  (forall b, b ∈ BubbleMap.enrichedData data ->
     let n := ((BubbleMap.value (BubbleMap.point b) - lo) / (hi - lo))%R in
     (hi <> lo ->
      BubbleMap.size b = (8 + sqrt n * 24)%R /\
      ((BubbleMap.size b - 8) * (BubbleMap.size b - 8) = 24 * 24 * n)%R /\
      (8 + n * 24 <= BubbleMap.size b)%R) /\
     (hi = lo -> BubbleMap.size b = 20%R)) /\
  (rest = [] -> forall b, b ∈ BubbleMap.enrichedData data ->
                BubbleMap.size b = 20%R) /\
  (map BubbleMap.value data = [10; 40; 90]%R ->
   forall b, b ∈ BubbleMap.enrichedData data ->
     BubbleMap.value (BubbleMap.point b) = 40%R ->
     BubbleMap.size b = (8 + sqrt ((40 - 10) / (90 - 10)) * 24)%R).
Proof.
  intros data lo hi.
  destruct (bubble_minimum_spec (map BubbleMap.value rest) (BubbleMap.value d0))
    as [Hlo_in Hlo].
  destruct (bubble_maximum_spec (map BubbleMap.value rest) (BubbleMap.value d0))
    as [Hhi_in Hhi].
  fold lo in Hlo_in, Hlo. fold hi in Hhi_in, Hhi.
  assert (Hperm : Permutation (BubbleMap.enrichedData data)
                    (map (BubbleMap.enrich lo hi) data)).
  { exact (array_sort_perm BubbleMap.by_size_desc
             (map (BubbleMap.enrich lo hi) data)). }
  assert (Hb : forall b, b ∈ BubbleMap.enrichedData data ->
            exists d, d ∈ data /\ b = BubbleMap.enrich lo hi d).
  { intros b Hin. rewrite Hperm in Hin.
    apply list_elem_of_fmap in Hin as (d & -> & Hd). eauto. }
  assert (Hsize : forall b, b ∈ BubbleMap.enrichedData data ->
            (hi <> lo ->
             BubbleMap.size b
             = (8 + sqrt ((BubbleMap.value (BubbleMap.point b) - lo) / (hi - lo)) * 24)%R)
            /\ (hi = lo -> BubbleMap.size b = 20%R)).
  { intros b Hin. destruct (Hb b Hin) as (d & Hd & ->). simpl. split.
    - intros Hne. now rewrite normalizedValue_sqrt.
    - intros ->. rewrite normalizedValue_degenerate. lra. }
  split; [tauto|]. split; [exact Hperm|]. split; [|split].
  - intros b Hin n. destruct (Hsize b Hin) as [Hsq Hdeg].
    split; [|exact Hdeg]. intros Hne. specialize (Hsq Hne). fold n in Hsq.
    destruct (Hb b Hin) as (d & Hd & Hbd).
    assert (Hv : (lo <= BubbleMap.value (BubbleMap.point b) <= hi)%R).
    { rewrite Hbd. simpl. split; [apply Hlo|apply Hhi];
        apply (proj2 (list_elem_of_fmap BubbleMap.value data _)); eauto. }
    assert (Hlt : (lo < hi)%R).
    { destruct (Rtotal_order lo hi) as [H|[H|H]]; [exact H|congruence|].
      pose proof (Hlo hi Hhi_in). lra. }
    pose proof (fraction_bounds lo hi _ Hlt Hv) as Hn. fold n in Hn.
    split; [exact Hsq|]. rewrite Hsq. split.
    + replace ((8 + sqrt n * 24 - 8) * (8 + sqrt n * 24 - 8))%R
        with (24 * 24 * (sqrt n * sqrt n))%R by ring.
      rewrite sqrt_sqrt by tauto. reflexivity.
    + pose proof (sqrt_above_identity n Hn). lra.
  - intros -> b Hin. apply (Hsize b Hin). reflexivity.
  - intros Hvals b Hin H40. subst data. simpl in Hvals.
    injection Hvals as Hv0 Hrest.
    assert (Elo : lo = 10%R).
    { subst lo. rewrite Hv0, Hrest. unfold BubbleMap.minimum. simpl.
      unfold Rmin. repeat destruct (Rle_dec _ _); lra. }
    assert (Ehi : hi = 90%R).
    { subst hi. rewrite Hv0, Hrest. unfold BubbleMap.maximum. simpl.
      unfold Rmax. repeat destruct (Rle_dec _ _); lra. }
    destruct (Hsize b Hin) as [Hsq _]. rewrite Hsq by (rewrite Elo, Ehi; lra).
    now rewrite Elo, Ehi, H40.
Qed.

Lemma bubble_radius_witness :
  exists b,
    b ∈ BubbleMap.enrichedData ten_forty_ninety /\
    BubbleMap.value (BubbleMap.point b) = 40%R /\
    BubbleMap.size b = (8 + sqrt ((40 - 10) / (90 - 10)) * 24)%R.
Proof.
  destruct (bubble_radius_square_root_scaled
              (BubbleMap.mk_point "Dubai" "UAE" 10 None)
              [ BubbleMap.mk_point "Sharjah" "UAE" 40 None;
                BubbleMap.mk_point "Ajman" "UAE" 90 None ])
    as (_ & Hperm & _ & _ & Hex).
  eexists. split; [|split].
  - unfold ten_forty_ninety. rewrite Hperm. simpl. right. left.
  - reflexivity.
  - apply Hex; [reflexivity| |reflexivity].
    rewrite Hperm. simpl. right. left.
Defined.

(** ** The object store *)
Section StoreFacts.
Context {T : Type}.
Implicit Types (h : list T) (l : Store.loc).

Lemma bind_run {A B : Type} (m : Store.M T A) (k : A -> Store.M T B)
    h (a : A) h' :
  m h = Some (a, h') -> Store.bind m k h = k a h'.
Proof. intros H. unfold Store.bind. now rewrite H. Qed.

Lemma load_run h l (v : T) : h !! l = Some v -> Store.load l h = Some (v, h).
Proof. intros H. unfold Store.load. now rewrite H. Qed.

Lemma store_run h l (o v : T) :
  h !! l = Some o -> Store.store l v h = Some (tt, <[l := v]> h).
Proof. intros H. unfold Store.store. now rewrite H. Qed.

(** The guards keep the divisor away from 0: the guarded quotients
    always have a result, the one computed on values. *)
Lemma guarded_ratio_run (n d : Qc) h :
  Store.guarded_ratio n d h = Some (guarded_ratio n d, h).
Proof.
  unfold Store.guarded_ratio, guarded_ratio.
  destruct (positive d) eqn:Hd; [|reflexivity].
  unfold Store.divide. apply positive_true in Hd.
  rewrite decide_False; [reflexivity|].
  intros ->. now apply Qclt_not_eq in Hd.
Qed.

Lemma guarded_percent_run (n d : Qc) h :
  Store.guarded_percent n d h = Some (guarded_percent n d, h).
Proof.
  unfold Store.guarded_percent, guarded_percent.
  destruct (positive d) eqn:Hd; [|reflexivity].
  unfold Store.bind, Store.divide. apply positive_true in Hd.
  rewrite decide_False; [reflexivity|].
  intros ->. now apply Qclt_not_eq in Hd.
Qed.

(** The statements on a store in which [target] holds [t] and [source]
    holds [s]. *)
Lemma add_assign_run (get : T -> Qc) (set : Qc -> T -> T)
    (target source : Store.loc) (t s : T) h :
  (target < length h)%nat -> h !! source = Some s -> target <> source ->
  Store.add_assign get set target source (<[target := t]> h)
  = Some (tt, <[target := set (get t + get s) t]> h).
Proof.
  intros Hlt Hs Hne. unfold Store.add_assign.
  rewrite (bind_run _ _ _ t (<[target := t]> h))
    by (apply load_run, list_lookup_insert_eq, Hlt).
  rewrite (bind_run _ _ _ s (<[target := t]> h))
    by (apply load_run; rewrite list_lookup_insert_ne by exact Hne; exact Hs).
  rewrite (store_run _ _ t) by (apply list_lookup_insert_eq, Hlt).
  now rewrite list_insert_insert_eq.
Qed.

Lemma assign_run (set : Qc -> T -> T) (target : Store.loc)
    (rhs : T -> Store.M T Qc) (f : T -> Qc) (t : T) h :
  (target < length h)%nat ->
  (forall o h', rhs o h' = Some (f o, h')) ->
  Store.assign set target rhs (<[target := t]> h)
  = Some (tt, <[target := set (f t) t]> h).
Proof.
  intros Hlt Hrhs. unfold Store.assign.
  rewrite (bind_run _ _ _ t (<[target := t]> h))
    by (apply load_run, list_lookup_insert_eq, Hlt).
  rewrite (bind_run _ _ _ (f t) (<[target := t]> h)) by apply Hrhs.
  rewrite (store_run _ _ t) by (apply list_lookup_insert_eq, Hlt).
  now rewrite list_insert_insert_eq.
Qed.

Lemma unchanged_refl h : Store.unchanged h h.
Proof. intros l o H. exact H. Qed.

Lemma unchanged_trans h1 h2 h3 :
  Store.unchanged h1 h2 -> Store.unchanged h2 h3 -> Store.unchanged h1 h3.
Proof. intros H12 H23 l o H. now apply H23, H12. Qed.

Lemma unchanged_alloc h (v : T) : Store.unchanged h (h ++ [v]).
Proof. intros l o H. now apply lookup_app_l_Some. Qed.

Lemma unchanged_length h h' :
  Store.unchanged h h' -> (length h <= length h')%nat.
Proof.
  intros H. destruct h as [|o h0] using rev_ind; [simpl; lia|].
  assert (Hl : (h0 ++ [o]) !! length h0 = Some o).
  { rewrite lookup_app_r by lia. now rewrite Nat.sub_diag. }
  apply H, lookup_lt_Some in Hl. rewrite length_app. simpl. lia.
Qed.

(** A write to an object allocated after [h0] leaves [h0] unchanged. *)
Lemma unchanged_write h0 h l (v : T) :
  Store.unchanged h0 h -> (length h0 <= l)%nat ->
  Store.unchanged h0 (<[l := v]> h).
Proof.
  intros H Hl l' o Hl'. pose proof (lookup_lt_Some _ _ _ Hl').
  rewrite list_lookup_insert_ne by lia. now apply H.
Qed.

(** Sorting references sorts the objects behind them. *)
Lemma sort_refs_run (after : T -> T -> bool) (refs : list Store.loc)
    (vs : list T) h :
  Store.points_to h refs vs ->
  exists sorted,
    Store.sort_refs after refs h = Some (sorted, h) /\
    Permutation sorted refs /\
    Store.points_to h sorted (array_sort after vs).
Proof.
  intros Hp. unfold Store.sort_refs.
  assert (Hload : forall acc,
    Store.foldM (fun acc l => Store.bind (Store.load l)
                   (fun o => Store.ret (acc ++ [(l, o)]))) acc refs h
    = Some (acc ++ zip refs vs, h)).
  { induction Hp as [|l v refs vs Hl Hp IH]; intros acc; simpl.
    - unfold Store.ret. now rewrite app_nil_r.
    - rewrite (bind_run _ _ _ (acc ++ [(l, v)]) h).
      + rewrite IH, <- app_assoc. reflexivity.
      + rewrite (bind_run _ _ _ v h) by now apply load_run. reflexivity. }
  rewrite (bind_run _ _ _ (zip refs vs) h) by apply (Hload []).
  eexists. split; [reflexivity|].
  split.
  { rewrite (array_sort_perm _ (zip refs vs)). rewrite fst_zip; [reflexivity|].
    apply Forall2_length in Hp. lia. }
  assert (Hz : Forall (fun p => h !! fst p = Some (snd p)) (zip refs vs)).
  { clear Hload. induction Hp; simpl; constructor; simpl; auto. }
  assert (Hsnd : map snd (zip refs vs) = vs).
  { apply snd_zip. apply Forall2_length in Hp. lia. }
  replace (array_sort after vs)
    with (map snd (array_sort (fun a b => after (snd a) (snd b)) (zip refs vs)))
    by (now rewrite array_sort_map, Hsnd).
  assert (Hs : Forall (fun p => h !! fst p = Some (snd p))
                 (array_sort (fun a b => after (snd a) (snd b)) (zip refs vs))).
  { rewrite (array_sort_perm _ (zip refs vs)). exact Hz. }
  unfold Store.points_to.
  induction Hs as [|p ps Hp' _ IH]; simpl; constructor; auto.
Qed.
End StoreFacts.

(** ** Grouping by a key, on the store *)
Section GroupStoreFacts.
Context {T : Type} (key : T -> string) (merge : T -> T -> T)
        (merge_m : Store.loc -> Store.loc -> Store.M T unit).
Implicit Types (h : list T) (rm : JsMap.t Store.loc) (pm : JsMap.t T).

(** The statements of the [else] branch perform [merge] on the object
    behind [existing]. *)
Hypothesis merge_m_run :
  forall h existing record e r,
    h !! existing = Some e -> h !! record = Some r -> existing <> record ->
    merge_m existing record h = Some (tt, <[existing := merge e r]> h).

Lemma map_points_to_has h rm pm k :
  map_points_to h rm pm -> JsMap.has rm k = JsMap.has pm k.
Proof.
  induction 1 as [|[k1 l] [k2 v] rm pm [Hk Hl] _ IH]; simpl; [reflexivity|].
  simpl in Hk. subst k2. now rewrite IH.
Qed.

Lemma map_points_to_get h rm pm k e :
  map_points_to h rm pm -> JsMap.get pm k = Some e ->
  exists l, JsMap.get rm k = Some l /\ h !! l = Some e /\ l ∈ JsMap.values rm.
Proof.
  induction 1 as [|[k1 l] [k2 v] rm pm [Hk Hl] _ IH]; simpl; [discriminate|].
  simpl in Hk, Hl. subst k2. destruct (String.eqb k1 k).
  - intros [= ->]. exists l. repeat split; [exact Hl|left].
  - intros Hg. destruct (IH Hg) as (l' & Hg' & Hl' & Hin).
    exists l'. repeat split; [exact Hg'|exact Hl'|now right].
Qed.

Lemma map_points_to_lt h rm pm l :
  map_points_to h rm pm -> l ∈ JsMap.values rm -> (l < length h)%nat.
Proof.
  induction 1 as [|[k1 l1] [k2 v] rm pm [Hk Hl] _ IH]; simpl.
  - intros H. inversion H.
  - intros [->|Hin]%elem_of_cons; [|now apply IH].
    simpl in Hl. now apply lookup_lt_Some in Hl.
Qed.

(** A write to an object that is not in the [Map]. *)
Lemma map_points_to_write_other h rm pm l v :
  map_points_to h rm pm -> l ∉ JsMap.values rm ->
  map_points_to (<[l := v]> h) rm pm.
Proof.
  induction 1 as [|[k1 l1] [k2 v0] rm pm [Hk Hl] _ IH]; simpl; intros Hnin.
  - constructor.
  - apply not_elem_of_cons in Hnin as [Hne Hnin]. constructor; [|now apply IH].
    simpl in *. split; [exact Hk|]. now rewrite list_lookup_insert_ne.
Qed.

Lemma get_elem_of_values (rm : JsMap.t Store.loc) k l :
  JsMap.get rm k = Some l -> l ∈ JsMap.values rm.
Proof.
  induction rm as [|[k' l'] rm IH]; simpl; [discriminate|].
  destruct (String.eqb k' k); [intros [= ->]; left|right; auto].
Qed.

(** Writing the merged object behind the entry of [k]. *)
Lemma map_points_to_set h rm pm k existing e v :
  map_points_to h rm pm -> NoDup (JsMap.values rm) ->
  JsMap.get rm k = Some existing -> JsMap.get pm k = Some e ->
  map_points_to (<[existing := v]> h) rm (JsMap.set pm k v).
Proof.
  intros Hp. revert existing e.
  induction Hp as [|[k1 l] [k2 v0] rm pm [Hk Hl] Hp IH];
    intros existing e Hnd; simpl; [discriminate|].
  simpl in Hk, Hl. subst k2. simpl in Hnd.
  apply NoDup_cons in Hnd as [Hl_new Hnd].
  destruct (String.eqb k1 k) eqn:Ek.
  - intros [= ->] [= ->]. constructor.
    + simpl. split; [reflexivity|].
      apply list_lookup_insert_eq. now apply lookup_lt_Some in Hl.
    + now apply map_points_to_write_other.
  - intros Hg Hg'. constructor.
    + simpl. split; [reflexivity|].
      rewrite list_lookup_insert_ne; [exact Hl|].
      intros <-. apply Hl_new. eapply get_elem_of_values, Hg.
    + eapply IH; eassumption.
Qed.

(** One run of the loop body keeps the invariant and performs the step
    on values. *)
Lemma group_step_run h0 h rm pm record r :
  group_inv h0 h rm pm -> h0 !! record = Some r ->
  exists rm' h',
    Store.group_step key merge_m rm record h = Some (rm', h') /\
    group_inv h0 h' rm' (group_step key merge pm r).
Proof.
  intros (Hun & Hp & Hfresh & Hnd) Hrec.
  pose proof (Hun _ _ Hrec) as Hrec'.
  unfold Store.group_step, group_step.
  rewrite (bind_run _ _ _ r h) by now apply load_run.
  rewrite (map_points_to_has _ _ _ (key r) Hp).
  destruct (JsMap.has pm (key r)) eqn:Hhas; simpl.
  - apply has_get in Hhas as [e He]. rewrite He.
    destruct (map_points_to_get _ _ _ _ _ Hp He) as (existing & Hg & Hl & Hin).
    rewrite Hg.
    assert (Hge : (length h0 <= existing)%nat).
    { rewrite Forall_forall in Hfresh. now apply Hfresh. }
    assert (Hne : existing <> record).
    { apply lookup_lt_Some in Hrec. lia. }
    rewrite (bind_run _ _ _ tt (<[existing := merge e r]> h))
      by now apply merge_m_run.
    eexists _, _. split; [reflexivity|].
    split; [now apply unchanged_write|].
    split; [eapply map_points_to_set; eassumption|]. tauto.
  - rewrite (bind_run _ _ _ r h) by now apply load_run.
    rewrite (bind_run _ _ _ (length h) (h ++ [r])) by reflexivity.
    eexists _, _. split; [reflexivity|].
    assert (Hhas' : JsMap.has rm (key r) = false).
    { now rewrite (map_points_to_has _ _ _ (key r) Hp). }
    rewrite !set_absent by assumption.
    split; [eapply unchanged_trans; [exact Hun|apply unchanged_alloc]|].
    split; [|split].
    + apply Forall2_app.
      * eapply Forall2_impl; [exact Hp|]. intros a b [Hk Hl].
        split; [exact Hk|]. now apply lookup_app_l_Some.
      * constructor; [|constructor]. simpl. split; [reflexivity|].
        rewrite lookup_app_r by lia. now rewrite Nat.sub_diag.
    + unfold JsMap.values. rewrite map_app. apply Forall_app.
      split; [exact Hfresh|]. constructor; [|constructor]. simpl.
      now apply unchanged_length.
    + unfold JsMap.values. rewrite map_app. apply NoDup_app.
      split; [exact Hnd|]. split; [|apply NoDup_singleton].
      intros l Hl [->|H]%elem_of_cons; [|inversion H].
      apply (map_points_to_lt _ _ _ _ Hp) in Hl. simpl in Hl. lia.
Qed.

(** The inner loop over the records of one campaign. *)
Lemma group_fold_run h0 (records : list Store.loc) (rs : list T) h rm pm :
  Store.points_to h0 records rs -> group_inv h0 h rm pm ->
  exists rm' h',
    Store.foldM (Store.group_step key merge_m) rm records h = Some (rm', h') /\
    group_inv h0 h' rm' (foldl (group_step key merge) pm rs).
Proof.
  intros Hp. revert h rm pm.
  induction Hp as [|l r records rs Hl _ IH]; intros h rm pm Hinv; simpl.
  - eexists _, _. split; [reflexivity|exact Hinv].
  - destruct (group_step_run _ _ _ _ _ _ Hinv Hl) as (rm1 & h1 & Hrun & Hinv1).
    rewrite (bind_run _ _ _ _ _ Hrun). now apply IH.
Qed.

Lemma group_inv_initial h0 : group_inv h0 h0 JsMap.empty JsMap.empty.
Proof.
  split; [apply unchanged_refl|]. split; [constructor|].
  split; constructor.
Qed.
End GroupStoreFacts.

Lemma map_points_to_values {T : Type} (h : list T)
    (rm : JsMap.t Store.loc) (pm : JsMap.t T) :
  map_points_to h rm pm ->
  Store.points_to h (JsMap.values rm) (JsMap.values pm).
Proof.
  unfold Store.points_to, JsMap.values.
  induction 1 as [|a b rm pm [_ Hl] _ IH]; simpl; constructor; auto.
Qed.

(** ** RegionView on the store *)
Section RegionStoreFacts.
Import RegionalPerformance.

(** The statements of the [else] branch compute [RegionView.merge], also
    when read one field at a time. *)
Lemma region_merge_run (h : list t) (existing region : Store.loc) (e r : t) :
  h !! existing = Some e -> h !! region = Some r -> existing <> region ->
  RegionStore.merge existing region h
  = Some (tt, <[existing := RegionView.merge e r]> h).
Proof.
  intros He Hr Hne. pose proof (lookup_lt_Some _ _ _ He) as Hlt.
  rewrite <- (list_insert_id h existing e) at 1 by exact He.
  unfold RegionStore.merge.
  do 5 (erewrite bind_run; [|apply add_assign_run; eassumption]).
  erewrite bind_run;
    [|apply (assign_run _ _ _ (fun e => guarded_percent (clicks e) (impressions e)));
      [exact Hlt|intros; apply guarded_percent_run]].
  erewrite bind_run;
    [|apply (assign_run _ _ _ (fun e => guarded_percent (conversions e) (clicks e)));
      [exact Hlt|intros; apply guarded_percent_run]].
  erewrite bind_run;
    [|apply (assign_run _ _ _ (fun e => guarded_ratio (spend e) (clicks e)));
      [exact Hlt|intros; apply guarded_ratio_run]].
  erewrite bind_run;
    [|apply (assign_run _ _ _ (fun e => guarded_ratio (spend e) (conversions e)));
      [exact Hlt|intros; apply guarded_ratio_run]].
  rewrite (assign_run _ _ _ (fun e => guarded_ratio (revenue e) (spend e)))
    by (try exact Hlt; intros; apply guarded_ratio_run).
  reflexivity.
Qed.

Lemma region_campaigns_run {D V W : Type} (h0 : list t)
    (crs : list (Campaign.t D V W Store.loc)) (cs : list (Campaign.t D V W t))
    h rm pm :
  Forall2 (fun cr c =>
             Store.breakdown_points_to h0 (Campaign.regional_performance cr)
                                          (Campaign.regional_performance c))
          crs cs ->
  group_inv h0 h rm pm ->
  exists rm' h',
    Store.foldM RegionStore.campaign_step rm crs h = Some (rm', h') /\
    group_inv h0 h' rm' (foldl RegionView.campaign_step pm cs).
Proof.
  intros Hcs. revert h rm pm.
  induction Hcs as [|cr c crs cs Hc _ IH]; intros h rm pm Hinv; simpl.
  - eexists _, _. split; [reflexivity|exact Hinv].
  - assert (Hstep : exists rm1 h1,
              RegionStore.campaign_step rm cr h = Some (rm1, h1) /\
              group_inv h0 h1 rm1 (RegionView.campaign_step pm c)).
    { unfold RegionStore.campaign_step, RegionView.campaign_step.
      unfold Store.breakdown_points_to in Hc.
      destruct (Campaign.regional_performance cr) as [ls|],
               (Campaign.regional_performance c) as [vs|]; try contradiction.
      - apply (group_fold_run region RegionView.merge RegionStore.merge
                 region_merge_run h0 ls vs); assumption.
      - eexists _, _. split; [reflexivity|exact Hinv]. }
    destruct Hstep as (rm1 & h1 & Hrun & Hinv1).
    rewrite (bind_run _ _ _ _ _ Hrun). now apply IH.
Qed.

(** The program on the store computes the rollup of the values its
    input stands for, and leaves every object of its input as it was. *)
Lemma region_store_refines {D V W : Type} (h0 : list t)
    (mdr : MarketingData.t D V W Store.loc) (md : MarketingData.t D V W t) :
  RegionStore.represents h0 mdr md ->
  exists locs h',
    RegionStore.regionalData (Some mdr) h0 = Some (locs, h') /\
    Store.unchanged h0 h' /\
    Forall (fun l => (length h0 <= l)%nat) locs /\
    Store.points_to h' locs (RegionView.regionalData (Some md)).
Proof.
  intros Hrep.
  destruct (region_campaigns_run h0 _ _ h0 _ _ Hrep (group_inv_initial h0))
    as (rm & h1 & Hrun & Hun & Hp & Hfresh & _).
  unfold RegionStore.regionalData. rewrite (bind_run _ _ _ _ _ Hrun).
  destruct (sort_refs_run RegionView.by_revenue_desc _ _ _
              (map_points_to_values _ _ _ Hp))
    as (sorted & Hsort & Hperm & Hsorted).
  exists sorted, h1. split; [exact Hsort|]. split; [exact Hun|].
  split; [now rewrite Hperm|exact Hsorted].
Qed.
End RegionStoreFacts.

(** ** WeeklyView on the store *)
Section WeeklyStoreFacts.
Import WeeklyPerformance.

Lemma week_merge_run (h : list t) (existing week : Store.loc) (e r : t) :
  h !! existing = Some e -> h !! week = Some r -> existing <> week ->
  WeeklyStore.merge existing week h
  = Some (tt, <[existing := WeeklyView.merge e r]> h).
Proof.
  intros He Hr Hne. pose proof (lookup_lt_Some _ _ _ He) as Hlt.
  rewrite <- (list_insert_id h existing e) at 1 by exact He.
  unfold WeeklyStore.merge.
  do 4 (erewrite bind_run; [|apply add_assign_run; eassumption]).
  now rewrite (add_assign_run _ _ _ _ _ r) by assumption.
Qed.

Lemma week_campaigns_run {D V G : Type} (h0 : list t)
    (crs : list (Campaign.t D V Store.loc G)) (cs : list (Campaign.t D V t G))
    h rm pm :
  Forall2 (fun cr c =>
             Store.breakdown_points_to h0 (Campaign.weekly_performance cr)
                                          (Campaign.weekly_performance c))
          crs cs ->
  group_inv h0 h rm pm ->
  exists rm' h',
    Store.foldM WeeklyStore.campaign_step rm crs h = Some (rm', h') /\
    group_inv h0 h' rm' (foldl WeeklyView.campaign_step pm cs).
Proof.
  intros Hcs. revert h rm pm.
  induction Hcs as [|cr c crs cs Hc _ IH]; intros h rm pm Hinv; simpl.
  - eexists _, _. split; [reflexivity|exact Hinv].
  - assert (Hstep : exists rm1 h1,
              WeeklyStore.campaign_step rm cr h = Some (rm1, h1) /\
              group_inv h0 h1 rm1 (WeeklyView.campaign_step pm c)).
    { unfold WeeklyStore.campaign_step, WeeklyView.campaign_step.
      unfold Store.breakdown_points_to in Hc.
      destruct (Campaign.weekly_performance cr) as [ls|],
               (Campaign.weekly_performance c) as [vs|]; try contradiction.
      - apply (group_fold_run week_start WeeklyView.merge WeeklyStore.merge
                 week_merge_run h0 ls vs); assumption.
      - eexists _, _. split; [reflexivity|exact Hinv]. }
    destruct Hstep as (rm1 & h1 & Hrun & Hinv1).
    rewrite (bind_run _ _ _ _ _ Hrun). now apply IH.
Qed.

Lemma week_store_refines {D V G : Type} (getTime : string -> option Z)
    (h0 : list t)
    (mdr : MarketingData.t D V Store.loc G) (md : MarketingData.t D V t G) :
  WeeklyStore.represents h0 mdr md ->
  exists locs h',
    WeeklyStore.weeklyData getTime (Some mdr) h0 = Some (locs, h') /\
    Store.unchanged h0 h' /\
    Forall (fun l => (length h0 <= l)%nat) locs /\
    Store.points_to h' locs (WeeklyView.weeklyData getTime (Some md)).
Proof.
  intros Hrep.
  destruct (week_campaigns_run h0 _ _ h0 _ _ Hrep (group_inv_initial h0))
    as (rm & h1 & Hrun & Hun & Hp & Hfresh & _).
  unfold WeeklyStore.weeklyData. rewrite (bind_run _ _ _ _ _ Hrun).
  destruct (sort_refs_run (WeeklyView.by_week_start getTime) _ _ _
              (map_points_to_values _ _ _ Hp))
    as (sorted & Hsort & Hperm & Hsorted).
  exists sorted, h1. split; [exact Hsort|]. split; [exact Hun|].
  split; [now rewrite Hperm|exact Hsorted].
Qed.
End WeeklyStoreFacts.

(** ** DeviceView on the store *)
Section DeviceStoreFacts.
Import DevicePerformance.

Lemma device_accumulate_run (h : list t) (agg device : Store.loc) (a d : t) :
  h !! agg = Some a -> h !! device = Some d -> agg <> device ->
  DeviceStore.accumulate agg device h
  = Some (tt, <[agg := DeviceView.accumulate a d]> h).
Proof.
  intros Ha Hd Hne. pose proof (lookup_lt_Some _ _ _ Ha) as Hlt.
  rewrite <- (list_insert_id h agg a) at 1 by exact Ha.
  unfold DeviceStore.accumulate.
  do 4 (erewrite bind_run; [|apply add_assign_run; eassumption]).
  now rewrite (add_assign_run _ _ _ _ _ d) by assumption.
Qed.

Lemma device_breakdown_row_run (h : list t) (name : string)
    (device : Store.loc) (d : t) :
  h !! device = Some d ->
  DeviceStore.breakdown_row name device h
  = Some (DeviceView.breakdown_row name d, h).
Proof.
  intros Hd. unfold DeviceStore.breakdown_row.
  rewrite (bind_run _ _ _ d h) by now apply load_run.
  rewrite (bind_run _ _ _ _ h (guarded_ratio_run _ _ h)). reflexivity.
Qed.

Lemma device_step_run (h0 h : list t) (ml dl : Store.loc) (name : string)
    (s : DeviceView.acc) (device : Store.loc) (d : t) :
  device_inv h0 h ml dl s -> h0 !! device = Some d ->
  exists h',
    DeviceStore.step ml dl name (DeviceView.campaignBreakdown s) device h
    = Some (DeviceView.campaignBreakdown (DeviceView.step name s d), h') /\
    device_inv h0 h' ml dl (DeviceView.step name s d).
Proof.
  intros (Hun & Hml & Hdl & Hne & Hm & Hd) Hdev.
  pose proof (Hun _ _ Hdev) as Hdev'.
  pose proof (lookup_lt_Some _ _ _ Hdev) as Hlt.
  unfold DeviceStore.step, DeviceView.step.
  rewrite (bind_run _ _ _ d h) by now apply load_run.
  destruct (String.eqb (DevicePerformance.device d) "Mobile") eqn:Emob;
    [|destruct (String.eqb (DevicePerformance.device d) "Desktop") eqn:Edesk].
  - rewrite (bind_run _ _ _ tt _ (device_accumulate_run h ml device _ d Hm Hdev' ltac:(lia))).
    rewrite (bind_run _ _ _ (DeviceView.breakdown_row name d)
               (<[ml := DeviceView.accumulate (DeviceView.mobileAgg s) d]> h)).
    + eexists. split; [reflexivity|]. simpl.
      repeat split; try assumption.
      * now apply unchanged_write.
      * apply list_lookup_insert_eq. now apply lookup_lt_Some in Hm.
      * now rewrite list_lookup_insert_ne.
    + apply device_breakdown_row_run. rewrite list_lookup_insert_ne by lia.
      exact Hdev'.
  - rewrite (bind_run _ _ _ tt _ (device_accumulate_run h dl device _ d Hd Hdev' ltac:(lia))).
    rewrite (bind_run _ _ _ (DeviceView.breakdown_row name d)
               (<[dl := DeviceView.accumulate (DeviceView.desktopAgg s) d]> h)).
    + eexists. split; [reflexivity|]. simpl.
      repeat split; try assumption.
      * now apply unchanged_write.
      * rewrite list_lookup_insert_ne by congruence. exact Hm.
      * apply list_lookup_insert_eq. now apply lookup_lt_Some in Hd.
    + apply device_breakdown_row_run. rewrite list_lookup_insert_ne by lia.
      exact Hdev'.
  - rewrite (bind_run _ _ _ tt h) by reflexivity.
    rewrite (bind_run _ _ _ _ h (device_breakdown_row_run h name device d Hdev')).
    eexists. split; [reflexivity|]. simpl. repeat split; assumption.
Qed.

Lemma device_steps_run (h0 : list t) (ml dl : Store.loc) (name : string)
    (devices : list Store.loc) (ds : list t) (h : list t) (s : DeviceView.acc) :
  Store.points_to h0 devices ds -> device_inv h0 h ml dl s ->
  exists h',
    Store.foldM (DeviceStore.step ml dl name) (DeviceView.campaignBreakdown s)
      devices h
    = Some (DeviceView.campaignBreakdown (foldl (DeviceView.step name) s ds), h') /\
    device_inv h0 h' ml dl (foldl (DeviceView.step name) s ds).
Proof.
  intros Hp. revert h s.
  induction Hp as [|l d devices ds Hl _ IH]; intros h s Hinv; simpl.
  - eexists. split; [reflexivity|exact Hinv].
  - destruct (device_step_run _ _ _ _ name _ _ _ Hinv Hl) as (h1 & Hrun & Hinv1).
    rewrite (bind_run _ _ _ _ _ Hrun). now apply IH.
Qed.

Lemma device_campaigns_run {D W G : Type} (h0 : list t) (ml dl : Store.loc)
    (crs : list (Campaign.t D Store.loc W G)) (cs : list (Campaign.t D t W G))
    (h : list t) (s : DeviceView.acc) :
  Forall2 (fun cr c =>
             Campaign.name cr = Campaign.name c /\
             Store.breakdown_points_to h0 (Campaign.device_performance cr)
                                          (Campaign.device_performance c))
          crs cs ->
  device_inv h0 h ml dl s ->
  exists h',
    Store.foldM (DeviceStore.campaign_step ml dl)
      (DeviceView.campaignBreakdown s) crs h
    = Some (DeviceView.campaignBreakdown (foldl DeviceView.campaign_step s cs), h') /\
    device_inv h0 h' ml dl (foldl DeviceView.campaign_step s cs).
Proof.
  intros Hcs. revert h s.
  induction Hcs as [|cr c crs cs [Hname Hc] _ IH]; intros h s Hinv; simpl.
  - eexists. split; [reflexivity|exact Hinv].
  - assert (Hstep : exists h1,
              DeviceStore.campaign_step ml dl (DeviceView.campaignBreakdown s) cr h
              = Some (DeviceView.campaignBreakdown (DeviceView.campaign_step s c), h1) /\
              device_inv h0 h1 ml dl (DeviceView.campaign_step s c)).
    { unfold DeviceStore.campaign_step, DeviceView.campaign_step.
      unfold Store.breakdown_points_to in Hc.
      destruct (Campaign.device_performance cr) as [ls|],
               (Campaign.device_performance c) as [vs|]; try contradiction.
      - rewrite Hname. now apply device_steps_run.
      - eexists. split; [reflexivity|exact Hinv]. }
    destruct Hstep as (h1 & Hrun & Hinv1).
    rewrite (bind_run _ _ _ _ _ Hrun). now apply IH.
Qed.

(** An assignment to one bucket, seen from both. *)
Lemma device_assign_run (h0 h : list t) (target other : Store.loc)
    (set : Qc -> t -> t) (rhs : t -> Store.M t Qc) (f : t -> Qc) (a o : t) :
  Store.unchanged h0 h -> (length h0 <= target)%nat -> target <> other ->
  h !! target = Some a -> h !! other = Some o ->
  (forall x h', rhs x h' = Some (f x, h')) ->
  exists h',
    Store.assign set target rhs h = Some (tt, h') /\
    Store.unchanged h0 h' /\
    h' !! target = Some (set (f a) a) /\ h' !! other = Some o.
Proof.
  intros Hun Hge Hne Ha Ho Hrhs. pose proof (lookup_lt_Some _ _ _ Ha) as Hlt.
  exists (<[target := set (f a) a]> h). split.
  - rewrite <- (list_insert_id h target a) at 1 by exact Ha.
    now apply assign_run.
  - split; [now apply unchanged_write|].
    split; [now apply list_lookup_insert_eq|].
    now rewrite list_lookup_insert_ne.
Qed.

Lemma device_finish_run (h0 h : list t) (ml dl : Store.loc)
    (s : DeviceView.acc) :
  device_inv h0 h ml dl s ->
  exists h',
    DeviceStore.finish ml dl h = Some (tt, h') /\
    Store.unchanged h0 h' /\
    h' !! ml = Some (AggregatedDeviceData.mobileData (DeviceView.finish s)) /\
    h' !! dl = Some (AggregatedDeviceData.desktopData (DeviceView.finish s)).
Proof.
  intros (Hun & Hml & Hdl & Hne & Hm & Hd). unfold DeviceStore.finish.
  destruct (device_assign_run h0 h ml dl set_ctr _
              (fun a => guarded_percent (clicks a) (impressions a)) _ _
              Hun Hml Hne Hm Hd (fun x h' => guarded_percent_run _ _ h'))
    as (h1 & R1 & Hun1 & Hm1 & Hd1).
  rewrite (bind_run _ _ _ _ _ R1).
  destruct (device_assign_run h0 h1 ml dl set_conversion_rate _
              (fun a => guarded_percent (conversions a) (clicks a)) _ _
              Hun1 Hml Hne Hm1 Hd1 (fun x h' => guarded_percent_run _ _ h'))
    as (h2 & R2 & Hun2 & Hm2 & Hd2).
  rewrite (bind_run _ _ _ _ _ R2).
  destruct (device_assign_run h0 h2 dl ml set_ctr _
              (fun a => guarded_percent (clicks a) (impressions a)) _ _
              Hun2 Hdl (not_eq_sym Hne) Hd2 Hm2
              (fun x h' => guarded_percent_run _ _ h'))
    as (h3 & R3 & Hun3 & Hd3 & Hm3).
  rewrite (bind_run _ _ _ _ _ R3).
  destruct (device_assign_run h0 h3 dl ml set_conversion_rate _
              (fun a => guarded_percent (conversions a) (clicks a)) _ _
              Hun3 Hdl (not_eq_sym Hne) Hd3 Hm3
              (fun x h' => guarded_percent_run _ _ h'))
    as (h4 & R4 & Hun4 & Hd4 & Hm4).
  rewrite (bind_run _ _ _ _ _ R4).
  rewrite (bind_run _ _ _ _ _ (load_run _ _ _ Hm4)).
  rewrite (bind_run _ _ _ _ _ (load_run _ _ _ Hd4)).
  match goal with
  | |- context [Store.assign set_percentage_of_traffic ml ?rhs] =>
      destruct (device_assign_run h0 h4 ml dl set_percentage_of_traffic rhs
                  _ _ _ Hun4 Hml Hne Hm4 Hd4
                  (fun x h' => guarded_percent_run _ _ h'))
        as (h5 & R5 & Hun5 & Hm5 & Hd5)
  end.
  rewrite (bind_run _ _ _ _ _ R5).
  match goal with
  | |- context [Store.assign set_percentage_of_traffic dl ?rhs] =>
      destruct (device_assign_run h0 h5 dl ml set_percentage_of_traffic rhs
                  _ _ _ Hun5 Hdl (not_eq_sym Hne) Hd5 Hm5
                  (fun x h' => guarded_percent_run _ _ h'))
        as (h6 & R6 & Hun6 & Hd6 & Hm6)
  end.
  exists h6. split; [exact R6|]. split; [exact Hun6|].
  split; [exact Hm6|exact Hd6].
Qed.
(** The program on the store computes the rollup of the values its
    input stands for, in two fresh objects, and leaves every object of
    its input as it was. *)
Lemma device_store_refines {D W G : Type} (h0 : list t)
    (mdr : MarketingData.t D Store.loc W G) (md : MarketingData.t D t W G) :
  DeviceStore.represents h0 mdr md ->
  exists ml dl rows h',
    DeviceStore.deviceData (Some mdr) h0 = Some ((ml, dl, rows), h') /\
    Store.unchanged h0 h' /\
    ((length h0 <= ml)%nat /\ (length h0 <= dl)%nat) /\
    h' !! ml = Some (AggregatedDeviceData.mobileData (DeviceView.deviceData (Some md))) /\
    h' !! dl = Some (AggregatedDeviceData.desktopData (DeviceView.deviceData (Some md))) /\
    rows = AggregatedDeviceData.campaignDeviceBreakdown (DeviceView.deviceData (Some md)).
Proof.
  intros Hrep. unfold DeviceStore.deviceData.
  rewrite (bind_run _ _ _ (length h0) (h0 ++ [DeviceView.zero "Mobile"]))
    by reflexivity.
  rewrite (bind_run _ _ _ (S (length h0))
             ((h0 ++ [DeviceView.zero "Mobile"]) ++ [DeviceView.zero "Desktop"])).
  2: { unfold Store.alloc. rewrite length_app. simpl.
       now rewrite Nat.add_1_r. }
  assert (Hinv : device_inv h0
            ((h0 ++ [DeviceView.zero "Mobile"]) ++ [DeviceView.zero "Desktop"])
            (length h0) (S (length h0))
            (DeviceView.mk_acc (DeviceView.zero "Mobile")
                               (DeviceView.zero "Desktop") [])).
  { split.
    { eapply unchanged_trans; apply unchanged_alloc. }
    split; [lia|]. split; [lia|]. split; [lia|]. simpl. split.
    - rewrite lookup_app_l by (rewrite length_app; simpl; lia).
      rewrite lookup_app_r by lia. now rewrite Nat.sub_diag.
    - rewrite lookup_app_r by (rewrite length_app; simpl; lia).
      rewrite length_app. simpl.
      now replace (S (length h0) - (length h0 + 1))%nat with 0%nat by lia. }
  destruct (device_campaigns_run h0 _ _ _ _ _ _ Hrep Hinv)
    as (h1 & Hrun & Hinv1).
  simpl in Hrun. rewrite (bind_run _ _ _ _ _ Hrun).
  destruct (device_finish_run _ _ _ _ _ Hinv1) as (h2 & Hfin & Hun2 & Hm & Hd).
  rewrite (bind_run _ _ _ _ _ Hfin).
  eexists _, _, _, h2. split; [reflexivity|].
  split; [exact Hun2|]. split; [lia|]. split; [exact Hm|].
  split; [exact Hd|reflexivity].
Qed.
End DeviceStoreFacts.

(** ** DemographicView on the store *)
Section DemographicStoreFacts.
Import DemographicBreakdown.
Context {V W G : Type}.

Lemma demographic_step_run (h : list DemographicBreakdown.t)
    (cr : Campaign.t Store.loc V W G) (c : Campaign.t DemographicBreakdown.t V W G)
    (s : AggregatedDemographicData.t) (demo : Store.loc)
    (d : DemographicBreakdown.t) :
  Campaign.name cr = Campaign.name c ->
  Campaign.spend cr = Campaign.spend c ->
  Campaign.revenue cr = Campaign.revenue c ->
  h !! demo = Some d ->
  DemographicStore.step cr s demo h = Some (DemographicView.step c s d, h).
Proof.
  intros Hn Hs Hr Hd. unfold DemographicStore.step.
  rewrite (bind_run _ _ _ d h) by now apply load_run.
  rewrite (bind_run _ _ _ (percentage_of_audience d / num 100) h).
  - rewrite Hn, Hs, Hr. reflexivity.
  - unfold Store.divide. now rewrite decide_False by apply num_100_nonzero.
Qed.

Lemma demographic_campaign_run (h : list DemographicBreakdown.t)
    (cr : Campaign.t Store.loc V W G) (c : Campaign.t DemographicBreakdown.t V W G)
    (s : AggregatedDemographicData.t) :
  Campaign.name cr = Campaign.name c /\
  Campaign.spend cr = Campaign.spend c /\
  Campaign.revenue cr = Campaign.revenue c /\
  Store.breakdown_points_to h (Campaign.demographic_breakdown cr)
                              (Campaign.demographic_breakdown c) ->
  DemographicStore.campaign_step s cr h
  = Some (DemographicView.campaign_step s c, h).
Proof.
  intros (Hn & Hs & Hr & Hp).
  unfold DemographicStore.campaign_step, DemographicView.campaign_step.
  unfold Store.breakdown_points_to in Hp.
  destruct (Campaign.demographic_breakdown cr) as [ls|],
           (Campaign.demographic_breakdown c) as [vs|];
    try contradiction; [|reflexivity].
  revert s. induction Hp as [|l d ls vs Hl _ IH]; intros s; simpl;
    [reflexivity|].
  rewrite (bind_run _ _ _ _ _ (demographic_step_run h cr c s l d Hn Hs Hr Hl)).
  apply IH.
Qed.

(** The program on the store computes the aggregate of the values its
    input stands for and writes nothing. *)
Lemma demographic_store_refines (h0 : list DemographicBreakdown.t)
    (mdr : MarketingData.t Store.loc V W G)
    (md : MarketingData.t DemographicBreakdown.t V W G) :
  DemographicStore.represents h0 mdr md ->
  DemographicStore.demographicData (Some mdr) h0
  = Some (DemographicView.demographicData (Some md), h0).
Proof.
  intros Hrep.
  unfold DemographicStore.represents, DemographicStore.demographicData in *.
  simpl. generalize DemographicView.initial.
  induction Hrep as [|cr c crs cs Hc _ IH]; intros s; simpl; [reflexivity|].
  rewrite (bind_run _ _ _ _ _ (demographic_campaign_run h0 cr c s Hc)).
  apply IH.
Qed.
End DemographicStoreFacts.

(** The detail rows of the device view carry a guarded roas. *)
Lemma device_rows_guarded {D W G : Type}
    (md : MarketingData.t D DevicePerformance.t W G) :
  Forall (fun row => CampaignDeviceBreakdown.roas row
                     = guarded_ratio (CampaignDeviceBreakdown.revenue row)
                                     (CampaignDeviceBreakdown.spend row))
         (AggregatedDeviceData.campaignDeviceBreakdown
            (DeviceView.deviceData (Some md))).
Proof.
  simpl. unfold DeviceView.accumulated.
  set (P := fun row => CampaignDeviceBreakdown.roas row
                     = guarded_ratio (CampaignDeviceBreakdown.revenue row)
                                     (CampaignDeviceBreakdown.spend row)).
  assert (Hsteps : forall name ds s,
            Forall P (DeviceView.campaignBreakdown s) ->
            Forall P (DeviceView.campaignBreakdown (foldl (DeviceView.step name) s ds))).
  { intros name ds. induction ds as [|d ds IH]; intros s Hs; simpl; [exact Hs|].
    apply IH. unfold DeviceView.step. simpl. apply Forall_app. split.
    - destruct (String.eqb _ "Mobile"); [exact Hs|].
      destruct (String.eqb _ "Desktop"); exact Hs.
    - repeat constructor. }
  assert (Hs0 : Forall P (DeviceView.campaignBreakdown
    (DeviceView.mk_acc (DeviceView.zero "Mobile") (DeviceView.zero "Desktop") [])))
    by constructor.
  revert Hs0. generalize (DeviceView.mk_acc (DeviceView.zero "Mobile")
                                (DeviceView.zero "Desktop") []).
  induction (MarketingData.campaigns md) as [|c cs IH];
    intros s Hs; simpl; [exact Hs|].
  apply IH. unfold DeviceView.campaign_step.
  destruct (Campaign.device_performance c); [|exact Hs]. now apply Hsteps.
Qed.

(** C9.  Each of the four derivations, run on a store that holds the
    input records, ends with every object of that store as it was: the
    regional and the weekly rollup return references to objects
    allocated during the run (the copies), the device rollup writes to
    its two fresh buckets, and the demographic rollup writes to no
    object at all.  Campaigns are only read. *)
Theorem aggregation_leaves_input_unchanged :
  (forall (D V W : Type) (h0 : list RegionalPerformance.t)
          (mdr : MarketingData.t D V W Store.loc)
          (md : MarketingData.t D V W RegionalPerformance.t),
     RegionStore.represents h0 mdr md ->
     exists locs h',
       RegionStore.regionalData (Some mdr) h0 = Some (locs, h') /\
       Store.unchanged h0 h' /\
       Forall (fun l => (length h0 <= l)%nat) locs) /\
  (forall (D V G : Type) (getTime : string -> option Z)
          (h0 : list WeeklyPerformance.t)
          (mdr : MarketingData.t D V Store.loc G)
          (md : MarketingData.t D V WeeklyPerformance.t G),
     WeeklyStore.represents h0 mdr md ->
     exists locs h',
       WeeklyStore.weeklyData getTime (Some mdr) h0 = Some (locs, h') /\
       Store.unchanged h0 h' /\
       Forall (fun l => (length h0 <= l)%nat) locs) /\
  (forall (D W G : Type) (h0 : list DevicePerformance.t)
          (mdr : MarketingData.t D Store.loc W G)
          (md : MarketingData.t D DevicePerformance.t W G),
     DeviceStore.represents h0 mdr md ->
     exists mobileData desktopData rows h',
       DeviceStore.deviceData (Some mdr) h0
       = Some ((mobileData, desktopData, rows), h') /\
       Store.unchanged h0 h' /\
       (length h0 <= mobileData)%nat /\ (length h0 <= desktopData)%nat) /\
  (forall (V W G : Type) (h0 : list DemographicBreakdown.t)
          (mdr : MarketingData.t Store.loc V W G)
          (md : MarketingData.t DemographicBreakdown.t V W G),
     DemographicStore.represents h0 mdr md ->
     exists out,
       DemographicStore.demographicData (Some mdr) h0 = Some (out, h0)).
Proof.
  split; [|split; [|split]].
  - intros D V W h0 mdr md Hrep.
    destruct (region_store_refines h0 mdr md Hrep)
      as (locs & h' & Hrun & Hun & Hfresh & _). eauto.
  - intros D V G getTime h0 mdr md Hrep.
    destruct (week_store_refines getTime h0 mdr md Hrep)
      as (locs & h' & Hrun & Hun & Hfresh & _). eauto.
  - intros D W G h0 mdr md Hrep.
    destruct (device_store_refines h0 mdr md Hrep)
      as (ml & dl & rows & h' & Hrun & Hun & [Hml Hdl] & _).
    exists ml, dl, rows, h'. tauto.
  - intros V W G h0 mdr md Hrep. eexists.
    apply (demographic_store_refines h0 mdr md Hrep).
Qed.

Lemma aggregation_frame_witness :
  exists locs h',
    RegionStore.regionalData (Some two_dubai_refs) dubai_store
    = Some (locs, h') /\
    Store.unchanged dubai_store h' /\
    Forall (fun l => (length dubai_store <= l)%nat) locs.
Proof.
  refine (proj1 aggregation_leaves_input_unchanged _ _ _
            dubai_store two_dubai_refs two_dubai_campaigns _).
  repeat constructor.
Defined.

(** The run of the regional rollup on the sample store: one fresh
    object holds the merged entry, the two input records are as they
    were. *)
Example regional_store_example :
  RegionStore.regionalData (Some two_dubai_refs) dubai_store
  = Some ([2%nat],
          [dubai_first; dubai_second;
           RegionView.merge dubai_first dubai_second]).
Proof. vm_compute. reflexivity. Qed.

(** The merge statements write through the reference they are given: run
    on two records of the input they change the first.  The rollups keep
    their input because the references in the [Map] are the copies. *)
Example merge_writes_through_its_reference :
  exists h',
    WeeklyStore.merge 0%nat 1%nat week_store = Some (tt, h') /\
    h' !! 0%nat = Some (WeeklyView.merge week_one_a week_one_b) /\
    h' !! 0%nat <> week_store !! 0%nat.
Proof.
  eexists. split; [vm_compute; reflexivity|]. split; [reflexivity|].
  intros H. apply (f_equal (fun o => this (WeeklyPerformance.clicks
                                           (default week_zero o)))) in H.
  vm_compute in H. discriminate.
Qed.

(** C8.  Every derived rate is computed behind a guard on its
    denominator: with the denominator 0 the result is 0 and nothing is
    divided; the rates a regional merge stores, the rates and traffic
    percentages of the device buckets and the roas of the device detail
    rows are such guarded rates; and the four derivations, run on a
    store in which a division by 0 or a read through a missing
    reference would be a failure, always end with a result. *)
Theorem derived_rates_are_guarded :
  (forall (T : Type) (n d : Qc) (h : list T),
     Store.guarded_ratio n d h = Some (guarded_ratio n d, h) /\
     Store.guarded_percent n d h = Some (guarded_percent n d, h) /\
     (d = 0 -> guarded_ratio n d = 0 /\ guarded_percent n d = 0)) /\
  (forall existing r,
     let e := RegionView.merge existing r in
     (RegionalPerformance.impressions e = 0 -> RegionalPerformance.ctr e = 0) /\
     (RegionalPerformance.clicks e = 0 ->
      RegionalPerformance.conversion_rate e = 0 /\ RegionalPerformance.cpc e = 0) /\
     (RegionalPerformance.conversions e = 0 -> RegionalPerformance.cpa e = 0) /\
     (RegionalPerformance.spend e = 0 -> RegionalPerformance.roas e = 0)) /\
  (forall md : Data,
     let out := DeviceView.deviceData (Some md) in
     let m := AggregatedDeviceData.mobileData out in
     let d := AggregatedDeviceData.desktopData out in
     (DevicePerformance.impressions m = 0 -> DevicePerformance.ctr m = 0) /\
     (DevicePerformance.clicks m = 0 -> DevicePerformance.conversion_rate m = 0) /\
     (DevicePerformance.impressions d = 0 -> DevicePerformance.ctr d = 0) /\
     (DevicePerformance.clicks d = 0 -> DevicePerformance.conversion_rate d = 0) /\
     (DevicePerformance.impressions m + DevicePerformance.impressions d = 0 ->
      DevicePerformance.percentage_of_traffic m = 0 /\
      DevicePerformance.percentage_of_traffic d = 0) /\
     (forall row, row ∈ AggregatedDeviceData.campaignDeviceBreakdown out ->
        CampaignDeviceBreakdown.spend row = 0 ->
        CampaignDeviceBreakdown.roas row = 0)) /\
  (forall (D V W : Type) (h0 : list RegionalPerformance.t)
          (mdr : MarketingData.t D V W Store.loc)
          (md : MarketingData.t D V W RegionalPerformance.t),
     RegionStore.represents h0 mdr md ->
     exists locs h',
       RegionStore.regionalData (Some mdr) h0 = Some (locs, h') /\
       Store.points_to h' locs (RegionView.regionalData (Some md))) /\
  (forall (D V G : Type) (getTime : string -> option Z)
          (h0 : list WeeklyPerformance.t)
          (mdr : MarketingData.t D V Store.loc G)
          (md : MarketingData.t D V WeeklyPerformance.t G),
     WeeklyStore.represents h0 mdr md ->
     exists locs h',
       WeeklyStore.weeklyData getTime (Some mdr) h0 = Some (locs, h') /\
       Store.points_to h' locs (WeeklyView.weeklyData getTime (Some md))) /\
  (forall (D W G : Type) (h0 : list DevicePerformance.t)
          (mdr : MarketingData.t D Store.loc W G)
          (md : MarketingData.t D DevicePerformance.t W G),
     DeviceStore.represents h0 mdr md ->
     exists mobileData desktopData rows h',
       DeviceStore.deviceData (Some mdr) h0
       = Some ((mobileData, desktopData, rows), h') /\
       h' !! mobileData
       = Some (AggregatedDeviceData.mobileData (DeviceView.deviceData (Some md))) /\
       h' !! desktopData
       = Some (AggregatedDeviceData.desktopData (DeviceView.deviceData (Some md))) /\
       rows = AggregatedDeviceData.campaignDeviceBreakdown
                (DeviceView.deviceData (Some md))) /\
  (forall (V W G : Type) (h0 : list DemographicBreakdown.t)
          (mdr : MarketingData.t Store.loc V W G)
          (md : MarketingData.t DemographicBreakdown.t V W G),
     DemographicStore.represents h0 mdr md ->
     DemographicStore.demographicData (Some mdr) h0
     = Some (DemographicView.demographicData (Some md), h0)).
Proof.
  split; [|split; [|split; [|split; [|split; [|split]]]]].
  - intros T n d h. split; [apply guarded_ratio_run|].
    split; [apply guarded_percent_run|].
    intros ->. split; [apply guarded_ratio_zero|apply guarded_percent_zero].
  - intros existing r e.
    destruct (region_merge_recomputed existing r) as (H1 & H2 & H3 & H4 & H5).
    fold e in H1, H2, H3, H4, H5.
    repeat split.
    + intros E. rewrite H1, E. apply guarded_percent_zero.
    + rewrite H2, H. apply guarded_percent_zero.
    + rewrite H3, H. apply guarded_ratio_zero.
    + intros E. rewrite H4, E. apply guarded_ratio_zero.
    + intros E. rewrite H5, E. apply guarded_ratio_zero.
  - intros md out m d. subst m d out. simpl.
    repeat split.
    + intros E. rewrite E. apply guarded_percent_zero.
    + intros E. rewrite E. apply guarded_percent_zero.
    + intros E. rewrite E. apply guarded_percent_zero.
    + intros E. rewrite E. apply guarded_percent_zero.
    + rewrite H. apply guarded_percent_zero.
    + rewrite H. apply guarded_percent_zero.
    + intros row Hrow E.
      pose proof (device_rows_guarded md) as Hall.
      rewrite Forall_forall in Hall. rewrite (Hall row Hrow), E.
      apply guarded_ratio_zero.
  - intros D V W h0 mdr md Hrep.
    destruct (region_store_refines h0 mdr md Hrep)
      as (locs & h' & Hrun & _ & _ & Hp). eauto.
  - intros D V G getTime h0 mdr md Hrep.
    destruct (week_store_refines getTime h0 mdr md Hrep)
      as (locs & h' & Hrun & _ & _ & Hp). eauto.
  - intros D W G h0 mdr md Hrep.
    destruct (device_store_refines h0 mdr md Hrep)
      as (ml & dl & rows & h' & Hrun & _ & _ & Hm & Hd & Hrows).
    exists ml, dl, rows, h'. tauto.
  - intros V W G h0 mdr md Hrep. now apply demographic_store_refines.
Qed.

Lemma derived_rates_witness :
  exists mobileData desktopData rows h',
    DeviceStore.deviceData (Some unequal_refs) device_store
    = Some ((mobileData, desktopData, rows), h') /\
    h' !! mobileData
    = Some (AggregatedDeviceData.mobileData
              (DeviceView.deviceData (Some unequal_campaigns))) /\
    h' !! desktopData
    = Some (AggregatedDeviceData.desktopData
              (DeviceView.deviceData (Some unequal_campaigns))) /\
    rows = AggregatedDeviceData.campaignDeviceBreakdown
             (DeviceView.deviceData (Some unequal_campaigns)).
Proof.
  refine (proj1 (proj2 (proj2 (proj2 (proj2 (proj2
            derived_rates_are_guarded))))) _ _ _
            device_store unequal_refs unequal_campaigns _).
  repeat constructor.
Defined.

(** * Further properties of the views and the charts *)

(** ** Arithmetic on the rationals *)

Lemma Qc_eq_this (x y : Qc) : x = y <-> (this x == this y)%Q.
Proof. split; [now intros ->|apply Qc_is_canon]. Qed.

(** Goals of linear arithmetic over [Qc], moved to [Q]. *)
Ltac qc_to_q :=
  unfold num, Qc_of_Z in *;
  repeat match goal with
  | H : @eq Qc _ _ |- _ => apply Qc_eq_this in H
  | H : ~ @eq Qc _ _ |- _ => rewrite Qc_eq_this in H
  | |- @eq Qc _ _ => apply Qc_eq_this
  | |- ~ @eq Qc _ _ => rewrite Qc_eq_this
  end;
  unfold Qcle, Qclt, Qcdiv, Qcminus, Qcinv, Qcmult, Qcplus, Qcopp in *;
  cbn [this Q2Qc] in *;
  repeat (setoid_rewrite Qred_correct);
  repeat match goal with
  | H : _ |- _ => setoid_rewrite Qred_correct in H
  end;
  unfold inject_Z in *.

Lemma positive_of_difference (x y : Qc) :
  (positive (y - x) = true -> x < y) /\ (positive (y - x) = false -> y ≤ x).
Proof.
  split; intros H.
  - apply positive_true in H. qc_to_q. Lqa.lra.
  - apply positive_false in H. qc_to_q. Lqa.lra.
Qed.

Lemma total_snoc {A : Type} (f : A -> Qc) (l : list A) (x : A) :
  total f (l ++ [x]) = total f l + f x.
Proof.
  induction l as [|y l IH]; unfold total in *; simpl.
  - ring.
  - rewrite IH. ring.
Qed.

Lemma total_perm {A : Type} (f : A -> Qc) (l l' : list A) :
  Permutation l l' -> total f l = total f l'.
Proof.
  induction 1 as [|x l l' _ IH|x y l|l1 l2 l3 _ IH1 _ IH2];
    unfold total in *; simpl.
  - reflexivity.
  - now rewrite IH.
  - ring.
  - now rewrite IH1.
Qed.

(** [reduce] adds from the left, [total] from the right: the same sum. *)
Lemma reduce_sum_total {A : Type} (f : A -> Qc) (l : list A) :
  reduce_sum f l = total f l.
Proof.
  unfold reduce_sum.
  assert (H : forall a, foldl (fun sum x => sum + f x) a l = a + total f l).
  { induction l as [|x l IH]; intros a; unfold total in *; simpl.
    - ring.
    - rewrite IH. ring. }
  rewrite H. ring.
Qed.

(** ** Sorting by a comparator that follows an order *)
Section SortedBy.
Context {A : Type} (after : A -> A -> bool) (R : A -> A -> Prop).
Hypothesis after_false : forall x y, after x y = false -> R x y.
Hypothesis after_true : forall x y, after x y = true -> R y x.
Hypothesis R_trans : forall x y z, R x y -> R y z -> R x z.

Lemma sort_insert_sorted_by (x : A) (l : list A) :
  StronglySorted R l -> StronglySorted R (sort_insert after x l).
Proof.
  induction 1 as [|y l Hs IH Hy]; simpl.
  - repeat constructor.
  - destruct (after x y) eqn:E.
    + constructor; [exact IH|].
      rewrite (sort_insert_perm after x l). constructor; [|exact Hy].
      now apply after_true.
    + constructor; [now constructor|].
      constructor; [now apply after_false|].
      eapply Forall_impl; [exact Hy|]. intros z Hz.
      eapply R_trans; [apply after_false, E|exact Hz].
Qed.

Lemma array_sort_sorted_by (l : list A) : StronglySorted R (array_sort after l).
Proof.
  induction l as [|x l IH]; simpl; [constructor|].
  now apply sort_insert_sorted_by.
Qed.

(** Stability: a class of elements that the comparator never reorders
    keeps its order. *)
Lemma array_sort_stable_by (P : A -> bool) (l : list A) :
  (forall x y, after x y = true -> P x = true -> P y = false) ->
  List.filter P (array_sort after l) = List.filter P l.
Proof.
  intros Hclass. induction l as [|x l IH]; simpl; [reflexivity|].
  rewrite <- IH. clear IH.
  induction (array_sort after l) as [|y s IHs]; simpl; [reflexivity|].
  destruct (after x y) eqn:E; simpl; [|reflexivity].
  rewrite IHs. destruct (P x) eqn:Px; [|reflexivity].
  now rewrite (Hclass x y E Px).
Qed.
End SortedBy.

(** A sorted sequence stays sorted under a coarser order. *)
Lemma StronglySorted_weaken {A : Type} (R R' : A -> A -> Prop) (l : list A) :
  (forall x y, x ∈ l -> y ∈ l -> R x y -> R' x y) ->
  StronglySorted R l -> StronglySorted R' l.
Proof.
  intros Himp Hs. induction Hs as [|x l Hs IH Hx]; constructor.
  - apply IH. intros a b Ha Hb. apply Himp; now right.
  - rewrite Forall_forall in *. intros y Hy.
    apply Himp; [left|now right|now apply Hx].
Qed.

(** ** Grouping keeps the totals *)
Section GroupTotals.
Context {T : Type} (key : T -> string) (merge : T -> T -> T) (f : T -> Qc).
Hypothesis merge_adds : forall e r, f (merge e r) = f e + f r.

Lemma total_values_set (m : JsMap.t T) (k : string) (e v : T) :
  JsMap.get m k = Some e ->
  total f (JsMap.values (JsMap.set m k v)) + f e
  = total f (JsMap.values m) + f v.
Proof.
  induction m as [|[k' v'] m IH]; simpl; [discriminate|].
  destruct (String.eqb k' k).
  - intros [= ->]. unfold total. simpl. ring.
  - intros Hg. specialize (IH Hg). unfold total in *. simpl.
    rewrite <- Qcplus_assoc, IH. ring.
Qed.

Lemma group_step_total (m : JsMap.t T) (r : T) :
  total f (JsMap.values (group_step key merge m r))
  = total f (JsMap.values m) + f r.
Proof.
  unfold group_step. destruct (JsMap.has m (key r)) eqn:Hhas; simpl.
  - apply has_get in Hhas as [e He]. rewrite He.
    pose proof (total_values_set m (key r) e (merge e r) He) as H.
    rewrite merge_adds in H.
    apply (Qcplus_inj_l (f e)). simpl. rewrite H. ring.
  - rewrite set_absent by exact Hhas. unfold JsMap.values.
    rewrite map_app. simpl. apply total_snoc.
Qed.

(** The entries of the rollup add up to what the records add up to. *)
Lemma group_fold_total (recs : list T) (m : JsMap.t T) :
  total f (JsMap.values (foldl (group_step key merge) m recs))
  = total f (JsMap.values m) + total f recs.
Proof.
  revert m. induction recs as [|r recs IH]; intros m; simpl.
  - change (total f []) with (Q2Qc 0). ring.
  - rewrite IH, group_step_total.
    change (total f (r :: recs)) with (f r + total f recs). ring.
Qed.
End GroupTotals.

(** Sorting by a numeric field, descending. *)
Lemma sort_by_field_desc_sorted {A : Type} (f : A -> Qc) (l : list A) :
  StronglySorted (fun a b => f b ≤ f a)
    (array_sort (fun a b => positive (f b - f a)) l).
Proof.
  apply array_sort_sorted_by.
  - intros x y H. now apply positive_of_difference.
  - intros x y H. apply Qclt_le_weak. now apply positive_of_difference.
  - intros x y z Hxy Hyz. eapply Qcle_trans; eassumption.
Qed.

Lemma sort_by_field_desc_stable {A : Type} (f : A -> Qc) (v : Qc) (l : list A) :
  List.filter (fun a => bool_decide (f a = v))
    (array_sort (fun a b => positive (f b - f a)) l)
  = List.filter (fun a => bool_decide (f a = v)) l.
Proof.
  apply array_sort_stable_by. intros x y H Hx.
  apply positive_of_difference in H. apply bool_decide_eq_true in Hx.
  apply bool_decide_eq_false. intros Hy. rewrite Hx, Hy in H.
  now apply Qclt_not_eq in H.
Qed.

Lemma StronglySorted_map {A B : Type} (g : A -> B) (R : A -> A -> Prop)
    (R' : B -> B -> Prop) (l : list A) :
  (forall x y, R x y -> R' (g x) (g y)) ->
  StronglySorted R l -> StronglySorted R' (map g l).
Proof.
  intros Himp. induction 1 as [|x l _ IH Hx]; simpl; constructor; [exact IH|].
  apply Forall_forall. intros y [z [-> Hz]]%list_elem_of_fmap.
  rewrite Forall_forall in Hx. now apply Himp, Hx.
Qed.

Lemma StronglySorted_app_order {A : Type} (R : A -> A -> Prop) (l1 l2 : list A) :
  StronglySorted R (l1 ++ l2) ->
  StronglySorted R l1 /\ forall x y, x ∈ l1 -> y ∈ l2 -> R x y.
Proof.
  induction l1 as [|a l1 IH]; simpl; intros Hs.
  - split; [constructor|]. intros x y Hx. inversion Hx.
  - apply StronglySorted_inv in Hs as [Hs Ha]. destruct (IH Hs) as [Hs1 Hord].
    rewrite Forall_forall in Ha. split.
    + constructor; [exact Hs1|]. apply Forall_forall. intros y Hy.
      apply Ha. apply elem_of_app. now left.
    + intros x y [->|Hx]%elem_of_cons Hy.
      * apply Ha. apply elem_of_app. now right.
      * now apply Hord.
Qed.

(** ** RegionView: order, summary and charts *)
Section RegionSummaryFacts.
Import RegionalPerformance.

Lemma region_values_perm {D V W : Type}
    (md : MarketingData.t D V W RegionalPerformance.t) :
  Permutation (RegionView.regionalData (Some md))
              (JsMap.values (RegionView.regionMap md)).
Proof. apply array_sort_perm. Qed.

Lemma region_values_keys {D V W : Type}
    (md : MarketingData.t D V W RegionalPerformance.t) :
  map region (JsMap.values (RegionView.regionMap md))
  = first_seen (map region (RegionView.records md)).
Proof.
  rewrite region_keys, regionMap_records, region_step_eq.
  apply group_fold_first_seen.
Qed.

Lemma region_sorted {D V W : Type}
    (md : MarketingData.t D V W RegionalPerformance.t) :
  StronglySorted (fun a b => revenue b ≤ revenue a)
                 (RegionView.regionalData (Some md)).
Proof. apply (sort_by_field_desc_sorted revenue). Qed.

Lemma region_field_total {D V W : Type}
    (md : MarketingData.t D V W RegionalPerformance.t)
    (f : RegionalPerformance.t -> Qc) :
  (forall e r, f (RegionView.merge e r) = f e + f r) ->
  total f (RegionView.regionalData (Some md)) = total f (RegionView.records md).
Proof.
  intros Hadd. rewrite (total_perm f _ _ (region_values_perm md)).
  rewrite regionMap_records, region_step_eq.
  rewrite (group_fold_total region RegionView.merge f Hadd).
  change (total f (JsMap.values JsMap.empty)) with (Q2Qc 0). ring.
Qed.
End RegionSummaryFacts.

(** X1.  The regional rollup is in descending order of revenue, and
    entries of equal revenue stand in the order in which their region
    keys were first met. *)
Theorem regional_rollup_sorted_by_revenue (md : Data) :
  let out := RegionView.regionalData (Some md) in
  StronglySorted (fun a b => RegionalPerformance.revenue b
                             ≤ RegionalPerformance.revenue a) out /\
  exists met,
    map RegionalPerformance.region met
      = first_seen (map RegionalPerformance.region (RegionView.records md)) /\
    Permutation out met /\
    forall v,
      List.filter (fun e => bool_decide (RegionalPerformance.revenue e = v)) out
      = List.filter (fun e => bool_decide (RegionalPerformance.revenue e = v)) met.
Proof.
  split; [apply region_sorted|].
  exists (JsMap.values (RegionView.regionMap md)).
  split; [apply region_values_keys|]. split; [apply region_values_perm|].
  intros v. apply (sort_by_field_desc_stable RegionalPerformance.revenue).
Qed.

(** X2.  The summary of the regional view counts the distinct region
    keys, and its total revenue and total spend are the sums over every
    regional record of every campaign: the grouping loses nothing.  On
    no data they are 0. *)
Theorem region_summary_totals (md : Data) :
  let s := RegionSummary.summaryMetrics (RegionView.regionalData (Some md)) in
  let recs := RegionView.records md in
  RegionSummary.totalRegions s
    = length (first_seen (map RegionalPerformance.region recs)) /\
  RegionSummary.totalRevenue s = total RegionalPerformance.revenue recs /\
  RegionSummary.totalSpend s = total RegionalPerformance.spend recs.
Proof.
  intros s recs. subst s recs.
  assert (Hlen : length (RegionView.regionalData (Some md))
                 = length (first_seen (map RegionalPerformance.region
                                           (RegionView.records md)))).
  { rewrite (Permutation_length (region_values_perm md)).
    rewrite <- region_values_keys. now rewrite length_map. }
  pose proof (region_field_total md RegionalPerformance.revenue
                (fun _ _ => eq_refl)) as Hrev.
  pose proof (region_field_total md RegionalPerformance.spend
                (fun _ _ => eq_refl)) as Hsp.
  unfold RegionSummary.summaryMetrics.
  destruct (RegionView.regionalData (Some md)) as [|e out] eqn:Hout.
  - simpl. split; [exact Hlen|]. split; [exact Hrev|exact Hsp].
  - simpl Nat.eqb. cbv iota. simpl. rewrite !reduce_sum_total.
    split; [exact Hlen|]. split; [exact Hrev|exact Hsp].
Qed.

(** X3.  The top region of the summary is the region of the first
    entry of the rollup, whose revenue no entry exceeds; it is "N/A" on
    no data, and also when that region's name is the empty string. *)
Theorem region_summary_top_region (md : Data) :
  let out := RegionView.regionalData (Some md) in
  let s := RegionSummary.summaryMetrics out in
  (out = [] -> RegionSummary.topRegion s = "N/A"%string) /\
  (forall top rest, out = top :: rest ->
     (forall e, e ∈ out ->
        RegionalPerformance.revenue e ≤ RegionalPerformance.revenue top) /\
     RegionSummary.topRegion s
       = if decide (RegionalPerformance.region top = ""%string)
         then "N/A"%string else RegionalPerformance.region top).
Proof.
  intros out s. subst s. pose proof (region_sorted md) as Hs. fold out in Hs.
  split.
  - intros ->. reflexivity.
  - intros top rest Hout. rewrite Hout in *. split.
    + apply StronglySorted_inv in Hs as [_ Hall]. rewrite Forall_forall in Hall.
      intros e [->|He]%elem_of_cons; [apply Qcle_refl|now apply Hall].
    + unfold RegionSummary.summaryMetrics. simpl.
      destruct (String.eqb_spec (RegionalPerformance.region top) "") as [E|E].
      * now rewrite decide_True.
      * now rewrite decide_False.
Qed.

Lemma region_summary_top_witness :
  RegionSummary.topRegion
    (RegionSummary.summaryMetrics
       (RegionView.regionalData (Some two_dubai_campaigns)))
  = "Dubai"%string.
Proof.
  exact (proj2 (proj2 (region_summary_top_region two_dubai_campaigns) _ _
                  eq_refl)).
Defined.

(** X4.  The bar chart "Revenue by Region" shows the first eight
    entries of the rollup, in their order: at most eight bars, with
    distinct labels, and no region that is left out has more revenue
    than a region that is shown. *)
Theorem region_revenue_chart_top_eight (md : Data) :
  let out := RegionView.regionalData (Some md) in
  let chart := RegionSummary.revenueChart out in
  length chart = Nat.min 8 (length out) /\
  map BarChartDataPoint.label chart
    = map RegionalPerformance.region (take 8 out) /\
  map BarChartDataPoint.value chart
    = map RegionalPerformance.revenue (take 8 out) /\
  NoDup (map BarChartDataPoint.label chart) /\
  (forall e e', e ∈ take 8 out -> e' ∈ drop 8 out ->
     RegionalPerformance.revenue e' ≤ RegionalPerformance.revenue e).
Proof.
  intros out chart. subst chart. unfold RegionSummary.revenueChart.
  assert (Hlab : map BarChartDataPoint.label
                   (map (fun r => BarChartDataPoint.mk
                           (RegionalPerformance.region r)
                           (RegionalPerformance.revenue r) "#10B981")
                        (take 8 out))
                 = map RegionalPerformance.region (take 8 out)).
  { rewrite map_map. reflexivity. }
  split; [now rewrite length_map, length_take|].
  split; [exact Hlab|]. split; [now rewrite map_map|]. split.
  - rewrite Hlab.
    assert (Hnd : NoDup (map RegionalPerformance.region out)).
    { subst out. rewrite (region_values_perm md), region_values_keys.
      apply first_seen_NoDup. }
    rewrite <- (take_drop 8 out), map_app in Hnd.
    now apply NoDup_app in Hnd as [Hnd _].
  - pose proof (region_sorted md) as Hs. fold out in Hs.
    rewrite <- (take_drop 8 out) in Hs.
    apply StronglySorted_app_order in Hs as [_ Hord].
    intros e e' He He'. now apply Hord.
Qed.

(** X5.  The bar charts "ROAS", "Conversions" and "CTR by Region" show
    the same first eight entries of the rollup, put in descending order
    of the charted field. *)
Theorem region_sorted_charts_reorder_top_eight (md : Data)
    (f : RegionalPerformance.t -> Qc) (color : string) :
  let out := RegionView.regionalData (Some md) in
  let chart := RegionSummary.sortedChart f color out in
  length chart = Nat.min 8 (length out) /\
  Permutation chart
    (map (fun r => BarChartDataPoint.mk (RegionalPerformance.region r) (f r) color)
         (take 8 out)) /\
  StronglySorted (fun p q => BarChartDataPoint.value q ≤ BarChartDataPoint.value p)
                 chart.
Proof.
  intros out chart. subst chart. unfold RegionSummary.sortedChart.
  split; [|split].
  - rewrite length_map.
    rewrite (Permutation_length (array_sort_perm _ (take 8 out))).
    apply length_take.
  - apply Permutation_map, array_sort_perm.
  - eapply StronglySorted_map; [|apply (sort_by_field_desc_sorted f)].
    intros x y H. exact H.
Qed.

(** X6.  A region that exactly one record reports is in the rollup as
    that record, field by field: its rates are the ones the record
    carries and are not recomputed. *)
Theorem regional_single_record_kept (md : Data) (r : RegionalPerformance.t) :
  keyed RegionalPerformance.region (RegionalPerformance.region r)
        (RegionView.records md) = [r] ->
  r ∈ RegionView.regionalData (Some md).
Proof.
  intros Hg. apply region_entry. exists r, []. split; [exact Hg|reflexivity].
Qed.

Lemma regional_single_record_witness :
  dubai_first
  ∈ RegionView.regionalData
      (Some (MarketingData.mk
               [Campaign.mk "Summer" (num 100) (num 200) None None None
                  (Some [dubai_first])] : Data)).
Proof. apply regional_single_record_kept. reflexivity. Defined.

(** ** WeeklyView: summary *)
Section WeeklySummaryFacts.
Import WeeklyPerformance.

Lemma week_values_perm {D V G : Type} (getTime : string -> option Z)
    (md : MarketingData.t D V WeeklyPerformance.t G) :
  Permutation (WeeklyView.weeklyData getTime (Some md))
              (JsMap.values (WeeklyView.weekMap md)).
Proof. apply array_sort_perm. Qed.

Lemma week_field_total {D V G : Type} (getTime : string -> option Z)
    (md : MarketingData.t D V WeeklyPerformance.t G)
    (f : WeeklyPerformance.t -> Qc) :
  (forall e r, f (WeeklyView.merge e r) = f e + f r) ->
  total f (WeeklyView.weeklyData getTime (Some md))
  = total f (WeeklyView.records md).
Proof.
  intros Hadd. rewrite (total_perm f _ _ (week_values_perm getTime md)).
  rewrite weekMap_records, week_step_eq.
  rewrite (group_fold_total week_start WeeklyView.merge f Hadd).
  change (total f (JsMap.values JsMap.empty)) with (Q2Qc 0). ring.
Qed.

Lemma week_count {D V G : Type} (getTime : string -> option Z)
    (md : MarketingData.t D V WeeklyPerformance.t G) :
  length (WeeklyView.weeklyData getTime (Some md))
  = length (first_seen (map week_start (WeeklyView.records md))).
Proof.
  rewrite (Permutation_length (week_values_perm getTime md)).
  rewrite <- week_keys. now rewrite length_map.
Qed.
End WeeklySummaryFacts.

Lemma num_of_nat_nonzero (n : nat) : n <> 0%nat -> num (Z.of_nat n) <> 0.
Proof.
  intros Hn H. unfold num in H. rewrite <- Z2Qc_inj_0 in H.
  apply Z2Qc_inj in H. lia.
Qed.

(** X7.  The four totals of the weekly summary are the sums over every
    weekly record of every campaign; each of the two averages times the
    number of distinct weeks is its total; and on no data everything is
    0, the averages without a division. *)
Theorem weekly_summary_totals_and_averages (getTime : string -> option Z) (md : Data) :
  let out := WeeklyView.weeklyData getTime (Some md) in
  let s := WeeklySummary.summaryMetrics out in
  let recs := WeeklyView.records md in
  let weeks := length (first_seen (map WeeklyPerformance.week_start recs)) in
  (WeeklySummary.totalRevenue s = total WeeklyPerformance.revenue recs /\
   WeeklySummary.totalSpend s = total WeeklyPerformance.spend recs /\
   WeeklySummary.totalConversions s = total WeeklyPerformance.conversions recs /\
   WeeklySummary.totalClicks s = total WeeklyPerformance.clicks recs) /\
  (WeeklySummary.averageWeeklyRevenue s * num (Z.of_nat weeks)
     = WeeklySummary.totalRevenue s /\
   WeeklySummary.averageWeeklySpend s * num (Z.of_nat weeks)
     = WeeklySummary.totalSpend s) /\
  (recs = [] ->
   WeeklySummary.averageWeeklyRevenue s = 0 /\
   WeeklySummary.averageWeeklySpend s = 0).
Proof.
  intros out s recs weeks. subst s recs weeks.
  pose proof (week_count getTime md) as Hlen. fold out in Hlen.
  pose proof (week_field_total getTime md WeeklyPerformance.revenue
                (fun _ _ => eq_refl)) as Hrev.
  pose proof (week_field_total getTime md WeeklyPerformance.spend
                (fun _ _ => eq_refl)) as Hsp.
  pose proof (week_field_total getTime md WeeklyPerformance.conversions
                (fun _ _ => eq_refl)) as Hcv.
  pose proof (week_field_total getTime md WeeklyPerformance.clicks
                (fun _ _ => eq_refl)) as Hcl.
  fold out in Hrev, Hsp, Hcv, Hcl. rewrite <- Hlen.
  unfold WeeklySummary.summaryMetrics.
  destruct out as [|e out'] eqn:Hout.
  - simpl. split; [tauto|]. split; [split; ring|]. tauto.
  - simpl Nat.eqb. cbv iota. rewrite !reduce_sum_total. simpl.
    split; [tauto|]. split.
    + split; field; apply (num_of_nat_nonzero (S (length out'))); lia.
    + intros Hrecs. exfalso.
      rewrite Hrecs in Hlen. simpl in Hlen. discriminate.
Qed.

(** ** Campaigns without a breakdown *)

Lemma foldl_skip {A B : Type} (f : A -> B -> A) (a : A)
    (before after : list B) (c : B) :
  (forall s, f s c = s) ->
  foldl f a (before ++ c :: after) = foldl f a (before ++ after).
Proof. intros H. rewrite !foldl_app. simpl. now rewrite H. Qed.

(** X8.  A campaign that carries no breakdown of a kind, or an empty
    one, contributes nothing to the rollup of that kind, wherever it
    stands among the campaigns: the result is the one of the snapshot
    without the campaign. *)
Theorem campaign_without_breakdown_is_skipped (getTime : string -> option Z)
    (before after : list CampaignData) (c : CampaignData) :
  let with_c : Data := MarketingData.mk (before ++ c :: after) in
  let without : Data := MarketingData.mk (before ++ after) in
  (default [] (Campaign.regional_performance c) = [] ->
   RegionView.regionalData (Some with_c)
   = RegionView.regionalData (Some without)) /\
  (default [] (Campaign.weekly_performance c) = [] ->
   WeeklyView.weeklyData getTime (Some with_c)
   = WeeklyView.weeklyData getTime (Some without)) /\
  (default [] (Campaign.device_performance c) = [] ->
   DeviceView.deviceData (Some with_c)
   = DeviceView.deviceData (Some without)) /\
  (default [] (Campaign.demographic_breakdown c) = [] ->
   DemographicView.demographicData (Some with_c)
   = DemographicView.demographicData (Some without)).
Proof.
  intros with_c without. subst with_c without. repeat split; intros Hc.
  - unfold RegionView.regionalData, RegionView.regionMap. simpl.
    rewrite foldl_skip; [reflexivity|]. intros s.
    unfold RegionView.campaign_step.
    destruct (Campaign.regional_performance c) as [l|]; [|reflexivity].
    simpl in Hc. now subst l.
  - unfold WeeklyView.weeklyData, WeeklyView.weekMap. simpl.
    rewrite foldl_skip; [reflexivity|]. intros s.
    unfold WeeklyView.campaign_step.
    destruct (Campaign.weekly_performance c) as [l|]; [|reflexivity].
    simpl in Hc. now subst l.
  - unfold DeviceView.deviceData, DeviceView.accumulated. simpl.
    rewrite foldl_skip; [reflexivity|]. intros s.
    unfold DeviceView.campaign_step.
    destruct (Campaign.device_performance c) as [l|]; [|reflexivity].
    simpl in Hc. now subst l.
  - unfold DemographicView.demographicData. simpl.
    rewrite foldl_skip; [reflexivity|]. intros s.
    unfold DemographicView.campaign_step.
    destruct (Campaign.demographic_breakdown c) as [l|]; [|reflexivity].
    simpl in Hc. now subst l.
Qed.

(** ** DeviceView: detail rows, return on ad spend, traffic shares *)
Section DeviceSummaryFacts.
Import DevicePerformance.

Lemma device_rows_steps (name : string) (ds : list DevicePerformance.t)
    (s : DeviceView.acc) :
  DeviceView.campaignBreakdown (foldl (DeviceView.step name) s ds)
  = DeviceView.campaignBreakdown s ++ map (DeviceView.breakdown_row name) ds.
Proof.
  revert s. induction ds as [|d ds IH]; intros s; simpl.
  - now rewrite app_nil_r.
  - rewrite IH. unfold DeviceView.step. simpl. rewrite <- app_assoc. simpl.
    destruct (String.eqb _ "Mobile"); [reflexivity|].
    destruct (String.eqb _ "Desktop"); reflexivity.
Qed.

Lemma device_rows_campaigns {D W G : Type}
    (cs : list (Campaign.t D DevicePerformance.t W G)) (s : DeviceView.acc) :
  DeviceView.campaignBreakdown (foldl DeviceView.campaign_step s cs)
  = DeviceView.campaignBreakdown s
    ++ map (fun p => DeviceView.breakdown_row (fst p) (snd p))
         (flat_map (fun c => map (pair (Campaign.name c))
                               (default [] (Campaign.device_performance c))) cs).
Proof.
  revert s. induction cs as [|c cs IH]; intros s; simpl.
  - now rewrite app_nil_r.
  - rewrite IH, map_app, app_assoc. f_equal.
    unfold DeviceView.campaign_step.
    destruct (Campaign.device_performance c) as [ds|]; simpl.
    + rewrite device_rows_steps, map_map. reflexivity.
    + now rewrite app_nil_r.
Qed.

Lemma ratio_bounds (n d : Qc) :
  0 < d -> 0 ≤ n -> n ≤ d -> 0 ≤ n / d /\ n / d ≤ 1.
Proof.
  intros Hd Hn Hnd.
  assert (Hne : d <> 0).
  { intros E. rewrite E in Hd. now apply Qclt_not_eq in Hd. }
  assert (Hq : n / d * d = n) by (field; exact Hne).
  split.
  - apply (Qcmult_lt_0_le_reg_r _ _ d Hd). rewrite Hq.
    now rewrite Qcmult_0_l.
  - apply (Qcmult_lt_0_le_reg_r _ _ d Hd). rewrite Hq.
    now rewrite Qcmult_1_l.
Qed.

Lemma guarded_percent_bounds (n d : Qc) :
  0 ≤ n -> n ≤ d -> 0 ≤ guarded_percent n d /\ guarded_percent n d ≤ num 100.
Proof.
  intros Hn Hnd. unfold guarded_percent.
  destruct (positive d) eqn:Hp.
  - apply positive_true in Hp.
    destruct (ratio_bounds n d Hp Hn Hnd) as [H0 H1].
    revert H0 H1. generalize (n / d). intros q H0 H1.
    split; qc_to_q; Lqa.lra.
  - split; qc_to_q; Lqa.lra.
Qed.
End DeviceSummaryFacts.

(** X9.  The detail table of the device view has one row per device
    record of every campaign, in the order of the campaigns and of their
    records, with the name of the campaign; a record of a device other
    than Mobile and Desktop has its row as well, although it is added to
    neither bucket. *)
Theorem device_detail_rows_cover_every_record (md : Data) :
  let out := DeviceView.deviceData (Some md) in
  let rows := AggregatedDeviceData.campaignDeviceBreakdown out in
  rows = map (fun p => DeviceView.breakdown_row (fst p) (snd p))
             (DeviceSummary.named_records md) /\
  map CampaignDeviceBreakdown.device rows
  = map DevicePerformance.device (DeviceView.records md) /\
  (forall d, d ∈ DeviceView.records md ->
     DevicePerformance.device d <> "Mobile" ->
     DevicePerformance.device d <> "Desktop" ->
     (d ∉ DeviceView.of_device "Mobile" (DeviceView.records md)) /\
     (d ∉ DeviceView.of_device "Desktop" (DeviceView.records md)) /\
     exists row, row ∈ rows /\
       CampaignDeviceBreakdown.device row = DevicePerformance.device d /\
       CampaignDeviceBreakdown.impressions row = DevicePerformance.impressions d).
Proof.
  intros out rows.
  assert (Hrows : rows = map (fun p => DeviceView.breakdown_row (fst p) (snd p))
                             (DeviceSummary.named_records md)).
  { subst rows out. simpl. unfold DeviceView.accumulated.
    rewrite device_rows_campaigns. reflexivity. }
  assert (Hdev : map CampaignDeviceBreakdown.device rows
                 = map DevicePerformance.device (DeviceView.records md)).
  { rewrite Hrows. unfold DeviceSummary.named_records, DeviceView.records.
    induction (MarketingData.campaigns md) as [|c cs IH]; simpl; [reflexivity|].
    rewrite !map_app, IH. f_equal. rewrite !map_map. reflexivity. }
  split; [exact Hrows|]. split; [exact Hdev|].
  intros d Hd Hm Hk. split; [|split].
  - unfold DeviceView.of_device. rewrite list_elem_of_filter. tauto.
  - unfold DeviceView.of_device. rewrite list_elem_of_filter. tauto.
  - assert (Hex : exists name, (name, d) ∈ DeviceSummary.named_records md).
    { unfold DeviceView.records in Hd. unfold DeviceSummary.named_records.
      apply list_elem_of_In, in_flat_map in Hd as (c & Hc & Hd).
      exists (Campaign.name c). apply list_elem_of_In, in_flat_map.
      exists c. split; [exact Hc|]. now apply in_map. }
    destruct Hex as [name Hin].
    exists (DeviceView.breakdown_row name d). split; [|split; reflexivity].
    rewrite Hrows. apply list_elem_of_fmap. now exists (name, d).
Qed.

(** X10.  The return on ad spend shown for Mobile and for Desktop is
    the summed revenue of the device's records over their summed spend,
    and 0 when the summed spend is not positive. *)
Theorem device_roas_from_sums (md : Data) :
  let out := DeviceView.deviceData (Some md) in
  let recs := DeviceView.records md in
  DeviceSummary.mobileROAS out
  = guarded_ratio
      (total DevicePerformance.revenue (DeviceView.of_device "Mobile" recs))
      (total DevicePerformance.spend (DeviceView.of_device "Mobile" recs)) /\
  DeviceSummary.desktopROAS out
  = guarded_ratio
      (total DevicePerformance.revenue (DeviceView.of_device "Desktop" recs))
      (total DevicePerformance.spend (DeviceView.of_device "Desktop" recs)).
Proof.
  intros out recs. subst out recs.
  destruct (device_accumulated md)
    as [(_ & _ & _ & Hms & Hmr) (_ & _ & _ & Hds & Hdr)].
  unfold DeviceSummary.mobileROAS, DeviceSummary.desktopROAS. simpl.
  now rewrite Hms, Hmr, Hds, Hdr.
Qed.

(** X11.  When no device record has negative impressions, the traffic
    share of Mobile and the one of Desktop both lie between 0 and 100. *)
Theorem device_traffic_share_bounds (md : Data) :
  Forall (fun d => 0 ≤ DevicePerformance.impressions d) (DeviceView.records md) ->
  let out := DeviceView.deviceData (Some md) in
  let mobile := AggregatedDeviceData.mobileData out in
  let desktop := AggregatedDeviceData.desktopData out in
  (0 ≤ DevicePerformance.percentage_of_traffic mobile /\
   DevicePerformance.percentage_of_traffic mobile ≤ num 100) /\
  (0 ≤ DevicePerformance.percentage_of_traffic desktop /\
   DevicePerformance.percentage_of_traffic desktop ≤ num 100).
Proof.
  intros Hall. simpl.
  destruct (device_accumulated md) as [(Hm & _) (Hd & _)].
  assert (Hnn : forall name,
            0 ≤ total DevicePerformance.impressions
                  (DeviceView.of_device name (DeviceView.records md))).
  { intros name. apply total_nonneg. apply Forall_forall. intros d Hin.
    unfold DeviceView.of_device in Hin.
    apply list_elem_of_filter in Hin as [_ Hin].
    rewrite Forall_forall in Hall. now apply Hall. }
  pose proof (Hnn "Mobile") as H1. pose proof (Hnn "Desktop") as H2.
  rewrite <- Hm in H1. rewrite <- Hd in H2.
  revert H1 H2.
  generalize (DevicePerformance.impressions
                (DeviceView.mobileAgg (DeviceView.accumulated md))).
  generalize (DevicePerformance.impressions
                (DeviceView.desktopAgg (DeviceView.accumulated md))).
  intros d m H1 H2.
  split; apply guarded_percent_bounds; try assumption; qc_to_q; Lqa.lra.
Qed.

Lemma device_traffic_share_witness :
  let out := DeviceView.deviceData (Some unequal_campaigns) in
  0 ≤ DevicePerformance.percentage_of_traffic (AggregatedDeviceData.mobileData out)
  /\ DevicePerformance.percentage_of_traffic (AggregatedDeviceData.mobileData out)
     ≤ num 100.
Proof.
  refine (proj1 (device_traffic_share_bounds unequal_campaigns _)).
  repeat constructor; vm_compute; discriminate.
Defined.

(** ** DemographicView: gender tables and age groups *)
Section DemographicSummaryFacts.
Import DemographicBreakdown AggregatedDemographicData DemographicView.
Import DemographicSummary.
Context {V W G : Type}.
Local Abbreviation campaign_t := (Campaign.t DemographicBreakdown.t V W G).
Local Abbreviation run pairs s :=
  (foldl (fun a (p : campaign_t * DemographicBreakdown.t) =>
            step (fst p) a (snd p)) s pairs).

(** The click totals and the two tables after any number of slices. *)
Lemma demographic_gender_rows
    (pairs : list (campaign_t * DemographicBreakdown.t))
    (s : AggregatedDemographicData.t) :
  let s' := run pairs s in
  let clicked := fun p : campaign_t * DemographicBreakdown.t =>
                   clicks (performance (snd p)) in
  let row := fun p : campaign_t * DemographicBreakdown.t =>
               performance_row (Campaign.name (fst p)) (snd p) in
  maleClicks s' = maleClicks s + total clicked (of_gender "Male" pairs) /\
  femaleClicks s' = femaleClicks s + total clicked (of_gender "Female" pairs) /\
  maleAgeGroupPerformance s'
    = maleAgeGroupPerformance s ++ map row (of_gender "Male" pairs) /\
  femaleAgeGroupPerformance s'
    = femaleAgeGroupPerformance s ++ map row (of_gender "Female" pairs).
Proof.
  revert s. induction pairs as [|[c d] pairs IH]; intros s; simpl.
  - unfold total; simpl. rewrite !Qcplus_0_r, !app_nil_r. tauto.
  - destruct (IH (step c s d)) as (H1 & H2 & H3 & H4).
    simpl in H1, H2, H3, H4. rewrite H1, H2, H3, H4.
    unfold of_gender. rewrite !filter_cons. simpl.
    unfold step, gender_step, age_group_step.
    destruct (String.eqb_spec (gender d) "Male") as [E|E].
    + rewrite decide_True by exact E.
      rewrite decide_False by (rewrite E; discriminate).
      destruct (JsObject.falsy _ _); unfold total; simpl; rewrite <- ?app_assoc;
        repeat split; ring.
    + rewrite decide_False by exact E.
      destruct (String.eqb_spec (gender d) "Female") as [E'|E'].
      * rewrite decide_True by exact E'.
        destruct (JsObject.falsy _ _); unfold total; simpl; rewrite <- ?app_assoc;
          repeat split; ring.
      * rewrite decide_False by exact E'.
        destruct (JsObject.falsy _ _); simpl; tauto.
Qed.

Lemma jsobject_set_lookup (o : JsObject.t) (k k' : string)
    (v : JsObject.value) :
  JsObject.set o k v !! k'
  = if decide (k' = k)
    then if String.eqb k "__proto__" then o !! k else Some v
    else o !! k'.
Proof.
  unfold JsObject.set. destruct (decide (k' = k)) as [->|Hne].
  - destruct (String.eqb k "__proto__"); [reflexivity|].
    apply lookup_insert_eq.
  - destruct (String.eqb k "__proto__"); [reflexivity|].
    apply lookup_insert_ne. congruence.
Qed.

Lemma jsobject_add_lookup (o : JsObject.t) (k k' : string) (v : Qc) :
  JsObject.add o k v !! k'
  = if decide (k' = k)
    then if String.eqb k "__proto__" then o !! k
         else Some (JsObject.plus (JsObject.read (o !! k) k) v)
    else o !! k'.
Proof. unfold JsObject.add. apply jsobject_set_lookup. Qed.

Lemma inherited_proto (k : string) :
  JsObject.inherited k = false -> String.eqb k "__proto__" = false.
Proof.
  intros H. destruct (String.eqb_spec k "__proto__") as [->|]; [|reflexivity].
  discriminate.
Qed.

(** The entries of the two age-group objects after one slice, from the
    entries before it. *)
Lemma step_age_group_spend (c : campaign_t)
    (s : AggregatedDemographicData.t) (d : DemographicBreakdown.t) (k : string) :
  let key := age_group d in
  let own := ageGroupSpend s !! key in
  ageGroupSpend (step c s d) !! k
  = if decide (k = key)
    then if String.eqb key "__proto__" then own
         else Some (JsObject.plus
                      (JsObject.read
                         (if JsObject.truthy (JsObject.read own key)
                          then own else Some (JsObject.Num 0)) key)
                      (demoSpend c d))
    else ageGroupSpend s !! k.
Proof.
  intros key own. subst key own.
  assert (Hm : ageGroupSpend (gender_step (Campaign.name c) (demoSpend c d)
                                (demoRevenue c d) s d) = ageGroupSpend s).
  { unfold gender_step. destruct (String.eqb _ "Male"); [reflexivity|].
    destruct (String.eqb _ "Female"); reflexivity. }
  unfold step, age_group_step. rewrite Hm.
  unfold JsObject.falsy, JsObject.get.
  destruct (JsObject.truthy _); simpl; rewrite jsobject_add_lookup.
  - reflexivity.
  - rewrite !jsobject_set_lookup.
    destruct (decide (k = age_group d)) as [->|Hne].
    + rewrite decide_True by reflexivity.
      destruct (String.eqb (age_group d) "__proto__"); reflexivity.
    + reflexivity.
Qed.

Lemma step_age_group_revenue (c : campaign_t)
    (s : AggregatedDemographicData.t) (d : DemographicBreakdown.t) (k : string) :
  let key := age_group d in
  let own := ageGroupRevenue s !! key in
  ageGroupRevenue (step c s d) !! k
  = if decide (k = key)
    then if String.eqb key "__proto__" then own
         else Some (JsObject.plus
                      (JsObject.read
                         (if JsObject.truthy
                               (JsObject.read (ageGroupSpend s !! key) key)
                          then own else Some (JsObject.Num 0)) key)
                      (demoRevenue c d))
    else ageGroupRevenue s !! k.
Proof.
  intros key own. subst key own.
  assert (Hm : ageGroupSpend (gender_step (Campaign.name c) (demoSpend c d)
                                (demoRevenue c d) s d) = ageGroupSpend s /\
               ageGroupRevenue (gender_step (Campaign.name c) (demoSpend c d)
                                  (demoRevenue c d) s d) = ageGroupRevenue s).
  { unfold gender_step. destruct (String.eqb _ "Male"); [tauto|].
    destruct (String.eqb _ "Female"); tauto. }
  destruct Hm as [Hs Hr].
  unfold step, age_group_step. rewrite Hs, Hr.
  unfold JsObject.falsy, JsObject.get.
  destruct (JsObject.truthy _); simpl; rewrite jsobject_add_lookup.
  - reflexivity.
  - rewrite !jsobject_set_lookup.
    destruct (decide (k = age_group d)) as [->|Hne].
    + rewrite decide_True by reflexivity.
      destruct (String.eqb (age_group d) "__proto__"); reflexivity.
    + reflexivity.
Qed.

(** Under a name that is not inherited the two entries of an age
    group are both missing or both numbers. *)
Local Abbreviation numeric_at k s :=
  ((ageGroupSpend s !! k = None /\ ageGroupRevenue s !! k = None) \/
   (exists q r, ageGroupSpend s !! k = Some (JsObject.Num q) /\
                ageGroupRevenue s !! k = Some (JsObject.Num r))).

(** A slice under a name that is not inherited adds its amounts to the
    numbers kept for its age group, which start again from 0 when the
    spend kept is missing or 0. *)
Lemma step_age_group_adds (c : campaign_t)
    (s : AggregatedDemographicData.t) (d : DemographicBreakdown.t) :
  let key := age_group d in
  JsObject.inherited key = false -> numeric_at key s ->
  ageGroupSpend (step c s d) !! key
  = Some (JsObject.Num (JsObject.number (ageGroupSpend s !! key)
                        + demoSpend c d)) /\
  ageGroupRevenue (step c s d) !! key
  = Some (JsObject.Num
            ((if JsObject.falsy (ageGroupSpend s) key then 0
              else JsObject.number (ageGroupRevenue s !! key))
             + demoRevenue c d)).
Proof.
  intros key Hk Hnum. subst key.
  rewrite step_age_group_spend, step_age_group_revenue. cbv zeta.
  rewrite !decide_True by reflexivity. rewrite (inherited_proto _ Hk).
  unfold JsObject.falsy, JsObject.get.
  destruct Hnum as [[Hs Hr]|(q & r & Hs & Hr)]; rewrite Hs, ?Hr; simpl.
  - rewrite Hk. simpl. tauto.
  - destruct (bool_decide (q = 0)) eqn:E; simpl; [|tauto].
    apply bool_decide_eq_true in E. subst q. tauto.
Qed.





Lemma of_age_group_snoc (k : string)
    (pairs : list (campaign_t * DemographicBreakdown.t))
    (p : campaign_t * DemographicBreakdown.t) :
  of_age_group k (pairs ++ [p])
  = of_age_group k pairs
    ++ (if decide (age_group (snd p) = k) then [p] else []).
Proof.
  unfold of_age_group. rewrite filter_app. reflexivity.
Qed.

Lemma total_positive {A : Type} (f : A -> Qc) (l : list A) :
  l <> [] -> Forall (fun x => 0 < f x) l -> 0 < total f l.
Proof.
  intros Hne Hall. destruct Hall as [|x l Hx Hl]; [congruence|].
  assert (H0 : 0 ≤ total f l).
  { apply total_nonneg. eapply Forall_impl; [exact Hl|].
    intros y Hy. now apply Qclt_le_weak. }
  change (total f (x :: l)) with (f x + total f l).
  revert Hx H0. generalize (f x) (total f l). intros a b Ha Hb.
  qc_to_q. Lqa.lra.
Qed.

(** The age-group objects after the slices [pairs], all with a positive
    allocated spend, starting from the empty objects. *)
Lemma age_groups_positive_spend
    (pairs : list (campaign_t * DemographicBreakdown.t)) (k : string) :
  JsObject.inherited k = false ->
  Forall (fun p => 0 < demoSpend (fst p) (snd p)) pairs ->
  let s := run pairs initial in
  let group := of_age_group k pairs in
  (group = [] ->
   ageGroupSpend s !! k = None /\ ageGroupRevenue s !! k = None) /\
  (group <> [] ->
   ageGroupSpend s !! k
   = Some (JsObject.Num (total (fun p => demoSpend (fst p) (snd p)) group)) /\
   ageGroupRevenue s !! k
   = Some (JsObject.Num (total (fun p => demoRevenue (fst p) (snd p)) group))).
Proof.
  intros Hk. induction pairs as [|[c d] pairs IH] using rev_ind; intros Hall;
    cbv zeta.
  - split; [|intros H; now destruct H]. intros _. split; apply lookup_empty.
  - apply Forall_app in Hall as [Hall Hp].
    apply Forall_cons in Hp as [Hp _]. simpl in Hp.
    rewrite foldl_app. simpl. rewrite of_age_group_snoc. simpl.
    destruct (IH Hall) as [Hnone Hsome]. cbv zeta in Hnone, Hsome.
    destruct (decide (age_group d = k)) as [E|Hne].
    + split; [intros E'; now apply app_eq_nil in E' as [_ E']|]. intros _.
      subst k. rewrite !total_snoc. simpl.
      destruct (of_age_group (age_group d) pairs) as [|q group] eqn:Hg.
      * destruct Hnone as [Hs Hr]; [reflexivity|].
        destruct (step_age_group_adds c (run pairs initial) d Hk) as [H1 H2];
          [now left|].
        rewrite H1, H2. unfold JsObject.falsy, JsObject.get.
        rewrite Hs. simpl. rewrite Hk. simpl. tauto.
      * destruct Hsome as [Hs Hr]; [congruence|].
        assert (Hpos : 0 < total (fun p => demoSpend (fst p) (snd p)) (q :: group)).
        { apply total_positive; [congruence|]. rewrite <- Hg.
          apply Forall_forall. intros x Hx. unfold of_age_group in Hx.
          apply list_elem_of_filter in Hx as [_ Hx].
          rewrite Forall_forall in Hall. now apply Hall. }
        destruct (step_age_group_adds c (run pairs initial) d Hk) as [H1 H2];
          [right; eauto|].
        rewrite H1, H2. unfold JsObject.falsy, JsObject.get.
        rewrite Hs, Hr. simpl.
        rewrite bool_decide_eq_false_2; [simpl; tauto|].
        intros E. apply Qclt_not_eq in Hpos. apply Hpos. now rewrite <- E.
    + rewrite app_nil_r.
      rewrite step_age_group_spend, step_age_group_revenue. cbv zeta.
      rewrite !decide_False by congruence. split; assumption.
Qed.

(** Two states whose age-group objects have the same entries. *)
Lemma step_age_groups_agree (c : campaign_t)
    (s1 s2 : AggregatedDemographicData.t) (d : DemographicBreakdown.t) :
  (forall k, ageGroupSpend s1 !! k = ageGroupSpend s2 !! k) ->
  (forall k, ageGroupRevenue s1 !! k = ageGroupRevenue s2 !! k) ->
  (forall k, ageGroupSpend (step c s1 d) !! k = ageGroupSpend (step c s2 d) !! k) /\
  (forall k, ageGroupRevenue (step c s1 d) !! k
             = ageGroupRevenue (step c s2 d) !! k).
Proof.
  intros Hs Hr. split; intros k.
  - rewrite !step_age_group_spend. cbv zeta. rewrite !Hs. reflexivity.
  - rewrite !step_age_group_revenue. cbv zeta. rewrite !Hs, !Hr. reflexivity.
Qed.

Lemma run_age_groups_agree
    (pairs : list (campaign_t * DemographicBreakdown.t))
    (s1 s2 : AggregatedDemographicData.t) :
  (forall k, ageGroupSpend s1 !! k = ageGroupSpend s2 !! k) ->
  (forall k, ageGroupRevenue s1 !! k = ageGroupRevenue s2 !! k) ->
  (forall k, ageGroupSpend (run pairs s1) !! k
             = ageGroupSpend (run pairs s2) !! k) /\
  (forall k, ageGroupRevenue (run pairs s1) !! k
             = ageGroupRevenue (run pairs s2) !! k).
Proof.
  revert s1 s2. induction pairs as [|[c d] pairs IH]; intros s1 s2 Hs Hr;
    simpl; [tauto|].
  destruct (step_age_groups_agree c s1 s2 d Hs Hr) as [Hs' Hr'].
  now apply IH.
Qed.

(** Two states that differ in the age group [k0] only, where the spend
    entry of both is missing or 0: once a slice of [k0] has been
    processed the age-group objects agree. *)
Lemma run_age_groups_reset (k0 : string)
    (pairs : list (campaign_t * DemographicBreakdown.t))
    (s1 s2 : AggregatedDemographicData.t) :
  JsObject.inherited k0 = false ->
  (forall k, k <> k0 -> ageGroupSpend s1 !! k = ageGroupSpend s2 !! k) ->
  (forall k, k <> k0 -> ageGroupRevenue s1 !! k = ageGroupRevenue s2 !! k) ->
  JsObject.falsy (ageGroupSpend s1) k0 = true ->
  JsObject.falsy (ageGroupSpend s2) k0 = true ->
  of_age_group k0 pairs <> [] ->
  (forall k, ageGroupSpend (run pairs s1) !! k
             = ageGroupSpend (run pairs s2) !! k) /\
  (forall k, ageGroupRevenue (run pairs s1) !! k
             = ageGroupRevenue (run pairs s2) !! k).
Proof.
  intros Hk0. revert s1 s2. induction pairs as [|[c d] pairs IH];
    intros s1 s2 Hs Hr Hf1 Hf2 Hne; [now destruct Hne|].
  simpl. destruct (decide (age_group d = k0)) as [E|E].
  - unfold JsObject.falsy, JsObject.get in Hf1, Hf2.
    apply negb_true_iff in Hf1, Hf2.
    apply run_age_groups_agree; intros k.
    + rewrite !step_age_group_spend. cbv zeta.
      destruct (decide (k = age_group d)) as [->|Hk].
      * rewrite E, Hf1, Hf2, (inherited_proto _ Hk0). reflexivity.
      * apply Hs. congruence.
    + rewrite !step_age_group_revenue. cbv zeta.
      destruct (decide (k = age_group d)) as [->|Hk].
      * rewrite E, Hf1, Hf2, (inherited_proto _ Hk0). reflexivity.
      * apply Hr. congruence.
  - unfold of_age_group in Hne. rewrite filter_cons in Hne. simpl in Hne.
    rewrite decide_False in Hne by exact E.
    assert (Hfalsy : forall s, JsObject.falsy (ageGroupSpend (step c s d)) k0
                               = JsObject.falsy (ageGroupSpend s) k0).
    { intros s. unfold JsObject.falsy, JsObject.get.
      rewrite step_age_group_spend. cbv zeta.
      rewrite decide_False by congruence. reflexivity. }
    apply IH; try exact Hne.
    + intros k Hk. rewrite !step_age_group_spend. cbv zeta.
      destruct (decide (k = age_group d)) as [->|Hk'].
      * rewrite (Hs (age_group d)) by exact E. reflexivity.
      * now apply Hs.
    + intros k Hk. rewrite !step_age_group_revenue. cbv zeta.
      destruct (decide (k = age_group d)) as [->|Hk'].
      * rewrite (Hs (age_group d)), (Hr (age_group d)) by exact E.
        reflexivity.
      * now apply Hr.
    + now rewrite Hfalsy.
    + now rewrite Hfalsy.
Qed.
End DemographicSummaryFacts.




(** X12.  The click total of each gender is the sum of the clicks of
    its slices over all campaigns, and the table of each gender has one
    row per slice of that gender, in the order of the campaigns and of
    their slices, with the name of the campaign and the slice's own
    figures and rates. *)
Theorem demographic_gender_tables (md : Data) :
  let out := DemographicView.demographicData (Some md) in
  let sl := DemographicView.slices md in
  let clicked := fun p : CampaignData * DemographicBreakdown.t =>
    DemographicBreakdown.clicks (DemographicBreakdown.performance (snd p)) in
  let row := fun p : CampaignData * DemographicBreakdown.t =>
    DemographicView.performance_row (Campaign.name (fst p)) (snd p) in
  AggregatedDemographicData.maleClicks out
  = total clicked (DemographicView.of_gender "Male" sl) /\
  AggregatedDemographicData.femaleClicks out
  = total clicked (DemographicView.of_gender "Female" sl) /\
  AggregatedDemographicData.maleAgeGroupPerformance out
  = map row (DemographicView.of_gender "Male" sl) /\
  AggregatedDemographicData.femaleAgeGroupPerformance out
  = map row (DemographicView.of_gender "Female" sl).
Proof.
  intros out sl clicked row. subst out sl clicked row.
  unfold DemographicView.demographicData, DemographicView.slices.
  rewrite demographic_campaigns_flat.
  destruct (demographic_gender_rows
              (flat_map (fun c => map (pair c)
                           (default [] (Campaign.demographic_breakdown c)))
                        (MarketingData.campaigns md))
              DemographicView.initial) as (H1 & H2 & H3 & H4).
  simpl in H1, H2, H3, H4. rewrite H1, H2, H3, H4.
  rewrite !Qcplus_0_l. tauto.
Qed.

(** X13.  When the spend allocated to every slice is positive, the
    spend and the revenue shown for an age group whose name is not that
    of an inherited property are the sums of the allocated spend and of
    the allocated revenue over the slices of that age group, of every
    gender and campaign; such an age group without a slice has no
    entry. *)
Theorem age_group_totals_of_paid_slices (md : Data) (k : string) :
  JsObject.inherited k = false ->
  Forall (fun p => 0 < DemographicView.demoSpend (fst p) (snd p))
         (DemographicView.slices md) ->
  let out := DemographicView.demographicData (Some md) in
  let group := DemographicSummary.of_age_group k (DemographicView.slices md) in
  (group = [] ->
   AggregatedDemographicData.ageGroupSpend out !! k = None /\
   AggregatedDemographicData.ageGroupRevenue out !! k = None) /\
  (group <> [] ->
   AggregatedDemographicData.ageGroupSpend out !! k
   = Some (JsObject.Num
             (total (fun p => DemographicView.demoSpend (fst p) (snd p)) group)) /\
   AggregatedDemographicData.ageGroupRevenue out !! k
   = Some (JsObject.Num
             (total (fun p => DemographicView.demoRevenue (fst p) (snd p)) group))).
Proof.
  intros Hk Hall out group. subst out group.
  unfold DemographicView.demographicData.
  rewrite demographic_campaigns_flat.
  apply (age_groups_positive_spend (DemographicView.slices md) k Hk Hall).
Qed.

Lemma age_group_totals_witness :
  let md : Data := MarketingData.mk [sliced_campaign] in
  let out := DemographicView.demographicData (Some md) in
  let group := DemographicSummary.of_age_group "18-24" (DemographicView.slices md) in
  AggregatedDemographicData.ageGroupSpend out !! "18-24"
  = Some (JsObject.Num
            (total (fun p => DemographicView.demoSpend (fst p) (snd p)) group)) /\
  AggregatedDemographicData.ageGroupRevenue out !! "18-24"
  = Some (JsObject.Num
            (total (fun p => DemographicView.demoRevenue (fst p) (snd p)) group)).
Proof.
  refine (proj2 (age_group_totals_of_paid_slices
                   (MarketingData.mk [sliced_campaign]) "18-24" _ _) _).
  - reflexivity.
  - repeat constructor; vm_compute; reflexivity.
  - discriminate.
Defined.

(** X14.  A campaign without spend and with a single slice, processed
    at a point where the spend kept for the slice's age group is
    missing or 0 (as the first campaign, say) and followed by another
    slice of that age group, leaves no trace in the age-group objects:
    its slice makes the spend entry 0, so the next slice of the age
    group starts both entries again from 0.  The revenue allocated to
    the slice is counted in the revenue of its gender all the same. *)
Theorem unpaid_campaign_left_out_of_age_group
    (before after : list CampaignData)
    (c0 : CampaignData) (d0 : DemographicBreakdown.t) :
  Campaign.spend c0 = 0 ->
  Campaign.demographic_breakdown c0 = Some [d0] ->
  JsObject.inherited (DemographicBreakdown.age_group d0) = false ->
  JsObject.falsy
    (AggregatedDemographicData.ageGroupSpend
       (DemographicView.demographicData (Some (MarketingData.mk before : Data))))
    (DemographicBreakdown.age_group d0) = true ->
  DemographicSummary.of_age_group (DemographicBreakdown.age_group d0)
    (DemographicView.slices (MarketingData.mk after : Data)) <> [] ->
  let with_c0 :=
    DemographicView.demographicData
      (Some (MarketingData.mk (before ++ c0 :: after) : Data)) in
  let without :=
    DemographicView.demographicData
      (Some (MarketingData.mk (before ++ after) : Data)) in
  AggregatedDemographicData.ageGroupSpend with_c0
  = AggregatedDemographicData.ageGroupSpend without /\
  AggregatedDemographicData.ageGroupRevenue with_c0
  = AggregatedDemographicData.ageGroupRevenue without /\
  (DemographicBreakdown.gender d0 = "Male" ->
   AggregatedDemographicData.maleRevenue with_c0
   = DemographicView.demoRevenue c0 d0
     + AggregatedDemographicData.maleRevenue without) /\
  (DemographicBreakdown.gender d0 = "Female" ->
   AggregatedDemographicData.femaleRevenue with_c0
   = DemographicView.demoRevenue c0 d0
     + AggregatedDemographicData.femaleRevenue without).
Proof.
  intros Hspend Hdemo Hk Hfalsy Hlater with_c0 without. subst with_c0 without.
  unfold DemographicView.demographicData, DemographicView.slices in *.
  simpl in *. rewrite !foldl_app. simpl.
  set (s := foldl DemographicView.campaign_step DemographicView.initial before) in *.
  assert (Hc0 : DemographicView.campaign_step s c0 = DemographicView.step c0 s d0).
  { unfold DemographicView.campaign_step. now rewrite Hdemo. }
  rewrite Hc0, !demographic_campaigns_flat.
  set (pairs := flat_map (fun c => map (pair c)
                            (default [] (Campaign.demographic_breakdown c))) after) in *.
  set (s1 := DemographicView.step c0 s d0).
  destruct (run_age_groups_reset (DemographicBreakdown.age_group d0) pairs
              s1 s Hk) as [Hs Hr].
  - intros k Hne. unfold s1. rewrite step_age_group_spend. cbv zeta.
    now rewrite decide_False by exact Hne.
  - intros k Hne. unfold s1. rewrite step_age_group_revenue. cbv zeta.
    now rewrite decide_False by exact Hne.
  - unfold JsObject.falsy, JsObject.get in *. apply negb_true_iff in Hfalsy.
    unfold s1. rewrite step_age_group_spend. cbv zeta.
    rewrite decide_True by reflexivity.
    rewrite (inherited_proto _ Hk), Hfalsy. simpl.
    apply negb_true_iff, negb_false_iff, bool_decide_eq_true.
    unfold DemographicView.demoSpend. rewrite Hspend. ring.
  - exact Hfalsy.
  - exact Hlater.
  - split; [now apply map_eq|]. split; [now apply map_eq|].
    destruct (demographic_gender_totals pairs s1) as (_ & Hm1 & _ & Hf1).
    destruct (demographic_gender_totals pairs s) as (_ & Hm0 & _ & Hf0).
    simpl in Hm1, Hf1, Hm0, Hf0. rewrite Hm1, Hf1, Hm0, Hf0.
    split; intros Hg; unfold s1, DemographicView.step,
      DemographicView.gender_step, DemographicView.age_group_step;
      rewrite Hg; simpl; destruct (JsObject.falsy _ _); simpl; ring.
Qed.

Lemma unpaid_campaign_witness :
  (AggregatedDemographicData.ageGroupRevenue
     (DemographicView.demographicData (Some unpaid_then_sliced))
   = AggregatedDemographicData.ageGroupRevenue
       (DemographicView.demographicData
          (Some (MarketingData.mk [sliced_campaign] : Data))) /\
   AggregatedDemographicData.maleRevenue
     (DemographicView.demographicData (Some unpaid_then_sliced))
   = DemographicView.demoRevenue unpaid_campaign (slice "Male" "18-24" 100 20)
     + AggregatedDemographicData.maleRevenue
         (DemographicView.demographicData
            (Some (MarketingData.mk [sliced_campaign] : Data)))) /\
  AggregatedDemographicData.ageGroupRevenue
    (DemographicView.demographicData
       (Some (MarketingData.mk
                [older_campaign; unpaid_campaign; sliced_campaign] : Data)))
  = AggregatedDemographicData.ageGroupRevenue
      (DemographicView.demographicData
         (Some (MarketingData.mk [older_campaign; sliced_campaign] : Data))).
Proof.
  split.
  - pose proof (unpaid_campaign_left_out_of_age_group [] [sliced_campaign]
                  unpaid_campaign (slice "Male" "18-24" 100 20)
                  eq_refl eq_refl eq_refl eq_refl) as H.
    destruct H as (_ & Hr & Hm & _); [discriminate|].
    split; [exact Hr|]. apply Hm. reflexivity.
  - apply (unpaid_campaign_left_out_of_age_group [older_campaign]
             [sliced_campaign] unpaid_campaign (slice "Male" "18-24" 100 20));
      try reflexivity.
    discriminate.
Defined.

(** ** LineChart: coordinates *)
Section LineChartCoordinates.
Import LineChart.

(** The constants of a chart that has data. *)
Lemma layout_frame (series : list LineChartSeries) (height : Qc) (f : frame) :
  layout series height = Some f ->
  (minValue f ∈ allValues series /\
   forall v, v ∈ allValues series -> minValue f ≤ v) /\
  (maxValue f ∈ allValues series /\
   forall v, v ∈ allValues series -> v ≤ maxValue f) /\
  chartMin f
  = max2 0 (minValue f - (maxValue f - minValue f) * (num 1 / num 10)) /\
  chartMax f = maxValue f + (maxValue f - minValue f) * (num 1 / num 10) /\
  chartRange f = chartMax f - chartMin f /\
  chartHeight f = height - num 80 /\
  chartWidth f = num 100 /\
  labels f = match series with
             | s :: _ => map label (data s)
             | [] => []
             end.
Proof.
  unfold layout. destruct (no_data series); [discriminate|].
  destruct (allValues series) as [|v vs]; [discriminate|].
  intros [= <-]. simpl.
  destruct (minimum_spec vs v) as [Hmin_in Hmin_lb].
  destruct (maximum_spec vs v) as [Hmax_in Hmax_ub].
  repeat split; assumption || reflexivity.
Qed.

Lemma num_lt (a b : Z) : (a < b)%Z <-> num a < num b.
Proof. apply Z2Qc_inj_lt. Qed.

Lemma num_le (a b : Z) : (a <= b)%Z <-> num a ≤ num b.
Proof. apply Z2Qc_inj_le. Qed.

(** Dividing by a positive number and scaling by 100 keeps the order. *)
Lemma scaled_lt (a b d : Qc) :
  0 < d -> a / d * num 100 < b / d * num 100 <-> a < b.
Proof.
  intros Hd.
  assert (Hne : d <> 0).
  { intros E. rewrite E in Hd. now apply Qclt_not_eq in Hd. }
  assert (Ha : a / d * d = a) by (field; exact Hne).
  assert (Hb : b / d * d = b) by (field; exact Hne).
  revert Ha Hb. generalize (a / d) (b / d). intros qa qb Ha Hb.
  subst a b. qc_to_q. split; intros H; Lqa.nra.
Qed.

Lemma scaled_le (a b d : Qc) :
  0 < d -> a / d * num 100 ≤ b / d * num 100 <-> a ≤ b.
Proof.
  intros Hd.
  assert (Hne : d <> 0).
  { intros E. rewrite E in Hd. now apply Qclt_not_eq in Hd. }
  assert (Ha : a / d * d = a) by (field; exact Hne).
  assert (Hb : b / d * d = b) by (field; exact Hne).
  revert Ha Hb. generalize (a / d) (b / d). intros qa qb Ha Hb.
  subst a b. qc_to_q. split; intros H; Lqa.nra.
Qed.

(** The fraction of a range, for a range of either sign. *)
Lemma fraction_of_range (n d h : Qc) :
  d <> 0 ->
  (0 < d -> 0 ≤ n -> n ≤ d -> 0 ≤ h ->
   0 ≤ h - n / d * h /\ h - n / d * h ≤ h) /\
  (0 < d -> n < 0 -> 0 < h -> h < h - n / d * h) /\
  (d < 0 -> n ≤ d -> 0 ≤ h -> h - n / d * h ≤ 0).
Proof.
  intros Hne.
  assert (Hq : n / d * d = n) by (field; exact Hne).
  revert Hq. generalize (n / d). intros q Hq. subst n.
  split; [|split].
  - intros Hd H0 H1 Hh.
    assert (Hq0 : 0 ≤ q) by (qc_to_q; Lqa.nra).
    assert (Hq1 : q ≤ 1) by (qc_to_q; Lqa.nra).
    split; qc_to_q; Lqa.nra.
  - intros Hd Hn Hh.
    assert (Hq0 : q < 0) by (qc_to_q; Lqa.nra).
    qc_to_q; Lqa.nra.
  - intros Hd Hn Hh.
    assert (Hq1 : 1 ≤ q) by (qc_to_q; Lqa.nra).
    qc_to_q; Lqa.nra.
Qed.

Lemma half_bounds (h : Qc) : 0 ≤ h -> 0 ≤ h / num 2 /\ h / num 2 ≤ h.
Proof.
  intros Hh.
  assert (Hne : num 2 <> 0).
  { intros H. apply (f_equal this) in H. vm_compute in H. discriminate. }
  assert (Hq : h / num 2 * num 2 = h) by (field; exact Hne).
  revert Hq. generalize (h / num 2). intros q Hq.
  split; qc_to_q; Lqa.lra.
Qed.

Lemma fraction_monotone (a b c d h : Qc) :
  0 < d -> 0 ≤ h -> a ≤ b ->
  h - (b - c) / d * h ≤ h - (a - c) / d * h.
Proof.
  intros Hd Hh Hab.
  assert (Hne : d <> 0).
  { intros E. rewrite E in Hd. now apply Qclt_not_eq in Hd. }
  assert (Ha : (a - c) / d * d = a - c) by (field; exact Hne).
  assert (Hb : (b - c) / d * d = b - c) by (field; exact Hne).
  revert Ha Hb. generalize ((a - c) / d) ((b - c) / d). intros qa qb Ha Hb.
  assert (Hq : qa ≤ qb) by (qc_to_q; Lqa.nra).
  qc_to_q; Lqa.nra.
Qed.
End LineChartCoordinates.

(** X15.  The horizontal position of a point is taken from the number
    of points of the first series: with at most one label every point
    is at 50; otherwise the first point is at 0, the last one at 100,
    positions grow strictly with the index, and an index is placed
    within the width 100 exactly when it is an index of the first
    series, so that the extra points of a longer series lie beyond the
    right edge. *)
Theorem line_chart_x_positions
    (series : list LineChart.LineChartSeries) (height : Qc)
    (f : LineChart.frame) :
  LineChart.layout series height = Some f ->
  let n := length (LineChart.labels f) in
  n = length (match series with
              | s :: _ => LineChart.data s
              | [] => []
              end) /\
  ((n <= 1)%nat -> forall i, LineChart.getXPosition f i = num 50) /\
  ((1 < n)%nat ->
   LineChart.getXPosition f 0 = 0 /\
   LineChart.getXPosition f (n - 1) = num 100 /\
   (forall i j, (i < j)%nat ->
      LineChart.getXPosition f i < LineChart.getXPosition f j) /\
   (forall i, (i <= n - 1)%nat <-> LineChart.getXPosition f i ≤ num 100)).
Proof.
  intros Hlay n.
  destruct (layout_frame series height f Hlay)
    as (_ & _ & _ & _ & _ & _ & Hw & Hl).
  split; [|split].
  - subst n. rewrite Hl. destruct series; [reflexivity|]. apply length_map.
  - intros Hn i. unfold LineChart.getXPosition.
    now rewrite bool_decide_eq_true_2.
  - intros Hn.
    assert (Hx : forall i, LineChart.getXPosition f i
                           = num (Z.of_nat i) / num (Z.of_nat (n - 1)) * num 100).
    { intros i. unfold LineChart.getXPosition.
      rewrite bool_decide_eq_false_2 by (fold n; lia). now rewrite Hw. }
    assert (Hd : 0 < num (Z.of_nat (n - 1))).
    { rewrite <- Z2Qc_inj_0. apply (proj1 (num_lt 0 _)). lia. }
    assert (Hne : num (Z.of_nat (n - 1)) <> 0).
    { intros E. rewrite E in Hd. now apply Qclt_not_eq in Hd. }
    assert (Hlast : LineChart.getXPosition f (n - 1) = num 100).
    { rewrite Hx. field. exact Hne. }
    split; [|split; [exact Hlast|split]].
    + rewrite Hx. replace (num (Z.of_nat 0)) with (Q2Qc 0)
        by (symmetry; apply Z2Qc_inj_0).
      field. exact Hne.
    + intros i j Hij. rewrite !Hx. apply scaled_lt; [exact Hd|].
      apply (proj1 (num_lt _ _)). lia.
    + intros i. rewrite <- Hlast at 1. rewrite !Hx.
      rewrite (scaled_le _ _ _ Hd), <- num_le. lia.
Qed.

Lemma line_chart_x_witness :
  exists f,
    LineChart.layout zero_to_ten (num 300) = Some f /\
    LineChart.getXPosition f 0 = 0 /\
    LineChart.getXPosition f 1 = num 100.
Proof.
  eexists. split; [reflexivity|].
  exact (let H := proj2 (proj2 (line_chart_x_positions zero_to_ten (num 300) _
                                  eq_refl)) in
         conj (proj1 (H ltac:(simpl; lia)))
              (proj1 (proj2 (H ltac:(simpl; lia))))).
Defined.

(** Where a value of the chart lies with respect to the plot domain. *)
Lemma chart_range_facts (series : list LineChart.LineChartSeries)
    (height : Qc) (f : LineChart.frame) (v : Qc) :
  LineChart.layout series height = Some f ->
  v ∈ LineChart.allValues series ->
  0 ≤ LineChart.chartMin f /\
  (0 ≤ v -> LineChart.chartMin f ≤ v) /\
  v ≤ LineChart.chartMax f /\
  LineChart.chartRange f = LineChart.chartMax f - LineChart.chartMin f /\
  LineChart.chartHeight f = height - num 80.
Proof.
  intros Hlay Hv.
  destruct (layout_frame series height f Hlay)
    as ((_ & Hlo) & (_ & Hhi) & Hmin & Hmax & Hrange & Hh & _ & _).
  specialize (Hlo v Hv). specialize (Hhi v Hv).
  set (pad := (LineChart.maxValue f - LineChart.minValue f) * (num 1 / num 10)) in *.
  assert (Hpad : 0 ≤ pad).
  { subst pad. assert (Hp : 0 ≤ num 1 / num 10) by (vm_compute; discriminate).
    revert Hlo Hhi Hp.
    generalize (LineChart.maxValue f) (LineChart.minValue f) (num 1 / num 10).
    intros hi lo p. intros. qc_to_q. Lqa.nra. }
  clearbody pad.
  assert (Hmin0 : 0 ≤ LineChart.chartMin f /\
                  (LineChart.chartMin f = 0 \/
                   LineChart.chartMin f = LineChart.minValue f - pad)).
  { rewrite Hmin.
    destruct (max2_cases 0 (LineChart.minValue f - pad)) as [[E H]|[E H]];
      rewrite E; split; auto; apply Qcle_refl. }
  destruct Hmin0 as [Hmin0 Hmin_cases].
  split; [exact Hmin0|]. split; [|split; [|split; assumption]].
  - intros Hv0. destruct Hmin_cases as [E|E]; rewrite E; [exact Hv0|].
    revert Hlo Hpad. generalize (LineChart.minValue f). intros lo Hlo Hpad.
    qc_to_q. Lqa.lra.
  - rewrite Hmax. revert Hhi Hpad. generalize (LineChart.maxValue f).
    intros hi Hhi Hpad. qc_to_q. Lqa.lra.
Qed.

(** A value of the chart that is not negative is drawn within the
    plot area. *)
Lemma getYPosition_within (series : list LineChart.LineChartSeries)
    (height : Qc) (f : LineChart.frame) (v : Qc) :
  LineChart.layout series height = Some f ->
  v ∈ LineChart.allValues series ->
  num 80 ≤ height -> 0 ≤ v ->
  0 ≤ LineChart.getYPosition f v /\
  LineChart.getYPosition f v ≤ LineChart.chartHeight f.
Proof.
  intros Hlay Hv Hheight Hv0.
  destruct (chart_range_facts series height f v Hlay Hv)
    as (Hmin0 & Hcmin & Hcmax & Hrange & Hh).
  specialize (Hcmin Hv0).
  assert (Hh0 : 0 ≤ LineChart.chartHeight f).
  { rewrite Hh. qc_to_q. Lqa.lra. }
  unfold LineChart.getYPosition. revert Hcmin Hcmax Hrange Hh0.
  generalize (LineChart.chartHeight f) (LineChart.chartRange f)
    (LineChart.chartMax f) (LineChart.chartMin f).
  intros h r cmax cmin Hcmin Hcmax Hrange Hh0.
  destruct (decide (r = 0)) as [E|Hne]; [now apply half_bounds|].
  apply (fraction_of_range (v - cmin) r h Hne).
  - assert (H : 0 ≤ r) by (rewrite Hrange; qc_to_q; Lqa.lra).
    apply Qcle_lt_or_eq in H as [H|H]; [exact H|]. now destruct Hne.
  - qc_to_q. Lqa.lra.
  - rewrite Hrange. qc_to_q. Lqa.lra.
  - exact Hh0.
Qed.

(** X16.  With a height of at least 80, a value of the chart that is
    not negative is drawn within the plot area, between 0 and the chart
    height; when the plot range is positive a larger value is never
    drawn lower; and a negative value is never drawn strictly inside
    the plot area unless the plot range is 0: it lies below the baseline
    when the range is positive and on or above the top edge when the
    range is negative. *)
Theorem line_chart_y_positions
    (series : list LineChart.LineChartSeries) (height : Qc)
    (f : LineChart.frame) (v : Qc) :
  LineChart.layout series height = Some f ->
  v ∈ LineChart.allValues series ->
  num 80 ≤ height ->
  (0 ≤ v ->
   0 ≤ LineChart.getYPosition f v /\
   LineChart.getYPosition f v ≤ LineChart.chartHeight f) /\
  (0 < LineChart.chartRange f ->
   forall w, v ≤ w ->
     LineChart.getYPosition f w ≤ LineChart.getYPosition f v) /\
  (v < 0 -> num 80 < height ->
   (0 < LineChart.chartRange f ->
    LineChart.chartHeight f < LineChart.getYPosition f v) /\
   (LineChart.chartRange f < 0 -> LineChart.getYPosition f v ≤ 0)).
Proof.
  intros Hlay Hv Hheight.
  destruct (chart_range_facts series height f v Hlay Hv)
    as (Hmin0 & Hcmin & Hcmax & Hrange & Hh).
  assert (Hh0 : 0 ≤ LineChart.chartHeight f).
  { rewrite Hh. qc_to_q. Lqa.lra. }
  split; [|split].
  - intros Hv0. now apply (getYPosition_within series height).
  - intros Hr w Hvw. unfold LineChart.getYPosition.
    rewrite !decide_False
      by (intros E; rewrite E in Hr; now apply Qclt_not_eq in Hr).
    now apply fraction_monotone.
  - intros Hv0 Hheight'. unfold LineChart.getYPosition.
    revert Hmin0 Hcmax Hrange Hh0 Hh.
    generalize (LineChart.chartHeight f) (LineChart.chartRange f)
      (LineChart.chartMax f) (LineChart.chartMin f).
    intros h r cmax cmin Hmin0 Hcmax Hrange Hh0 Hh.
    split; intros Hr.
    + rewrite decide_False
        by (intros E; rewrite E in Hr; now apply Qclt_not_eq in Hr).
      apply (fraction_of_range (v - cmin) r h).
      * intros E. rewrite E in Hr. now apply Qclt_not_eq in Hr.
      * exact Hr.
      * qc_to_q. Lqa.lra.
      * rewrite Hh. qc_to_q. Lqa.lra.
    + rewrite decide_False
        by (intros E; rewrite E in Hr; now apply Qclt_not_eq in Hr).
      apply (fraction_of_range (v - cmin) r h).
      * intros E. rewrite E in Hr. now apply Qclt_not_eq in Hr.
      * exact Hr.
      * rewrite Hrange. qc_to_q. Lqa.lra.
      * exact Hh0.
Qed.

Lemma line_chart_y_witness :
  exists f,
    LineChart.layout zero_to_ten (num 300) = Some f /\
    0 ≤ LineChart.getYPosition f (num 10) /\
    LineChart.getYPosition f (num 10) ≤ LineChart.chartHeight f.
Proof.
  eexists. split; [reflexivity|].
  refine (proj1 (line_chart_y_positions zero_to_ten (num 300) _ (num 10)
                   eq_refl _ _) _).
  - right. left.
  - vm_compute. discriminate.
  - vm_compute. discriminate.
Defined.

(** A sequence that the comparator finds in order is returned as it
    is. *)
Lemma array_sort_in_order {A : Type} (after : A -> A -> bool) (l : list A) :
  StronglySorted (fun x y => after x y = false) l -> array_sort after l = l.
Proof.
  induction 1 as [|x l _ IH Hx]; [reflexivity|].
  change (array_sort after (x :: l)) with (sort_insert after x (array_sort after l)).
  rewrite IH. destruct l as [|y l']; simpl; [reflexivity|].
  apply List.Forall_inv in Hx. now rewrite Hx.
Qed.

(** ** BubbleMap: sizes, drawing order and the table *)
Section BubbleMapOrder.
Import BubbleMap.
Local Open Scope R_scope.

Lemma normalizedValue_bounds (lo hi v : R) :
  lo <= v <= hi -> 0 <= normalizedValue lo hi v <= 1.
Proof.
  intros Hv. unfold normalizedValue.
  destruct (Req_dec_T hi lo) as [E|Hne]; [lra|].
  destruct (fraction_bounds lo hi v) as [H0 H1]; [lra|exact Hv|].
  split; [apply sqrt_pos|].
  rewrite <- sqrt_1. now apply sqrt_le_1_alt.
Qed.

(** The normalized value grows with the value, strictly when the batch
    has two different values. *)
Lemma normalizedValue_reflects_order (lo hi v w : R) :
  lo <= v <= hi -> lo <= w <= hi ->
  normalizedValue lo hi w <= normalizedValue lo hi v -> w <= v.
Proof.
  intros Hv Hw. unfold normalizedValue.
  destruct (Req_dec_T hi lo) as [E|Hne]; [lra|].
  destruct (fraction_bounds lo hi v) as [Hv0 _]; [lra|exact Hv|].
  destruct (fraction_bounds lo hi w) as [Hw0 _]; [lra|exact Hw|].
  intros Hle. apply sqrt_le_0 in Hle; [|assumption|assumption].
  unfold Rdiv in Hle. apply Rmult_le_reg_r in Hle; [lra|].
  apply Rinv_0_lt_compat. lra.
Qed.

Lemma enrichedData_elem (d0 : BubbleMapDataPoint)
    (rest : list BubbleMapDataPoint) (b : bubble) :
  let lo := minimum (value d0) (map value rest) in
  let hi := maximum (value d0) (map value rest) in
  b ∈ enrichedData (d0 :: rest) ->
  lo <= value (point b) <= hi /\
  size b = 8 + normalizedValue lo hi (value (point b)) * 24 /\
  opacity b = 7 / 10 + normalizedValue lo hi (value (point b)) * (3 / 10).
Proof.
  intros lo hi Hb.
  change (b ∈ array_sort by_size_desc (map (enrich lo hi) (d0 :: rest))) in Hb.
  apply array_sort_elem_of in Hb.
  apply list_elem_of_fmap in Hb as (d & -> & Hd). simpl.
  destruct (bubble_minimum_spec (map value rest) (value d0)) as [_ Hlo].
  destruct (bubble_maximum_spec (map value rest) (value d0)) as [_ Hhi].
  assert (Hin : value d ∈ value d0 :: map value rest).
  { change (value d ∈ map value (d0 :: rest)).
    apply list_elem_of_fmap. now exists d. }
  split; [|split; reflexivity].
  split; [now apply Hlo|now apply Hhi].
Qed.

Lemma enrichedData_sorted_by_size (data : list BubbleMapDataPoint) :
  StronglySorted (fun a b => size b <= size a) (enrichedData data).
Proof.
  unfold enrichedData. destruct (map value data) as [|v vs]; [constructor|].
  apply array_sort_sorted_by.
  - intros x y. unfold by_size_desc.
    destruct (Rlt_dec 0 (size y - size x)); [discriminate|]. intros _. lra.
  - intros x y. unfold by_size_desc.
    destruct (Rlt_dec 0 (size y - size x)); [|discriminate]. intros _. lra.
  - intros x y z. lra.
Qed.
End BubbleMapOrder.

(** X17.  In a batch with at least one point every bubble has a radius
    between 8 and 32 and an opacity between 0.7 and 1, the opacity
    growing linearly with the radius; when the batch has two different
    values a point with the least value has radius 8 and one with the
    greatest value has radius 32. *)
Theorem bubble_size_and_opacity_bounds
    (d0 : BubbleMap.BubbleMapDataPoint)
    (rest : list BubbleMap.BubbleMapDataPoint) :
  let data := d0 :: rest in
  let lo := BubbleMap.minimum (BubbleMap.value d0) (map BubbleMap.value rest) in
  let hi := BubbleMap.maximum (BubbleMap.value d0) (map BubbleMap.value rest) in
  Forall (fun b =>
    (8 <= BubbleMap.size b <= 32)%R /\
    (7 / 10 <= BubbleMap.opacity b <= 1)%R /\
    (BubbleMap.opacity b = 7 / 10 + (BubbleMap.size b - 8) / 80)%R /\
    (hi <> lo ->
     (BubbleMap.value (BubbleMap.point b) = lo -> BubbleMap.size b = 8%R) /\
     (BubbleMap.value (BubbleMap.point b) = hi -> BubbleMap.size b = 32%R)))
    (BubbleMap.enrichedData data).
Proof.
  intros data lo hi. apply Forall_forall. intros b Hb.
  destruct (enrichedData_elem d0 rest b Hb) as (Hv & Hs & Ho).
  fold lo hi in Hv, Hs, Ho.
  pose proof (normalizedValue_bounds lo hi _ Hv) as Hn.
  rewrite Hs, Ho. repeat split; try lra.
  - intros E. rewrite E, normalizedValue_sqrt by assumption.
    replace ((lo - lo) / (hi - lo))%R with 0%R by (field; lra).
    rewrite sqrt_0. lra.
  - intros E. rewrite E, normalizedValue_sqrt by assumption.
    replace ((hi - lo) / (hi - lo))%R with 1%R by (field; lra).
    rewrite sqrt_1. lra.
Qed.

(** X18.  The bubbles are in descending order of radius, which is also
    descending order of value; so the sort by descending value that the
    table below the map applies to the same array returns it as it is,
    and the order in which the bubbles are drawn is not disturbed. *)
Theorem bubble_table_keeps_drawing_order
    (data : list BubbleMap.BubbleMapDataPoint) :
  let bubbles := BubbleMap.enrichedData data in
  StronglySorted (fun a b => (BubbleMap.size b <= BubbleMap.size a)%R) bubbles /\
  StronglySorted
    (fun a b => (BubbleMap.value (BubbleMap.point b)
                 <= BubbleMap.value (BubbleMap.point a))%R) bubbles /\
  BubbleMapTable.tableRows bubbles = bubbles.
Proof.
  intros bubbles.
  pose proof (enrichedData_sorted_by_size data) as Hsize. fold bubbles in Hsize.
  assert (Hvalue : StronglySorted
            (fun a b => (BubbleMap.value (BubbleMap.point b)
                         <= BubbleMap.value (BubbleMap.point a))%R) bubbles).
  { eapply StronglySorted_weaken; [|exact Hsize].
    intros x y Hx Hy Hle. subst bubbles.
    destruct data as [|d0 rest]; [inversion Hx|].
    destruct (enrichedData_elem d0 rest x Hx) as (Hvx & Hsx & _).
    destruct (enrichedData_elem d0 rest y Hy) as (Hvy & Hsy & _).
    cbv beta in Hle |- *.
    eapply normalizedValue_reflects_order; [exact Hvx|exact Hvy|].
    rewrite Hsx, Hsy in Hle. lra. }
  split; [exact Hsize|]. split; [exact Hvalue|].
  apply array_sort_in_order.
  eapply StronglySorted_weaken; [|exact Hvalue].
  intros x y _ _ Hle. cbv beta in Hle. unfold BubbleMapTable.by_value_desc.
  destruct (Rlt_dec 0 _); [lra|reflexivity].
Qed.

(** ** The line charts of the weekly view *)
Section WeeklyChartFacts.
Import LineChart LineChartPoints.

Lemma getXPosition_within (f : frame) (i : nat) :
  chartWidth f = num 100 -> (i < length (labels f))%nat ->
  0 ≤ getXPosition f i /\ getXPosition f i ≤ num 100.
Proof.
  intros Hw Hi. unfold getXPosition.
  destruct (bool_decide (length (labels f) <= 1)%nat) eqn:E.
  - split; vm_compute; discriminate.
  - apply bool_decide_eq_false in E. rewrite Hw.
    set (d := num (Z.of_nat (length (labels f) - 1))).
    assert (Hd : 0 < d).
    { unfold d. rewrite <- Z2Qc_inj_0. apply (proj1 (num_lt 0 _)). lia. }
    assert (Hne : d <> 0).
    { intros E'. rewrite E' in Hd. now apply Qclt_not_eq in Hd. }
    split.
    + replace (Q2Qc 0) with (0 / d * num 100) by (field; exact Hne).
      apply scaled_le; [exact Hd|]. rewrite <- Z2Qc_inj_0.
      apply (proj1 (num_le 0 _)). lia.
    + replace (num 100) with (d / d * num 100) at 2 by (field; exact Hne).
      apply scaled_le; [exact Hd|]. apply (proj1 (num_le _ _)). lia.
Qed.

Lemma allValues_elem (series : list LineChartSeries) (s : LineChartSeries)
    (d : LineChartDataPoint) :
  s ∈ series -> d ∈ data s -> value d ∈ allValues series.
Proof.
  intros Hs Hd. unfold allValues.
  apply list_elem_of_In, in_flat_map. exists s.
  split; [now apply list_elem_of_In|].
  apply in_map. now apply list_elem_of_In.
Qed.

(** A chart whose series all have the same positive number of points,
    as the component assumes. *)
Lemma same_length_chart (chart : list LineChartSeries) (height : Qc) (n : nat) :
  chart <> [] -> (0 < n)%nat ->
  Forall (fun s => length (data s) = n) chart ->
  exists f,
    layout chart height = Some f /\
    length (labels f) = n /\
    Forall (fun s =>
      length (centres f s) = n /\
      Forall (fun p => 0 ≤ fst p /\ fst p ≤ num 100) (centres f s) /\
      (num 80 ≤ height ->
       Forall (fun d => 0 ≤ value d) (data s) ->
       Forall (fun p => 0 ≤ snd p /\ snd p ≤ chartHeight f) (centres f s)))
      chart.
Proof.
  intros Hne Hn Hlen.
  destruct chart as [|s0 more]; [congruence|].
  assert (Hnd : no_data (s0 :: more) = false).
  { unfold no_data. simpl. apply Forall_inv in Hlen. rewrite Hlen.
    destruct n; [lia|reflexivity]. }
  pose proof (allValues_nonempty _ Hnd) as Hvals.
  assert (Hex : exists f, layout (s0 :: more) height = Some f).
  { unfold layout. rewrite Hnd.
    destruct (allValues (s0 :: more)); [congruence|eauto]. }
  destruct Hex as [f Hlay]. exists f. split; [exact Hlay|].
  destruct (layout_frame _ height f Hlay)
    as (_ & _ & _ & _ & _ & _ & Hw & Hl).
  assert (Hlabels : length (labels f) = n).
  { rewrite Hl, length_map. now apply Forall_inv in Hlen. }
  split; [exact Hlabels|].
  apply Forall_forall. intros s Hs.
  rewrite Forall_forall in Hlen. specialize (Hlen s Hs).
  unfold centres. split; [now rewrite length_imap|]. split.
  - apply Forall_forall. intros p Hp.
    apply elem_of_lookup_imap_1 in Hp as (i & d & -> & Hd). simpl.
    apply getXPosition_within; [exact Hw|].
    apply lookup_lt_Some in Hd. lia.
  - intros Hheight Hpos. apply Forall_forall. intros p Hp.
    apply elem_of_lookup_imap_1 in Hp as (i & d & -> & Hd). simpl.
    apply list_elem_of_lookup_2 in Hd.
    apply (getYPosition_within (s0 :: more) height); try assumption.
    + now apply (allValues_elem _ s).
    + rewrite Forall_forall in Hpos. now apply Hpos.
Qed.
End WeeklyChartFacts.

Section WeeklyChartComposition.
Import WeeklyPerformance LineChart LineChartPoints.
Local Abbreviation not_negative :=
  (fun r : WeeklyPerformance.t =>
     0 ≤ revenue r /\ 0 ≤ spend r /\ 0 ≤ conversions r /\ 0 ≤ clicks r).

(** The weekly rollup of records without negative figures has no
    negative figure. *)
Lemma week_entries_not_negative {D V G : Type} (getTime : string -> option Z)
    (md : MarketingData.t D V WeeklyPerformance.t G) :
  Forall not_negative (WeeklyView.records md) ->
  Forall not_negative (WeeklyView.weeklyData getTime (Some md)).
Proof.
  intros Hall. apply Forall_forall. intros e He.
  apply week_entry in He as (r & rs & Hg & ->).
  destruct (week_fold_merge_sums rs r)
    as (_ & _ & _ & Hcl & Hcv & Hsp & Hrev).
  assert (Hgroup : Forall not_negative (r :: rs)).
  { rewrite <- Hg. apply Forall_forall. intros x Hx.
    unfold keyed in Hx. apply list_elem_of_filter in Hx as [_ Hx].
    rewrite Forall_forall in Hall. now apply Hall. }
  rewrite Hcl, Hcv, Hsp, Hrev.
  repeat split; apply total_nonneg; eapply Forall_impl; try exact Hgroup;
    simpl; tauto.
Qed.

Lemma week_chart_within (formatDate : string -> string)
    (weeklyData : list WeeklyPerformance.t) (chart : list LineChartSeries) :
  chart <> [] ->
  Forall (fun s => exists name color field,
            s = WeeklyCharts.weekSeries formatDate name color field weeklyData /\
            (Forall not_negative weeklyData ->
             Forall (fun w => 0 ≤ field w) weeklyData)) chart ->
  (weeklyData = [] -> layout chart WeeklyCharts.height = None) /\
  (weeklyData <> [] ->
   exists f,
     layout chart WeeklyCharts.height = Some f /\
     chartHeight f = num 270 /\
     Forall (fun s =>
       length (centres f s) = length weeklyData /\
       Forall (fun p => 0 ≤ fst p /\ fst p ≤ num 100) (centres f s) /\
       (Forall not_negative weeklyData ->
        Forall (fun p => 0 ≤ snd p /\ snd p ≤ num 270) (centres f s)))
       chart).
Proof.
  intros Hne Hshape. split.
  - intros ->. unfold layout.
    assert (Hnd : no_data chart = true).
    { unfold no_data. destruct chart as [|s0 more]; [reflexivity|].
      apply forallb_forall. intros s Hs. apply list_elem_of_In in Hs.
      rewrite Forall_forall in Hshape.
      destruct (Hshape s Hs) as (name & color & field & -> & _). reflexivity. }
    now rewrite Hnd.
  - intros Hdata.
    destruct (same_length_chart chart WeeklyCharts.height (length weeklyData))
      as (f & Hlay & _ & Hall).
    + exact Hne.
    + destruct weeklyData; [congruence|simpl; lia].
    + eapply Forall_impl; [exact Hshape|].
      intros s (name & color & field & -> & _). simpl. apply length_map.
    + exists f. split; [exact Hlay|].
      destruct (layout_frame _ _ f Hlay) as (_ & _ & _ & _ & _ & Hh & _).
      assert (Hh' : chartHeight f = num 270).
      { rewrite Hh. apply Qc_is_canon. vm_compute. reflexivity. }
      split; [exact Hh'|].
      rewrite Forall_forall in Hall, Hshape. apply Forall_forall. intros s Hs.
      destruct (Hall s Hs) as (Hlen & Hx & Hy).
      destruct (Hshape s Hs) as (name & color & field & Heq & Hpos).
      split; [exact Hlen|]. split; [exact Hx|].
      intros Hnn. rewrite <- Hh'. apply Hy.
      * vm_compute. discriminate.
      * rewrite Heq. simpl. apply Forall_forall.
        intros d [w [-> Hw]]%list_elem_of_fmap. simpl.
        specialize (Hpos Hnn). rewrite Forall_forall in Hpos. now apply Hpos.
Qed.
End WeeklyChartComposition.

(** X19.  Each of the four line charts of the weekly view shows the
    "no data" placeholder when the weekly rollup is empty; otherwise its
    plot area is 270 high, every series has one circle per week of the
    rollup, every circle lies between 0 and 100 horizontally, and when
    no weekly record has a negative revenue, spend, conversions or
    clicks figure every circle lies between 0 and 270 vertically. *)
Theorem weekly_charts_within_plot_area
    (getTime : string -> option Z) (formatDate : string -> string) (md : Data) :
  let weeklyData := WeeklyView.weeklyData getTime (Some md) in
  Forall (fun chart =>
    (weeklyData = [] ->
     LineChart.layout chart WeeklyCharts.height = None) /\
    (weeklyData <> [] ->
     exists f,
       LineChart.layout chart WeeklyCharts.height = Some f /\
       LineChart.chartHeight f = num 270 /\
       Forall (fun s =>
         length (LineChartPoints.centres f s) = length weeklyData /\
         Forall (fun p => 0 ≤ fst p /\ fst p ≤ num 100)
                (LineChartPoints.centres f s) /\
         (Forall (fun r => 0 ≤ WeeklyPerformance.revenue r /\
                           0 ≤ WeeklyPerformance.spend r /\
                           0 ≤ WeeklyPerformance.conversions r /\
                           0 ≤ WeeklyPerformance.clicks r)
                 (WeeklyView.records md) ->
          Forall (fun p => 0 ≤ snd p /\ snd p ≤ num 270)
                 (LineChartPoints.centres f s)))
         chart))
    (WeeklyCharts.charts formatDate weeklyData).
Proof.
  intros weeklyData.
  assert (Hchart : forall chart,
            chart <> [] ->
            Forall (fun s => exists name color field,
                      s = WeeklyCharts.weekSeries formatDate name color field
                            weeklyData /\
                      (Forall (fun r => 0 ≤ WeeklyPerformance.revenue r /\
                                        0 ≤ WeeklyPerformance.spend r /\
                                        0 ≤ WeeklyPerformance.conversions r /\
                                        0 ≤ WeeklyPerformance.clicks r)
                              weeklyData ->
                       Forall (fun w => 0 ≤ field w) weeklyData)) chart ->
            (weeklyData = [] ->
             LineChart.layout chart WeeklyCharts.height = None) /\
            (weeklyData <> [] ->
             exists f,
               LineChart.layout chart WeeklyCharts.height = Some f /\
               LineChart.chartHeight f = num 270 /\
               Forall (fun s =>
                 length (LineChartPoints.centres f s) = length weeklyData /\
                 Forall (fun p => 0 ≤ fst p /\ fst p ≤ num 100)
                        (LineChartPoints.centres f s) /\
                 (Forall (fun r => 0 ≤ WeeklyPerformance.revenue r /\
                                   0 ≤ WeeklyPerformance.spend r /\
                                   0 ≤ WeeklyPerformance.conversions r /\
                                   0 ≤ WeeklyPerformance.clicks r)
                         (WeeklyView.records md) ->
                  Forall (fun p => 0 ≤ snd p /\ snd p ≤ num 270)
                         (LineChartPoints.centres f s)))
                 chart)).
  { intros chart Hne Hshape.
    destruct (week_chart_within formatDate weeklyData chart Hne Hshape)
      as [Hnone Hsome].
    split; [exact Hnone|]. intros Hdata.
    destruct (Hsome Hdata) as (f & Hlay & Hh & Hall).
    exists f. split; [exact Hlay|]. split; [exact Hh|].
    eapply Forall_impl; [exact Hall|].
    intros s (Hlen & Hx & Hy). split; [exact Hlen|]. split; [exact Hx|].
    intros Hrecs. apply Hy. now apply week_entries_not_negative. }
  assert (Hfield : forall name color (field : WeeklyPerformance.t -> Qc),
            (forall w, 0 ≤ WeeklyPerformance.revenue w /\
                       0 ≤ WeeklyPerformance.spend w /\
                       0 ≤ WeeklyPerformance.conversions w /\
                       0 ≤ WeeklyPerformance.clicks w -> 0 ≤ field w) ->
            exists name' color' field',
              WeeklyCharts.weekSeries formatDate name color field weeklyData
              = WeeklyCharts.weekSeries formatDate name' color' field' weeklyData /\
              (Forall (fun r => 0 ≤ WeeklyPerformance.revenue r /\
                                0 ≤ WeeklyPerformance.spend r /\
                                0 ≤ WeeklyPerformance.conversions r /\
                                0 ≤ WeeklyPerformance.clicks r) weeklyData ->
               Forall (fun w => 0 ≤ field' w) weeklyData)).
  { intros name color field Hf. exists name, color, field.
    split; [reflexivity|]. intros Hall.
    eapply Forall_impl; [exact Hall|]. exact Hf. }
  unfold WeeklyCharts.charts.
  repeat apply List.Forall_cons; try apply List.Forall_nil;
    (apply Hchart; [discriminate|]);
    repeat apply List.Forall_cons; try apply List.Forall_nil;
    apply Hfield; tauto.
Qed.
